(** * The pagination and extraction pipeline of [InstagramGraphQLExtractor]

    A shallow embedding of [src/extractors/graphql_extractor.py]:
    the quality selector, the media classifier, the two extraction helpers,
    the deduplicator, the extraction orchestrator and the paginator,
    followed by the properties proved about them.

    Python values that come out of [response.json()] are embedded as the
    type [json]; a Python exception is the [Raise] branch of [result].
    JSON numbers are embedded as integers (the type codes, sizes and
    indices the extractor reads are integers). *)

From Stdlib Require Import Ascii DecimalString DecimalFacts DecimalNat.
From stdpp Require Import base option list strings numbers countable gmap
  sorting.

Set Warnings "-register-all,-clear-no-such-hyp".
Local Open Scope string_scope.
Local Open Scope Z_scope.
Local Open Scope list_scope.

(** ** Decoded JSON *)

(** A Python dict is the list of its items in insertion order; the keys of
    a dict are distinct, and a lookup takes the first binding of the key.
    [JNull] is Python's [None]. *)
Inductive json : Type :=
  | JNull
  | JBool (b : bool)
  | JNum (n : Z)
  | JStr (s : string)
  | JList (items : list json)
  | JObj (fields : list (string * json)).

(** ** Exceptions *)

Inductive exn : Type :=
  | AttributeError
  | TypeError
  | KeyError
  | IndexError
  | RequestException
  | JSONDecodeError.

Inductive result (A : Type) : Type :=
  | Ok (a : A)
  | Raise (e : exn).
Arguments Ok {A} a.
Arguments Raise {A} e.

#[global] Instance result_ret : MRet result := fun A a => Ok a.
#[global] Instance result_bind : MBind result := fun A B f r =>
  match r with
  | Ok a => f a
  | Raise e => Raise e
  end.
#[global] Instance result_fmap : FMap result := fun A B f r =>
  match r with
  | Ok a => Ok (f a)
  | Raise e => Raise e
  end.

#[global] Instance exn_eq_dec : EqDecision exn.
Proof. solve_decision. Defined.

#[global] Instance result_eq_dec {A : Type} `{EqDecision A} :
  EqDecision (result A).
Proof. solve_decision. Defined.

(** ** Python primitives used by the extractor *)

Module Py.

(** [bool(v)]: the truth value used by [if v:] and [not v]. *)
Definition truthy (v : json) : bool :=
  match v with
  | JNull => false
  | JBool b => b
  | JNum n => negb (n =? 0)
  | JStr s => negb (String.eqb s "")
  | JList items => match items with [] => false | _ => true end
  | JObj fields => match fields with [] => false | _ => true end
  end.

Fixpoint assoc (k : string) (fields : list (string * json)) : option json :=
  match fields with
  | [] => None
  | (k', v) :: rest => if String.eqb k k' then Some v else assoc k rest
  end.

(** [d.get(k, dflt)]; only a dict has a [get] attribute. *)
Definition get (d : json) (k : string) (dflt : json) : result json :=
  match d with
  | JObj fields => Ok (default dflt (assoc k fields))
  | _ => Raise AttributeError
  end.

(** The characters of a string, each as a one-character string. *)
Fixpoint chars (s : string) : list json :=
  match s with
  | EmptyString => []
  | String c rest => JStr (String c EmptyString) :: chars rest
  end.

(** [iter(v)]: what a [for] loop, a generator or [list.extend] walks over.
    A list yields its items, a string its characters, a dict its keys;
    anything else is not iterable. *)
Definition iter (v : json) : result (list json) :=
  match v with
  | JList items => Ok items
  | JStr s => Ok (chars s)
  | JObj fields => Ok (map (fun kv => JStr kv.1) fields)
  | _ => Raise TypeError
  end.

(** [v[0]].  The keys of a decoded JSON object are strings, so the integer
    key 0 is never bound in a dict. *)
Definition index0 (v : json) : result json :=
  match v with
  | JList (x :: _) => Ok x
  | JList [] => Raise IndexError
  | JStr (String c _) => Ok (JStr (String c EmptyString))
  | JStr EmptyString => Raise IndexError
  | JObj _ => Raise KeyError
  | _ => Raise TypeError
  end.

(** Hashable values as the keys of a dict or the members of a set.  Python
    hashes and compares [True] as [1] and [False] as [0]; lists and dicts
    are unhashable. *)
Inductive key : Type :=
  | KNone
  | KInt (n : Z)
  | KStr (s : string).

Definition hash (v : json) : result key :=
  match v with
  | JNull => Ok KNone
  | JBool b => Ok (KInt (Z.b2z b))
  | JNum n => Ok (KInt n)
  | JStr s => Ok (KStr s)
  | JList _ | JObj _ => Raise TypeError
  end.

(** [v == n] for an integer literal [n]. *)
Definition eq_int (v : json) (n : Z) : bool :=
  match v with
  | JNum m => m =? n
  | JBool b => Z.b2z b =? n
  | _ => false
  end.

(** [str(n)] for a non-negative integer. *)
Definition str (n : nat) : string :=
  NilEmpty.string_of_uint (Nat.to_uint n).

End Py.

#[global] Instance key_eq_dec : EqDecision Py.key.
Proof. solve_decision. Defined.

#[global] Instance key_countable : Countable Py.key.
Proof.
  refine (inj_countable'
    (fun k => match k with
              | Py.KNone => inl ()
              | Py.KInt n => inr (inl n)
              | Py.KStr s => inr (inr s)
              end)
    (fun x => match x with
              | inl _ => Py.KNone
              | inr (inl n) => Py.KInt n
              | inr (inr s) => Py.KStr s
              end) _).
  by intros [].
Defined.

(** ** Quality selector *)

Inductive media_kind : Type := Image | Video | Carousel | Unknown.

#[global] Instance media_kind_eq_dec : EqDecision media_kind.
Proof. solve_decision. Defined.

(** [detect_media_type]: the type code defaults to 1 when the node has no
    [media_type] field, and is then looked up in a dict literal whose keys
    are 1, 2 and 8. *)
Definition detect_media_type (post_node : json) : result media_kind :=
  media_type ← Py.get post_node "media_type" (JNum 1);
  k ← Py.hash media_type;
  Ok (match k with
      | Py.KInt 1 => Image
      | Py.KInt 2 => Video
      | Py.KInt 8 => Carousel
      | _ => Unknown
      end).

(** The [priority] table with its [.get(preference, [103, 102, 101])]. *)
Definition priority (preference : string) : list Z :=
  if String.eqb preference "highest" then [103; 102; 101]
  else if String.eqb preference "medium" then [102; 103; 101]
  else if String.eqb preference "lowest" then [101; 102; 103]
  else [103; 102; 101].

(** [next((v for v in video_versions if v.get('type') == type_id), None)]:
    the generator is consumed up to its first hit only. *)
Fixpoint next_of_type (type_id : Z) (versions : list json)
  : result json :=
  match versions with
  | [] => Ok JNull
  | v :: rest =>
      t ← Py.get v "type" JNull;
      if Py.eq_int t type_id then Ok v else next_of_type type_id rest
  end.

Fixpoint scan_priority (type_ids : list Z) (versions : list json)
  : result json :=
  match type_ids with
  | [] => Ok JNull
  | type_id :: rest =>
      video ← next_of_type type_id versions;
      if Py.truthy video then Ok video else scan_priority rest versions
  end.

(** [select_best_video_quality]; the result [JNull] is Python's [None]. *)
Definition select_best_video_quality (video_versions : json)
    (preference : string) : result json :=
  versions ← Py.iter video_versions;
  video ← scan_priority (priority preference) versions;
  if Py.truthy video then Ok video
  else if Py.truthy video_versions then Py.index0 video_versions
  else Ok JNull.

(** ** Media descriptors *)

(** The dict built by [_extract_image_data] (key ['type'] is ['image'])
    and the one built by [_extract_video_data] (['video']).  Fields read
    from the response keep whatever JSON value was found there; a missing
    field is [JNull], as [dict.get] returns [None]. *)
Inductive media_data : Type :=
  | ImageData (url post_id width height : json)
              (post_index media_index : nat)
  | VideoData (url post_id video_type width height
               has_audio product_type thumbnail_url : json)
              (post_index media_index : nat).

Definition url (item : media_data) : json :=
  match item with
  | ImageData u _ _ _ _ _ => u
  | VideoData u _ _ _ _ _ _ _ _ _ => u
  end.

Definition type (item : media_data) : media_kind :=
  match item with
  | ImageData _ _ _ _ _ _ => Image
  | VideoData _ _ _ _ _ _ _ _ _ _ => Video
  end.

Definition post_index (item : media_data) : nat :=
  match item with
  | ImageData _ _ _ _ p _ => p
  | VideoData _ _ _ _ _ _ _ _ p _ => p
  end.

Definition media_index (item : media_data) : nat :=
  match item with
  | ImageData _ _ _ _ _ m => m
  | VideoData _ _ _ _ _ _ _ _ _ m => m
  end.

(** The settings dict of [ConfigManager.video_settings], which always binds
    both keys the extractor reads. *)
Record video_settings : Type := {
  download_videos : bool;
  video_quality : string
}.

(** ** Media classifier: the two extraction helpers *)

(** [node.get('image_versions2', {}).get('candidates', [])] *)
Definition image_candidates (node : json) : result json :=
  image_versions2 ← Py.get node "image_versions2" (JObj []);
  Py.get image_versions2 "candidates" (JList []).

Definition _extract_image_data (node : json) (post_index media_index : nat)
  : result (option media_data) :=
  image_versions ← image_candidates node;
  if negb (Py.truthy image_versions) then Ok None
  else
    best_image ← Py.index0 image_versions;
    u ← Py.get best_image "url" JNull;
    pk ← Py.get node "pk" (JStr (Py.str post_index));
    w ← Py.get best_image "width" JNull;
    h ← Py.get best_image "height" JNull;
    Ok (Some (ImageData u pk w h post_index media_index)).

Definition _extract_video_data (node : json) (post_index : nat)
    (settings : video_settings) (media_index : nat)
  : result (option media_data) :=
  video_versions ← Py.get node "video_versions" (JList []);
  if negb (Py.truthy video_versions) then Ok None
  else
    best_video ← select_best_video_quality video_versions
                   (video_quality settings);
    if negb (Py.truthy best_video) then Ok None
    else
      image_versions ← image_candidates node;
      thumbnail_url ←
        (if Py.truthy image_versions
         then first ← Py.index0 image_versions; Py.get first "url" JNull
         else Ok JNull);
      u ← Py.get best_video "url" JNull;
      pk ← Py.get node "pk" (JStr (Py.str post_index));
      vt ← Py.get best_video "type" JNull;
      w ← Py.get best_video "width" JNull;
      h ← Py.get best_video "height" JNull;
      audio ← Py.get node "has_audio" (JBool false);
      product ← Py.get node "product_type" (JStr "feed");
      Ok (Some (VideoData u pk vt w h audio product thumbnail_url
                  post_index media_index)).

(** ** Deduplicator *)

(** The loop of [_remove_duplicates] with its two locals.  The membership
    test hashes [url], which raises on a list or a dict; it is reached only
    when [url] is truthy. *)
Fixpoint remove_duplicates_loop (media_list : list media_data)
    (seen_urls : gset Py.key) (unique_media : list media_data)
  : result (list media_data) :=
  match media_list with
  | [] => Ok unique_media
  | item :: rest =>
      if Py.truthy (url item) then
        k ← Py.hash (url item);
        if decide (k ∈ seen_urls)
        then remove_duplicates_loop rest seen_urls unique_media
        else remove_duplicates_loop rest ({[k]} ∪ seen_urls)
               (unique_media ++ [item])
      else remove_duplicates_loop rest seen_urls unique_media
  end.

Definition _remove_duplicates (media_list : list media_data)
  : result (list media_data) :=
  remove_duplicates_loop media_list ∅ [].

(** ** Extraction orchestrator *)

(** The two lists the loop appends to, and the dict it returns. *)
Record media_lists : Type := {
  images : list media_data;
  videos : list media_data
}.

(** The body of the [try] block: it mutates the two lists and may raise;
    what was appended before an exception stays appended. *)
Definition Try (A : Type) : Type := media_lists → media_lists * result A.

#[global] Instance try_ret : MRet Try := fun A a st => (st, Ok a).
#[global] Instance try_bind : MBind Try := fun A B f m st =>
  match m st with
  | (st', Ok a) => f a st'
  | (st', Raise e) => (st', Raise e)
  end.

Definition lift {A : Type} (r : result A) : Try A := fun st => (st, r).

Definition images_append (item : media_data) : Try unit := fun st =>
  ({| images := images st ++ [item]; videos := videos st |}, Ok ()).

Definition videos_append (item : media_data) : Try unit := fun st =>
  ({| images := images st; videos := videos st ++ [item] |}, Ok ()).

(** The image and video branches, written twice in the source: once for a
    post's own node (media index 1) and once for a carousel child. *)
Definition collect (kind : media_kind) (node : json)
    (post_index media_index : nat) (settings : video_settings)
  : Try unit :=
  match kind with
  | Image =>
      image_data ← lift (_extract_image_data node post_index media_index);
      match image_data with
      | Some item => images_append item
      | None => mret ()
      end
  | Video =>
      if download_videos settings then
        video_data ← lift (_extract_video_data node post_index settings
                             media_index);
        match video_data with
        | Some item => videos_append item
        | None => mret ()
        end
      else mret ()
  | _ => mret ()
  end.

(** [for media_index, carousel_item in enumerate(carousel_media, 1)] *)
Fixpoint carousel_loop (carousel_media : list json) (media_index : nat)
    (post_index : nat) (settings : video_settings) : Try unit :=
  match carousel_media with
  | [] => mret ()
  | carousel_item :: rest =>
      carousel_type ← lift (detect_media_type carousel_item);
      collect carousel_type carousel_item post_index media_index settings;;
      carousel_loop rest (media_index + 1) post_index settings
  end.

(** The statements between [try:] and [post_index += 1].  The local
    [post_id] of the source is computed from a node that is already known
    to be a dict and is never read, so it is left out. *)
Definition process_post (post : json) (post_index : nat)
    (settings : video_settings) : Try unit :=
  node ← lift (Py.get post "node" (JObj []));
  media_type ← lift (detect_media_type node);
  match media_type with
  | Carousel =>
      carousel_media ← lift (Py.get node "carousel_media" (JList []));
      children ← lift (Py.iter carousel_media);
      carousel_loop children 1 post_index settings
  | _ => collect media_type node post_index 1 settings
  end.

(** [for post in posts]: the counter advances by one whether the body
    completed or the [except] clause ran. *)
Fixpoint posts_loop (posts : list json) (post_index : nat)
    (settings : video_settings) (st : media_lists) : media_lists * nat :=
  match posts with
  | [] => (st, post_index)
  | post :: rest =>
      match process_post post post_index settings st with
      | (st', Ok _) => posts_loop rest (post_index + 1) settings st'
      | (st', Raise _) => posts_loop rest (post_index + 1) settings st'
      end
  end.

Definition extract_media_from_posts (posts : list json)
    (settings : video_settings) : result media_lists :=
  let st := (posts_loop posts 1 settings
               {| images := []; videos := [] |}).1 in
  unique_images ← _remove_duplicates (images st);
  unique_videos ← _remove_duplicates (videos st);
  Ok {| images := unique_images; videos := unique_videos |}.

(** ** Paginator *)

(** What one call of [self.session.post] followed by [response.json()]
    can do: raise (connection error, timeout), or return a response with a
    status code whose body decodes to a JSON value, or does not decode. *)
Inductive post_outcome : Type :=
  | PostRaises
  | Response (status_code : Z) (body : option json).

(** The remote end as seen by one run: the outcome of the n-th call of
    [session.post], counted from 0.  The paginator is deterministic in
    these outcomes; the profile-page request of [_get_fb_dtsg], the
    username and the pauses between pages do not influence it. *)
Definition script : Type := nat → post_outcome.

(** The locals of [fetch_user_posts], and the log of the [after] variable
    of every request issued so far. *)
Record fetch_state : Type := {
  all_posts : list json;
  after_cursor : json;
  page : Z;
  requests : list json
}.

Inductive flow : Type := Break | Next.

Definition timeline_key : string :=
  "xdt_api__v1__feed__user_timeline_graphql_connection".

(** [data.get('data', {}).get(timeline_key, {})] *)
Definition timeline_of (data : json) : result json :=
  d ← Py.get data "data" (JObj []);
  Py.get d timeline_key (JObj []).

(** The reads that follow [all_posts.extend(edges)]. *)
Definition page_info_of (timeline_data : json) : result (json * json) :=
  page_info ← Py.get timeline_data "page_info" (JObj []);
  has_next_page ← Py.get page_info "has_next_page" (JBool false);
  end_cursor ← Py.get page_info "end_cursor" JNull;
  Ok (has_next_page, end_cursor).

(** The [try] block of one iteration, after the request was sent.  The
    result [Ok Break] is a [break] statement, [Ok Next] falls out of the
    block, and [Raise] enters the [except] clause; the state returned with
    it holds what was assigned before the exception. *)
Definition page_body (o : post_outcome) (st : fetch_state)
  : fetch_state * result flow :=
  match o with
  | PostRaises => (st, Raise RequestException)
  | Response status_code body =>
      if status_code =? 200 then
        match body with
        | None => (st, Raise JSONDecodeError)
        | Some data =>
            match timeline_data ← timeline_of data;
                  edges ← Py.get timeline_data "edges" (JList []);
                  Ok (timeline_data, edges) with
            | Raise e => (st, Raise e)
            | Ok (timeline_data, edges) =>
                if Py.truthy edges then
                  match Py.iter edges with
                  | Raise e => (st, Raise e)
                  | Ok new_posts =>
                      let st1 := {| all_posts := all_posts st ++ new_posts;
                                    after_cursor := after_cursor st;
                                    page := page st;
                                    requests := requests st |} in
                      match page_info_of timeline_data with
                      | Raise e => (st1, Raise e)
                      | Ok (has_next_page, end_cursor) =>
                          let st2 := {| all_posts := all_posts st1;
                                        after_cursor := end_cursor;
                                        page := page st1;
                                        requests := requests st1 |} in
                          if negb (Py.truthy has_next_page)
                             || negb (Py.truthy end_cursor)
                          then (st2, Ok Break)
                          else (st2, Ok Next)
                      end
                  end
                else (st, Ok Break)
            end
        end
      else (st, Ok Break)
  end.

(** [while page <= max_pages]: one request per iteration, sent with the
    current cursor.  [None] means the fuel ran out before the loop ended. *)
Fixpoint fetch_loop (fuel : nat) (remote : script) (max_pages : Z)
    (st : fetch_state) : option fetch_state :=
  match fuel with
  | O => None
  | S fuel' =>
      if page st <=? max_pages then
        let sent := {| all_posts := all_posts st;
                       after_cursor := after_cursor st;
                       page := page st;
                       requests := requests st ++ [after_cursor st] |} in
        match page_body (remote (length (requests st))) sent with
        | (st', Ok Next) =>
            fetch_loop fuel' remote max_pages
              {| all_posts := all_posts st';
                 after_cursor := after_cursor st';
                 page := page st' + 1;
                 requests := requests st' |}
        | (st', _) => Some st'
        end
      else Some st
  end.

Definition fetch_start : fetch_state :=
  {| all_posts := []; after_cursor := JNull; page := 1; requests := [] |}.

(** [fetch_user_posts] returns [all_posts]; the final state is kept whole
    so that the requests issued can be counted. *)
Definition fetch_user_posts_run (remote : script) (max_pages : Z)
  : option fetch_state :=
  fetch_loop (Z.to_nat max_pages + 1) remote max_pages fetch_start.

Definition fetch_user_posts (remote : script) (max_pages : Z)
  : option (list json) :=
  all_posts <$> fetch_user_posts_run remote max_pages.

(** * Vocabulary of the statements *)

(** A hashable value is truthy exactly when its key is not one of the keys
    of [None], [0] / [False] and the empty string. *)
Definition truthy_key (k : Py.key) : bool :=
  match k with
  | Py.KNone => false
  | Py.KInt n => negb (n =? 0)
  | Py.KStr s => negb (String.eqb s "")
  end.

(** An item has a url when [item.get('url')] is truthy: neither [None]
    nor empty. *)
Definition has_url (item : media_data) : Prop := Py.truthy (url item) = true.

#[global] Instance has_url_dec item : Decision (has_url item).
Proof. unfold has_url. apply _. Defined.

(** The urls of a list as the set [seen_urls] would hold them. *)
Definition url_keys (l : list media_data) : list (result Py.key) :=
  map (fun item => Py.hash (url item)) l.

(** Two items carry the same url when their urls are the same set member. *)
Definition same_url (x y : media_data) : bool :=
  bool_decide (Py.hash (url x) = Py.hash (url y)).

(** The urls of an item can be put in a set. *)
Definition hashable_url (item : media_data) : Prop :=
  ∃ k, Py.hash (url item) = Ok k.

(** The deduplication rule in words: walking the input in order, an item
    is kept when it has a url and no earlier item of the input carries the
    same url. *)
Fixpoint first_occurrences_from (earlier l : list media_data)
  : list media_data :=
  match l with
  | [] => []
  | x :: rest =>
      if bool_decide (has_url x) && forallb (fun y => negb (same_url y x)) earlier
      then x :: first_occurrences_from (earlier ++ [x]) rest
      else first_occurrences_from (earlier ++ [x]) rest
  end.

Definition first_occurrences (l : list media_data) : list media_data :=
  first_occurrences_from [] l.

(** ** Sample data *)

Module Sample.

Definition image_item (u : json) (p m : nat) : media_data :=
  ImageData u (JStr "pk") (JNum 1080) (JNum 1350) p m.

Definition item_a : media_data := image_item (JStr "https://cdn/a.jpg") 1 1.
Definition item_b : media_data := image_item (JStr "https://cdn/b.jpg") 2 1.
Definition item_a_again : media_data := image_item (JStr "https://cdn/a.jpg") 3 1.
Definition item_without_url : media_data := image_item JNull 4 1.

End Sample.

(** ** The quality selector in words *)

(** A rendition record is a dict. *)
Definition rendition : Type := list (string * json).

Definition renditions_value (renditions : list rendition) : json :=
  JList (map JObj renditions).

(** The rendition's type code equals [type_id]. *)
Definition has_type_code (type_id : Z) (v : json) : bool :=
  match Py.get v "type" JNull with
  | Ok code => Py.eq_int code type_id
  | Raise _ => false
  end.

(** The earliest entry of a priority list that some rendition carries. *)
Definition earliest_present (type_ids : list Z) (versions : list json)
  : option Z :=
  find (fun type_id => existsb (has_type_code type_id) versions) type_ids.

(** The first rendition, in input order, with the earliest present type
    code; the first rendition when no listed code is present; [None] for
    an empty input. *)
Definition preferred_rendition (type_ids : list Z) (versions : list json)
  : json :=
  match earliest_present type_ids versions with
  | Some type_id => default JNull (find (has_type_code type_id) versions)
  | None => default JNull (head versions)
  end.

(** ** The paginator in words *)

(** The n-th call answers with status 200 and a well-formed envelope whose
    edges are the list [edges], and whose continuation fields read as
    [has_next_page] and [end_cursor] ([False] and [None] when absent). *)
Definition good_page (o : post_outcome) (edges : list json)
    (has_next_page end_cursor : json) : Prop :=
  ∃ data timeline_data,
    o = Response 200 (Some data)
    ∧ timeline_of data = Ok timeline_data
    ∧ Py.get timeline_data "edges" (JList []) = Ok (JList edges)
    ∧ page_info_of timeline_data = Ok (has_next_page, end_cursor).

(** A page that lets the loop go on: at least one edge, [has_next_page]
    true and an [end_cursor] token. *)
Definition more_page (o : post_outcome) (edges : list json)
    (end_cursor : json) : Prop :=
  ∃ has_next_page,
    good_page o edges has_next_page end_cursor
    ∧ edges ≠ []
    ∧ Py.truthy has_next_page = true
    ∧ Py.truthy end_cursor = true.




(** The posts a single iteration adds to an empty accumulator. *)
Definition appended_by (o : post_outcome) : list json :=
  all_posts (page_body o fetch_start).1.

(** The state after one more page with the edges [edges] and the cursor
    [end_cursor] was fetched and the loop went on. *)
Definition advance (st : fetch_state) (p : list json * json) : fetch_state :=
  {| all_posts := all_posts st ++ p.1;
     after_cursor := p.2;
     page := page st + 1;
     requests := requests st ++ [after_cursor st] |}.

(** The [after] variable of the requests that fetch the pages [pages] one
    after the other, starting with the cursor [c]. *)
Fixpoint cursors_sent (c : json) (pages : list (list json * json))
  : list json :=
  match pages with
  | [] => []
  | p :: rest => c :: cursors_sent p.2 rest
  end.

(** Sample responses. *)
Module SamplePage.

Definition envelope (edges page_info : json) : json :=
  JObj [("data",
         JObj [(timeline_key,
                JObj [("edges", edges); ("page_info", page_info)])]);
        ("status", JStr "ok")].

Definition page_info (has_next_page end_cursor : json) : json :=
  JObj [("has_next_page", has_next_page); ("end_cursor", end_cursor)].

Definition edge (pk : string) : json :=
  JObj [("node", JObj [("pk", JStr pk); ("media_type", JNum 1)])].

(** Page [i] holds one post and always announces a next page. *)
Definition endless : script := fun i =>
  Response 200
    (Some (envelope (JList [edge (Py.str i)])
             (page_info (JBool true) (JStr "next")))).

(** Two pages, the second of which is the last. *)
Definition two_pages : script := fun i =>
  match i with
  | O => Response 200
           (Some (envelope (JList [edge "p1"; edge "p2"])
                    (page_info (JBool true) (JStr "cursor-1"))))
  | _ => Response 200
           (Some (envelope (JList [edge "p3"])
                    (page_info (JBool false) JNull)))
  end.



End SamplePage.

(** ** The orchestrator in words *)

Definition no_media : media_lists := {| images := []; videos := [] |}.

(** The children of a carousel node, as the loop walks them. *)
Definition carousel_children (node : json) : list json :=
  match Py.get node "carousel_media" (JList []) ≫= Py.iter with
  | Ok children => children
  | Raise _ => []
  end.

(** The node of a post and its kind, when both can be read. *)
Definition classified (post : json) : result (json * media_kind) :=
  node ← Py.get post "node" (JObj []);
  kind ← detect_media_type node;
  Ok (node, kind).

(** The carousel-expanded media count: a post counts for one medium, a
    carousel for as many as it has children. *)
Definition media_count (post : json) : nat :=
  match classified post with
  | Ok (node, Carousel) => length (carousel_children node)
  | _ => 1%nat
  end.

Definition expanded_media_count (posts : list json) : nat :=
  sum_list (map media_count posts).

(** [st'] is [st] with the descriptors [new_images] and [new_videos]
    appended. *)
Definition appended (st st' : media_lists)
    (new_images new_videos : list media_data) : Prop :=
  images st' = images st ++ new_images
  ∧ videos st' = videos st ++ new_videos.

(** Child number [m] of the carousel at position [p] is an image child or
    a video child, and its extraction yields the descriptor [d]. *)
Definition child_yields (settings : video_settings) (p m : nat)
    (child : json) (d : media_data) : Prop :=
  (detect_media_type child = Ok Image
   ∧ _extract_image_data child p m = Ok (Some d))
  ∨ (detect_media_type child = Ok Video
     ∧ _extract_video_data child p settings m = Ok (Some d)).

(** The children, numbered from [m] on, yield the descriptors [descs],
    one each. *)
Fixpoint children_yield (settings : video_settings) (p m : nat)
    (children : list json) (descs : list media_data) : Prop :=
  match children, descs with
  | [], [] => True
  | child :: children', d :: descs' =>
      child_yields settings p m child d
      ∧ children_yield settings p (m + 1) children' descs'
  | _, _ => False
  end.

(** Handling child number [m] of the carousel at position [p] raises [e]:
    its kind cannot be read, or the extraction that its kind calls for
    raises. *)
Definition child_raises (settings : video_settings) (p m : nat)
    (child : json) (e : exn) : Prop :=
  detect_media_type child = Raise e
  ∨ (detect_media_type child = Ok Image
     ∧ _extract_image_data child p m = Raise e)
  ∨ (detect_media_type child = Ok Video
     ∧ download_videos settings = true
     ∧ _extract_video_data child p settings m = Raise e).

(** Sample posts. *)
Module SamplePost.

Definition candidates (u : json) : json :=
  JObj [("candidates",
         JList [JObj [("url", u); ("width", JNum 1080);
                      ("height", JNum 1350)]])].

Definition image_node (pk u : string) : json :=
  JObj [("pk", JStr pk); ("media_type", JNum 1);
        ("image_versions2", candidates (JStr u))].

Definition video_node (pk u : string) : json :=
  JObj [("pk", JStr pk); ("media_type", JNum 2);
        ("video_versions",
         JList [JObj [("type", JNum 101); ("url", JStr (String.append u "?low"))];
                JObj [("type", JNum 103); ("url", JStr u)]])].

(** A node with a type code the classifier does not know. *)
Definition story_node : json :=
  JObj [("pk", JStr "s"); ("media_type", JNum 5);
        ("image_versions2", candidates (JStr "https://cdn/s.jpg"))].

(** A node without a [media_type] field. *)
Definition untyped_fields : list (string * json) :=
  [("pk", JStr "u"); ("image_versions2", candidates (JStr "https://cdn/u.jpg"))].

Definition carousel_node (children : list json) : json :=
  JObj [("pk", JStr "c"); ("media_type", JNum 8);
        ("carousel_media", JList children)].

Definition post (node : json) : json := JObj [("node", node)].

Definition settings : video_settings :=
  {| download_videos := true; video_quality := "highest" |}.

Definition image_of (pk u : string) (p m : nat) : media_data :=
  ImageData (JStr u) (JStr pk) (JNum 1080) (JNum 1350) p m.

Definition video_of (pk u : string) (p m : nat) : media_data :=
  VideoData (JStr u) (JStr pk) (JNum 103) JNull JNull (JBool false)
    (JStr "feed") JNull p m.

(** A carousel of a video followed by an image. *)
Definition mixed_carousel : json :=
  post (carousel_node [video_node "c1" "https://cdn/v.mp4";
                       image_node "c2" "https://cdn/a.jpg"]).

(** A carousel whose second child is [null]. *)
Definition broken_carousel : json :=
  post (carousel_node [image_node "c1" "https://cdn/a.jpg"; JNull]).

(** A post whose node is [null]. *)
Definition null_node_post : json := post JNull.

(** Three posts, the second of an unknown kind. *)
Definition three_posts : list json :=
  [post (image_node "1" "https://cdn/a.jpg"); post story_node;
   post (image_node "3" "https://cdn/b.jpg")].

End SamplePost.

(** * Further vocabulary *)

(** The order of the descriptors by post index, then media index. *)
Definition index_lt (a b : media_data) : Prop :=
  (post_index a < post_index b)%nat
  ∨ (post_index a = post_index b ∧ (media_index a < media_index b)%nat).

(** A response with status 200 whose envelope reads without an exception
    and whose [edges] are missing or empty. *)
Definition empty_page (o : post_outcome) : Prop :=
  ∃ data timeline_data edges,
    o = Response 200 (Some data)
    ∧ timeline_of data = Ok timeline_data
    ∧ Py.get timeline_data "edges" (JList []) = Ok edges
    ∧ Py.truthy edges = false.

(** The descriptors [l] are of the kind [kind], come from post [p], have
    media indices from [mlo] up to but not including [mhi], and are listed
    in increasing order of their indices. *)
Definition in_post (kind : media_kind) (p mlo mhi : nat)
    (l : list media_data) : Prop :=
  Forall (fun d => type d = kind ∧ post_index d = p
                   ∧ (mlo ≤ media_index d < mhi)%nat) l
  ∧ StronglySorted index_lt l.

(** The descriptors [l] are of the kind [kind], come from the posts [lo]
    up to but not including [hi], have media indices from 1 on, and are
    listed in increasing order of their indices. *)
Definition in_posts (kind : media_kind) (lo hi : nat)
    (l : list media_data) : Prop :=
  Forall (fun d => type d = kind ∧ (lo ≤ post_index d < hi)%nat
                   ∧ (1 ≤ media_index d)%nat) l
  ∧ StronglySorted index_lt l.

(** The response [o] let the loop go on, and [c] is the end cursor read
    from it. *)
Definition cursor_from (o : post_outcome) (c : json) : Prop :=
  ∃ data timeline_data has_next_page,
    o = Response 200 (Some data)
    ∧ timeline_of data = Ok timeline_data
    ∧ page_info_of timeline_data = Ok (has_next_page, c)
    ∧ Py.truthy has_next_page = true
    ∧ Py.truthy c = true.

(** * The downloader ([src/downloaders/media_downloader.py]) *)

(** ** File names *)

Module Fmt.

Fixpoint zeros (n : nat) : string :=
  match n with
  | O => ""
  | S n' => String "0"%char (zeros n')
  end.

(** The format [{n:0wd}] of an f-string for an integer that is not
    negative, as the indices of a descriptor are: the decimal digits of
    [n], filled up with zeros on the left to [width] characters. *)
Definition d (width n : nat) : string :=
  zeros (width - String.length (Py.str n)) +:+ Py.str n.

End Fmt.

(** [generate_filename] on a descriptor built by the extractor, whose dict
    binds ['post_index'], ['media_index'] and ['type']. *)
Definition generate_filename (media_item : media_data) : string :=
  let base := "post_" +:+ Fmt.d 3 (post_index media_item) in
  match type media_item with
  | Image =>
      let suffix := if (1 <? media_index media_item)%nat
                    then "_img_" +:+ Fmt.d 2 (media_index media_item)
                    else "_img" in
      base +:+ suffix +:+ ".jpg"
  | Video =>
      let suffix := if (1 <? media_index media_item)%nat
                    then "_video_" +:+ Fmt.d 2 (media_index media_item)
                    else "_video" in
      base +:+ suffix +:+ ".mp4"
  | _ => base +:+ "_unknown.bin"
  end.

Definition is_digit (c : ascii) : bool :=
  (48 <=? nat_of_ascii c)%nat && (nat_of_ascii c <=? 57)%nat.

Fixpoint all_digits (s : string) : bool :=
  match s with
  | EmptyString => true
  | String c rest => is_digit c && all_digits rest
  end.

(** The string is empty or starts with a character that is no digit. *)
Definition no_digit_first (s : string) : bool :=
  match s with
  | EmptyString => true
  | String c _ => negb (is_digit c)
  end.

(** The extension of the file name of a descriptor of each kind. *)
Definition extension (kind : media_kind) : string :=
  match kind with
  | Image => ".jpg"
  | Video => ".mp4"
  | _ => ".bin"
  end.

(** The kind and the two indices of a descriptor. *)
Definition item_indices (item : media_data) : media_kind * nat * nat :=
  (type item, post_index item, media_index item).

(** ** Paths *)

Module Path.

(** The name cut at its last dot: what is before the dot, and the rest
    from the dot on. *)
Fixpoint split_last_dot (name : string) : option (string * string) :=
  match name with
  | EmptyString => None
  | String c rest =>
      match split_last_dot rest with
      | Some (before, from_dot) => Some (String c before, from_dot)
      | None =>
          if Ascii.eqb c "."%char then Some (EmptyString, String c rest)
          else None
      end
  end.

(** [PurePath.suffix] and [PurePath.stem] of a file name: the suffix
    starts at the last dot, unless that dot is the first or the last
    character of the name ([0 < i < len(name) - 1]). *)
Definition parts (name : string) : string * string :=
  match split_last_dot name with
  | Some (before, from_dot) =>
      if negb (String.eqb before "") && negb (String.eqb from_dot ".")
      then (before, from_dot)
      else (name, EmptyString)
  | None => (name, EmptyString)
  end.

Definition stem (name : string) : string := (parts name).1.
Definition suffix (name : string) : string := (parts name).2.

Fixpoint no_separator (name : string) : bool :=
  match name with
  | EmptyString => true
  | String c rest => negb (Ascii.eqb c "/"%char) && no_separator rest
  end.

(** The name of an entry of a folder: one component of a path, which is
    not empty, holds no separator and is not one of the two special
    entries.  For such a [name] the path [folder / name] has the name
    [name], and [with_name] keeps the folder. *)
Definition is_name (name : string) : bool :=
  negb (String.eqb name "") && negb (String.eqb name ".")
  && negb (String.eqb name "..") && no_separator name.

Fixpoint no_dot (s : string) : bool :=
  match s with
  | EmptyString => true
  | String c rest => negb (Ascii.eqb c "."%char) && no_dot rest
  end.

End Path.

(** ** Downloads *)

(** The content of a file, and a chunk of a response body. *)
Definition bytes : Type := string.

(** The files of the download folder, by name ([Path.is_name]). *)
Abbreviation folder := (gmap string bytes) (only parsing).

Definition file_exists (files : folder) (name : string) : bool :=
  bool_decide (is_Some (files !! name)).

(** The name tried for the counter [counter]:
    [f"{stem}_{counter}{suffix}"]. *)
Definition numbered (stem suffix : string) (counter : nat) : string :=
  stem +:+ "_" +:+ Py.str counter +:+ suffix.

(** The [while] loop of [_handle_filename_collision]; [None] means the fuel
    ran out before a free name was found. *)
Fixpoint collision_loop (fuel : nat) (files : folder) (stem suffix : string)
    (counter : nat) : option string :=
  match fuel with
  | O => None
  | S fuel' =>
      if file_exists files (numbered stem suffix counter)
      then collision_loop fuel' files stem suffix (counter + 1)
      else Some (numbered stem suffix counter)
  end.

Definition _handle_filename_collision (files : folder) (name : string)
  : option string :=
  if negb (file_exists files name) then Some name
  else collision_loop (S (size files)) files
         (Path.stem name) (Path.suffix name) 1.

(** [a / 1024 / 1024] on an integer [a], as the message of
    [_check_video_size_limit] computes it: the first division is the true
    division of two integers, which raises [OverflowError] when the
    quotient, rounded to the nearest float, is outside the floats; the
    second divides a float and does not raise. *)
Definition division_overflows (a : Z) : bool :=
  2 ^ 1034 - 2 ^ 980 <=? Z.abs a.

(** [_check_video_size_limit], with the value of the setting
    ['max_video_size_mb']; [None] when it raises [OverflowError] while it
    computes the message it prints. *)
Definition _check_video_size_limit (max_video_size_mb total_size : Z)
  : option bool :=
  let max_size_bytes := max_video_size_mb * 1024 * 1024 in
  if max_size_bytes <? total_size then
    if division_overflows total_size then None
    else if division_overflows max_size_bytes then None
    else Some false
  else Some true.

(** What [session.get(url, stream=True)] and the reading of the response
    can do: [session.get] or [raise_for_status] raises; or there is a
    response whose [content-length] header reads as an integer (0 when the
    header is absent; [None] when [int] raises on it) and whose body comes
    in the chunks [chunks], completely or with an exception after them. *)
Inductive get_outcome : Type :=
  | GetRaises
  | GetResponse (content_length : option Z) (chunks : list bytes)
                (complete : bool).

(** The chunks written to the file: [if chunk: f.write(chunk)]. *)
Definition written (chunks : list bytes) : bytes :=
  foldr String.append EmptyString chunks.

(** The statements of [download_with_progress] from the collision
    handling on: the file is opened under the free name and filled chunk
    by chunk; when the body breaks off, the [except] clause removes it. *)
Definition save_body (files : folder) (name : string) (chunks : list bytes)
    (complete : bool) : option (folder * bool) :=
  filepath ← _handle_filename_collision files name;
  let opened := <[filepath := EmptyString]> files in
  let filled := <[filepath := written chunks]> opened in
  if complete then Some (filled, true)
  else Some (delete filepath filled, false).

(** [download_with_progress]: the files afterwards and the value returned.
    The path is given by [name], the name of the file in the download
    folder, where [download_media_item] puts it.  The disk itself is taken
    to accept the writes; the progress bar is output only.  The [except]
    clause removes the file [filepath] names at that moment: the free name
    once it was chosen, the name passed in before. *)
Definition download_with_progress (max_video_size_mb : Z) (o : get_outcome)
    (files : folder) (name : string) (file_type : media_kind)
  : option (folder * bool) :=
  match o with
  | GetRaises => Some (delete name files, false)
  | GetResponse None _ _ => Some (delete name files, false)
  | GetResponse (Some total_size) chunks complete =>
      if bool_decide (file_type = Video) && (0 <? total_size) then
        match _check_video_size_limit max_video_size_mb total_size with
        | None => Some (delete name files, false)
        | Some false => Some (files, false)
        | Some true => save_body files name chunks complete
        end
      else save_body files name chunks complete
  end.

(** The response carries the file: its content length reads, its body
    arrives completely, and the file is not a video whose declared length
    is positive and over the limit. *)
Definition delivers (max_video_size_mb : Z) (kind : media_kind)
    (o : get_outcome) : bool :=
  match o with
  | GetResponse (Some total_size) _ true =>
      negb (bool_decide (kind = Video) && (0 <? total_size)
            && (max_video_size_mb * 1024 * 1024 <? total_size))
  | _ => false
  end.

(** The size check of a video with the declared length [total_size]
    raises: the length is positive and over the limit, and the length or
    the limit is too large for the message. *)
Definition size_check_raises (max_video_size_mb : Z) (kind : media_kind)
    (total_size : Z) : bool :=
  bool_decide (kind = Video) && (0 <? total_size)
  && (max_video_size_mb * 1024 * 1024 <? total_size)
  && (division_overflows total_size
      || division_overflows (max_video_size_mb * 1024 * 1024)).

(** The files, and the urls requested so far. *)
Record download_state : Type := {
  files : folder;
  requested : list json
}.

(** The server as seen by one run: the outcome of the n-th request,
    counted from 0. *)
Definition server : Type := nat → get_outcome.

Definition download_media_item (max_video_size_mb : Z) (remote : server)
    (st : download_state) (media_item : media_data)
  : option (download_state * bool) :=
  let filename := generate_filename media_item in
  if negb (Py.truthy (url media_item)) then Some (st, false)
  else
    '(files', ok) ← download_with_progress max_video_size_mb
                      (remote (length (requested st))) (files st) filename
                      (type media_item);
    Some ({| files := files';
             requested := requested st ++ [url media_item] |}, ok).

(** [for attempt in range(max_retries)] *)
Fixpoint retry_loop (attempts : nat) (max_video_size_mb : Z)
    (remote : server) (st : download_state) (media_item : media_data)
  : option (download_state * bool) :=
  match attempts with
  | O => Some (st, false)
  | S attempts' =>
      '(st', ok) ← download_media_item max_video_size_mb remote st
                     media_item;
      if ok : bool then Some (st', true)
      else retry_loop attempts' max_video_size_mb remote st' media_item
  end.

Definition download_with_retry (max_video_size_mb : Z) (remote : server)
    (st : download_state) (media_item : media_data) (max_retries : Z)
  : option (download_state * bool) :=
  retry_loop (Z.to_nat max_retries) max_video_size_mb remote st media_item.

(** The dict returned by [download_all_media]. *)
Record download_results : Type := {
  images_done : nat;
  videos_done : nat;
  failed : nat
}.

(** One of the two [for] loops of [download_all_media]: the number of
    items downloaded and the number of items that failed. *)
Fixpoint download_items (max_video_size_mb : Z) (remote : server)
    (st : download_state) (items : list media_data) (successful failed : nat)
  : option (download_state * nat * nat) :=
  match items with
  | [] => Some (st, successful, failed)
  | item :: rest =>
      '(st', ok) ← download_with_retry max_video_size_mb remote st item 3;
      if ok : bool
      then download_items max_video_size_mb remote st' rest
             (successful + 1) failed
      else download_items max_video_size_mb remote st' rest
             successful (failed + 1)
  end.

Definition download_all_media (max_video_size_mb : Z) (remote : server)
    (st : download_state) (media_data : media_lists)
  : option (download_state * download_results) :=
  let total_items := (length (images media_data)
                      + length (videos media_data))%nat in
  if (total_items =? 0)%nat
  then Some (st, {| images_done := 0; videos_done := 0; failed := 0 |})
  else
    '(st1, successful_images, failed1) ←
      download_items max_video_size_mb remote st (images media_data) 0 0;
    '(st2, successful_videos, failed2) ←
      download_items max_video_size_mb remote st1 (videos media_data)
        0 failed1;
    Some (st2, {| images_done := successful_images;
                  videos_done := successful_videos;
                  failed := failed2 |}).

(** Every file of [before] whose name is not among [names] is in [after]
    with the same content. *)
Definition kept_except (names : list string) (before after : folder)
  : Prop :=
  ∀ n c, before !! n = Some c → n ∉ names → after !! n = Some c.

(** * The configuration ([src/core/config.py]) *)

(** ** Methods of [str]

    Text is a sequence of code points; the ones modelled are those below
    256, for which the whitespace and the upper-case letters are listed
    here in full. *)

Module Str.

(** [c.isspace()] *)
Definition is_space (c : ascii) : bool :=
  let n := nat_of_ascii c in
  ((9 <=? n) && (n <=? 13) || (28 <=? n) && (n <=? 32)
   || (n =? 133) || (n =? 160))%nat.

Fixpoint lstrip (s : string) : string :=
  match s with
  | EmptyString => EmptyString
  | String c rest => if is_space c then lstrip rest else s
  end.

Fixpoint rstrip (s : string) : string :=
  match s with
  | EmptyString => EmptyString
  | String c rest =>
      match rstrip rest with
      | EmptyString => if is_space c then EmptyString
                       else String c EmptyString
      | rest' => String c rest'
      end
  end.

(** [s.strip()] *)
Definition strip (s : string) : string := rstrip (lstrip s).

(** [s.startswith('#')] *)
Definition starts_with_hash (s : string) : bool :=
  match s with
  | String c _ => Ascii.eqb c "#"%char
  | EmptyString => false
  end.

(** [s.split('=', 1)] when ['=' in s]: what is before the first ['='] and
    what is after it; [None] when there is no ['=']. *)
Fixpoint split_eq (s : string) : option (string * string) :=
  match s with
  | EmptyString => None
  | String c rest =>
      if Ascii.eqb c "="%char then Some (EmptyString, rest)
      else match split_eq rest with
           | Some (k, v) => Some (String c k, v)
           | None => None
           end
  end.

Definition lower_char (c : ascii) : ascii :=
  let n := nat_of_ascii c in
  if ((65 <=? n) && (n <=? 90)
      || (192 <=? n) && (n <=? 222) && negb (n =? 215))%nat
  then ascii_of_nat (n + 32)
  else c.

(** [s.lower()] *)
Fixpoint lower (s : string) : string :=
  match s with
  | EmptyString => EmptyString
  | String c rest => String (lower_char c) (lower rest)
  end.

End Str.

(** ** [ConfigManager] *)

(** [self._config_data] *)
Abbreviation config_data := (gmap string string) (only parsing).

Inductive config_error : Type :=
  | FileNotFoundError
  | ValueError (message : string).

Inductive outcome (A : Type) : Type :=
  | Returns (a : A)
  | Raises (e : config_error).
Arguments Returns {A} a.
Arguments Raises {A} e.

(** The body of the loop of [_load_config] for one line of the file. *)
Definition load_line (data : config_data) (line : string) : config_data :=
  let line := Str.strip line in
  if String.eqb line "" || Str.starts_with_hash line then data
  else match Str.split_eq line with
       | Some (key, value) => <[Str.strip key := Str.strip value]> data
       | None => data
       end.

(** [_load_config] on the lines of the file, [None] when the file does not
    exist. *)
Definition _load_config (file : option (list string))
  : outcome config_data :=
  match file with
  | None => Raises FileNotFoundError
  | Some lines => Returns (foldl load_line ∅ lines)
  end.

(** The property [username]. *)
Definition username (data : config_data) : outcome string :=
  match data !! "username" with
  | Some (String c rest) => Returns (String c rest)
  | _ => Raises (ValueError "Username not found in configuration")
  end.

Definition cookie_keys : list string :=
  ["sessionid"; "csrftoken"; "ds_user_id"; "mid"; "ig_did"; "rur"].

Definition required_cookies : list string :=
  ["sessionid"; "csrftoken"; "ds_user_id"].

(** [f'your_{key}_value'] *)
Definition placeholder (key : string) : string :=
  "your_" +:+ key +:+ "_value".

(** The first loop of [cookies] for one key. *)
Definition collect_cookie (data cookies : config_data) (key : string)
  : config_data :=
  match data !! key with
  | Some value =>
      if negb (String.eqb value "")
         && negb (String.eqb value (placeholder key))
      then <[key := value]> cookies
      else cookies
  | None => cookies
  end.

(** The property [cookies]. *)
Definition cookies (data : config_data) : outcome config_data :=
  let cookies := foldl (collect_cookie data) ∅ cookie_keys in
  let missing :=
    List.filter (fun k => negb (bool_decide (is_Some (cookies !! k))))
      required_cookies in
  match missing with
  | [] => Returns cookies
  | _ => Raises (ValueError ("Missing required cookies: "
                             +:+ String.concat ", " missing))
  end.

(** The dict of the property [video_settings]. *)
Record settings_dict : Type := {
  for_extractor : video_settings;
  download_images : bool;
  max_video_size_mb : Z
}.

Section video_settings.

(** [int(s)] on a string: the integer it reads as, or the [ValueError] it
    raises. *)
Variable int_of_str : string → outcome Z.

(** The property [video_settings]; the values of the dict are evaluated
    in the order of the keys, the size last. *)
Definition config_video_settings (data : config_data)
  : outcome settings_dict :=
  let videos_on :=
    String.eqb (Str.lower (default "true" (data !! "download_videos")))
      "true" in
  let images_on :=
    String.eqb (Str.lower (default "true" (data !! "download_images")))
      "true" in
  let quality := default "highest" (data !! "video_quality") in
  match data !! "max_video_size_mb" with
  | None =>
      Returns {| for_extractor := {| download_videos := videos_on;
                                     video_quality := quality |};
                 download_images := images_on;
                 max_video_size_mb := 50 |}
  | Some s =>
      match int_of_str s with
      | Returns n =>
          Returns {| for_extractor := {| download_videos := videos_on;
                                         video_quality := quality |};
                     download_images := images_on;
                     max_video_size_mb := n |}
      | Raises e => Raises e
      end
  end.

End video_settings.

(** The value a cookie key contributes: the configured value, when it is
    neither empty nor the placeholder of the sample file. *)
Definition usable_value (data : config_data) (key : string)
  : option string :=
  match data !! key with
  | Some value =>
      if negb (String.eqb value "")
         && negb (String.eqb value (placeholder key))
      then Some value
      else None
  | None => None
  end.

(** The text has no ['=']. *)
Definition no_eq (s : string) : Prop := Str.split_eq s = None.

(** What holds of every binding of a loaded configuration. *)
Definition clean_binding (k v : string) : Prop :=
  Str.strip k = k ∧ Str.strip v = v ∧ no_eq k
  ∧ Str.starts_with_hash k = false.

(** * The file manager ([src/utils/file_manager.py]) *)

Module Glob.

(** [glob.has_magic]: the pattern holds a wildcard character. *)
Fixpoint has_magic (s : string) : bool :=
  match s with
  | EmptyString => false
  | String c rest =>
      Ascii.eqb c "*"%char || Ascii.eqb c "?"%char || Ascii.eqb c "["%char
      || has_magic rest
  end.

(** [name.endswith(tail)] *)
Fixpoint ends_with (tail name : string) : bool :=
  String.eqb name tail
  || match name with
     | EmptyString => false
     | String _ rest => ends_with tail rest
     end.

(** The entries [glob] leaves out unless the pattern itself starts with a
    dot. *)
Definition hidden (name : string) : bool :=
  match name with
  | String c _ => Ascii.eqb c "."%char
  | EmptyString => false
  end.

(** The two kinds of pattern [clear_cache_files] uses for a user name
    without wildcard characters: a plain name, and ['*.tmp']. *)
Inductive pattern : Type :=
  | Exactly (name : string)
  | AnyTmp.

(** [fnmatch] of a name against ['*.tmp'], among the entries that are not
    hidden. *)
Definition matches_tmp (name : string) : bool :=
  negb (hidden name) && ends_with ".tmp" name.

(** [glob.glob(pattern)] in a directory with the files [files]: a pattern
    without wildcard yields its name when such an entry exists; ['*.tmp']
    yields the entries that match. *)
Definition glob (p : pattern) (files : folder) : list string :=
  match p with
  | Exactly name => if file_exists files name then [name] else []
  | AnyTmp => List.filter matches_tmp (map fst (map_to_list files))
  end.

End Glob.

(** A user name that is the name of a folder and is read by [glob] as it
    stands: one component of a path ([Path.is_name]) without wildcard and
    without the character of code 0.  The download folder
    [downloads/<username>] is then a folder of its own below the working
    directory. *)
Fixpoint no_nul (s : string) : bool :=
  match s with
  | EmptyString => true
  | String c rest => negb (Ascii.eqb c "000"%char) && no_nul rest
  end.

Definition plain_username (username : string) : bool :=
  Path.is_name username && negb (Glob.has_magic username) && no_nul username.

(** The list [cache_patterns] of [clear_cache_files], for such a user
    name. *)
Definition cache_patterns (username : string) : list Glob.pattern :=
  [Glob.Exactly ("working_" +:+ username +:+ "_images.txt");
   Glob.Exactly (username +:+ "_images.txt");
   Glob.Exactly ("media_data_" +:+ username +:+ ".json");
   Glob.Exactly "high_quality_images.txt";
   Glob.Exactly "extracted_images.txt";
   Glob.AnyTmp].

(** [for file_path in ...: os.remove(file_path)]; the directory holds
    files, which the disk lets go. *)
Definition remove_all (names : list string) (files : folder) : folder :=
  foldl (fun files name => delete name files) files names.

(** [clear_cache_files] on the files of the working directory. *)
Definition clear_cache_files (username : string) (working : folder)
  : folder :=
  foldl (fun files p => remove_all (Glob.glob p files) files) working
    (cache_patterns username).

(** The names of the cache files of a user. *)
Definition cache_names (username : string) : list string :=
  ["working_" +:+ username +:+ "_images.txt";
   username +:+ "_images.txt";
   "media_data_" +:+ username +:+ ".json";
   "high_quality_images.txt";
   "extracted_images.txt"].

(** * The application ([src/main.py]) *)

Section run.

Variable int_of_str : string → outcome Z.

(** [InstagramDownloader.run] on the loaded configuration, for a user name
    that is [plain_username]: the value returned, the files of the working
    directory and the download folder afterwards.  An exception raised on
    the way is caught by the [except] clause of [run], which returns
    [False].  [clear_cache_files] works on the working directory, of which
    the download folder [downloads/<username>] is no entry.
    [folder_created] tells whether the [mkdir] of the downloader's
    constructor succeeds; it raises when the folder cannot be made, and
    changes no file of a folder that is there.  What is printed is taken
    to reach the console, and the summary only reads the folder. *)
Definition run (data : config_data) (remote : script) (downloads : server)
    (folder_created : bool) (working : folder) (st : download_state)
  : option (bool * folder * download_state) :=
  match username data with
  | Raises _ => Some (false, working, st)
  | Returns user =>
      match config_video_settings int_of_str data with
      | Raises _ => Some (false, working, st)
      | Returns settings =>
          let working := clear_cache_files user working in
          match cookies data with
          | Raises _ => Some (false, working, st)
          | Returns _ =>
              posts ← fetch_user_posts remote 10;
              match posts with
              | [] => Some (false, working, st)
              | _ =>
                  match extract_media_from_posts posts
                          (for_extractor settings) with
                  | Raise _ => Some (false, working, st)
                  | Ok media_data =>
                      let image_count := length (images media_data) in
                      let video_count := length (videos media_data) in
                      if (image_count =? 0)%nat && (video_count =? 0)%nat
                      then Some (false, working, st)
                      else if negb folder_created
                      then Some (false, working, st)
                      else
                        '(st', results) ←
                          download_all_media (max_video_size_mb settings)
                            downloads st media_data;
                        Some (true, working, st')
                  end
              end
          end
      end
  end.

End run.
(** * Properties *)

(** ** Python truth values and hashing *)

Section primitives.

Lemma truthy_hash v k : Py.hash v = Ok k → Py.truthy v = truthy_key k.
Proof.
  destruct v as [|[]| | | |]; simpl; intros H; inversion H; subst; done.
Qed.

Lemma hash_raises v e : Py.hash v = Raise e → e = TypeError.
Proof. destruct v; simpl; congruence. Qed.

End primitives.

(** ** The deduplicator *)

Section dedupe.

Implicit Types (item : media_data) (seen : gset Py.key).

(** The accumulator only ever grows at its end. *)
Lemma remove_duplicates_loop_acc l seen acc :
  remove_duplicates_loop l seen acc
  = (app acc) <$> remove_duplicates_loop l seen [].
Proof.
  revert seen acc. induction l as [|x l IH]; intros seen acc; simpl.
  - by rewrite app_nil_r.
  - destruct (Py.truthy (url x)); [|apply IH].
    destruct (Py.hash (url x)) as [k|e]; simpl; [|done].
    case_decide; [apply IH|].
    rewrite (IH _ (acc ++ [x])), (IH _ ([] ++ [x])).
    destruct (remove_duplicates_loop l _ []); simpl; [|done].
    by rewrite <- app_assoc.
Qed.

(** One step of the loop, read off the head of the input. *)
Lemma remove_duplicates_loop_cons x l seen ys :
  remove_duplicates_loop (x :: l) seen [] = Ok ys →
  (Py.truthy (url x) = false ∧ remove_duplicates_loop l seen [] = Ok ys)
  ∨ ((∃ k, Py.truthy (url x) = true ∧ Py.hash (url x) = Ok k ∧ k ∈ seen
          ∧ remove_duplicates_loop l seen [] = Ok ys)
  ∨ (∃ k ys', Py.truthy (url x) = true ∧ Py.hash (url x) = Ok k ∧ (k ∉ seen)
          ∧ remove_duplicates_loop l ({[k]} ∪ seen) [] = Ok ys'
          ∧ ys = x :: ys')).
Proof.
  simpl. destruct (Py.truthy (url x)); [|by left].
  destruct (Py.hash (url x)) as [k|e]; simpl; [|done].
  case_decide as Hk.
  - intros H. right; left. exists k. by repeat split.
  - rewrite remove_duplicates_loop_acc.
    destruct (remove_duplicates_loop l _ []) as [ys'|] eqn:E; simpl; [|done].
    intros [= <-]. right; right. exists k, ys'. by repeat split.
Qed.

(** What the loop keeps has a url that was not seen, and is a
    subsequence of its input. *)
Lemma remove_duplicates_loop_kept l seen ys :
  remove_duplicates_loop l seen [] = Ok ys →
  sublist ys l ∧
  Forall (fun y => has_url y ∧ ∃ k, Py.hash (url y) = Ok k ∧ k ∉ seen) ys.
Proof.
  revert seen ys. induction l as [|x l IH]; intros seen ys H.
  - injection H as <-. split; constructor.
  - apply remove_duplicates_loop_cons in H
      as [[_ H]|[(k & _ & _ & _ & H)|(k & ys' & Ht & Hh & Hk & H & ->)]].
    + apply IH in H as [? ?]. split; [by constructor|done].
    + apply IH in H as [? ?]. split; [by constructor|done].
    + apply IH in H as [Hs Hf]. split; [by constructor|].
      constructor; [by eauto|].
      eapply Forall_impl; [exact Hf|]. simpl.
      intros y (Hy & k' & Hk' & Hn). split; [done|].
      exists k'. split; [done|set_solver].
Qed.

Lemma remove_duplicates_loop_nodup l seen ys :
  remove_duplicates_loop l seen [] = Ok ys → NoDup (url_keys ys).
Proof.
  revert seen ys. induction l as [|x l IH]; intros seen ys H.
  - injection H as <-. constructor.
  - apply remove_duplicates_loop_cons in H
      as [[_ H]|[(k & _ & _ & _ & H)|(k & ys' & Ht & Hh & Hk & H & ->)]];
      [by eauto..|].
    simpl. constructor; [|by eauto].
    apply remove_duplicates_loop_kept in H as [_ Hf].
    rewrite Hh. unfold url_keys. rewrite list_elem_of_fmap.
    intros (y & Hy & Hin). rewrite Forall_forall in Hf.
    destruct (Hf y Hin) as (_ & k' & Hk' & Hn).
    rewrite Hk' in Hy. injection Hy as ->. set_solver.
Qed.

(** Every url of the input that was not seen before occurs in the result. *)
Lemma remove_duplicates_loop_covers l seen ys :
  remove_duplicates_loop l seen [] = Ok ys →
  ∀ x k, x ∈ l → has_url x → Py.hash (url x) = Ok k → k ∉ seen →
         Ok k ∈ url_keys ys.
Proof.
  revert seen ys. induction l as [|x l IH]; intros seen ys H x' k' Hin Hu Hh Hn.
  - by apply elem_of_nil in Hin.
  - apply elem_of_cons in Hin.
    apply remove_duplicates_loop_cons in H
      as [[Hf H]|[(k & _ & Hk & Hs & H)|(k & ys' & Ht & Hk & Hs & H & ->)]].
    + destruct Hin as [->|Hin]; [unfold has_url in Hu; congruence|by eauto].
    + destruct Hin as [->|Hin]; [|by eauto].
      rewrite Hk in Hh. injection Hh as ->. done.
    + simpl. rewrite Hk. destruct (decide (k = k')) as [->|Hne].
      { apply elem_of_cons. by left. }
      apply elem_of_cons. right.
      destruct Hin as [->|Hin]; [congruence|].
      eapply IH; [exact H|exact Hin|done|done|set_solver].
Qed.

(** A result of the loop is left as it is by a second pass. *)
Lemma remove_duplicates_loop_fixed ys seen :
  Forall (fun y => has_url y ∧ ∃ k, Py.hash (url y) = Ok k ∧ k ∉ seen) ys →
  NoDup (url_keys ys) →
  remove_duplicates_loop ys seen [] = Ok ys.
Proof.
  revert seen. induction ys as [|y ys IH]; intros seen Hf Hn; [done|].
  apply Forall_cons in Hf as [(Hy & k & Hk & Hs) Hf].
  apply NoDup_cons in Hn as [Hy' Hn].
  simpl. rewrite Hy, Hk. simpl. rewrite decide_False by done.
  rewrite remove_duplicates_loop_acc, IH; [done| |done].
  rewrite Forall_forall in Hf. apply Forall_forall.
  intros z Hz. destruct (Hf z Hz) as (Hz1 & k' & Hk' & Hs').
  split; [done|]. exists k'. split; [done|].
  assert (k' ≠ k); [|set_solver].
  intros ->. apply Hy'. rewrite Hk, <- Hk'.
  unfold url_keys. apply list_elem_of_fmap. eauto.
Qed.

(** Of two urls in the result, the one listed first has its first
    occurrence in the input before every occurrence of the other. *)
Lemma remove_duplicates_loop_order l seen ys :
  remove_duplicates_loop l seen [] = Ok ys →
  ∀ (i j : nat) y1 y2, (i < j)%nat → ys !! i = Some y1 → ys !! j = Some y2 →
    ∃ (i' : nat) x1, l !! i' = Some x1 ∧ Py.hash (url x1) = Py.hash (url y1) ∧
      ∀ (j' : nat) x2, l !! j' = Some x2 →
        Py.hash (url x2) = Py.hash (url y2) → (i' < j')%nat.
Proof.
  revert seen ys. induction l as [|x l IH]; intros seen ys H i j y1 y2 Hij H1 H2.
  { injection H as <-. by rewrite lookup_nil in H1. }
  assert (Hskip : ∀ seen', remove_duplicates_loop l seen' [] = Ok ys →
            Py.hash (url x) ≠ Py.hash (url y2) →
            ∃ (i' : nat) x1, (x :: l) !! i' = Some x1 ∧
              Py.hash (url x1) = Py.hash (url y1) ∧
              ∀ (j' : nat) x2, (x :: l) !! j' = Some x2 →
                Py.hash (url x2) = Py.hash (url y2) → (i' < j')%nat).
  { intros seen' H' Hne.
    destruct (IH _ _ H' i j y1 y2 Hij H1 H2) as (i' & x1 & Hl & He & Hlt).
    exists (S i'), x1. split; [done|]. split; [done|].
    intros [|j'] x2; simpl; [|intros ? ?; apply -> Nat.succ_lt_mono; eauto].
    intros [= <-] ?. done. }
  assert (Hy2 : ∀ seen', remove_duplicates_loop l seen' [] = Ok ys →
            has_url y2 ∧ ∃ k, Py.hash (url y2) = Ok k ∧ k ∉ seen').
  { intros seen' H'. apply remove_duplicates_loop_kept in H' as [_ Hf].
    rewrite Forall_forall in Hf. apply Hf. eapply list_elem_of_lookup_2, H2. }
  apply remove_duplicates_loop_cons in H
    as [[Hf H]|[(k & _ & Hk & Hs & H)|(k & ys' & Ht & Hk & Hs & H & ->)]].
  - apply (Hskip _ H). destruct (Hy2 _ H) as (Hu & k & Hk & _).
    intros Heq. rewrite Hk in Heq. apply truthy_hash in Heq.
    apply truthy_hash in Hk. unfold has_url in Hu. congruence.
  - apply (Hskip _ H). destruct (Hy2 _ H) as (_ & k' & Hk' & Hn).
    rewrite Hk, Hk'. intros [= ->]. done.
  - destruct j as [|j]; [lia|]. simpl in H2.
    assert (Hne : Py.hash (url x) ≠ Py.hash (url y2)).
    { apply remove_duplicates_loop_kept in H as [_ Hf].
      rewrite Forall_forall in Hf.
      destruct (Hf y2) as (_ & k' & Hk' & Hn);
        [eapply list_elem_of_lookup_2, H2|].
      rewrite Hk, Hk'. intros [= ->]. set_solver. }
    destruct i as [|i]; simpl in H1.
    + injection H1 as <-. exists 0%nat, x. split; [done|]. split; [done|].
      intros [|j'] x2; simpl; [|lia]. intros [= <-] ?. done.
    + destruct (IH _ _ H i j y1 y2) as (i' & x1 & Hl & He & Hlt);
        [lia|done|done|].
      exists (S i'), x1. split; [done|]. split; [done|].
      intros [|j'] x2; simpl; [|intros ? ?; apply -> Nat.succ_lt_mono; eauto].
      intros [= <-] ?. done.
Qed.

(** When the loop raises, and when it does not. *)
Lemma remove_duplicates_loop_raises l seen acc e :
  remove_duplicates_loop l seen acc = Raise e →
  e = TypeError ∧
  ∃ x, x ∈ l ∧ has_url x ∧ Py.hash (url x) = Raise TypeError.
Proof.
  revert seen acc. induction l as [|x l IH]; intros seen acc; simpl; [done|].
  destruct (Py.truthy (url x)) eqn:Ht.
  - destruct (Py.hash (url x)) as [k|e'] eqn:Hh; simpl.
    + case_decide; intros Hr; apply IH in Hr as (-> & y & ? & ? & ?);
        (split; [done|]); exists y; rewrite elem_of_cons; eauto.
    + intros [= ->]. pose proof (hash_raises _ _ Hh) as ->.
      split; [done|]. exists x. rewrite elem_of_cons. eauto.
  - intros Hr; apply IH in Hr as (-> & y & ? & ? & ?).
    split; [done|]. exists y. rewrite elem_of_cons. eauto.
Qed.

Lemma remove_duplicates_returns l :
  Forall (fun x => has_url x → ∃ k, Py.hash (url x) = Ok k) l →
  ∃ ys, _remove_duplicates l = Ok ys.
Proof.
  intros Hf. unfold _remove_duplicates.
  destruct (remove_duplicates_loop l ∅ []) as [ys|e] eqn:E; [by eauto|].
  apply remove_duplicates_loop_raises in E as (_ & x & Hx & Hu & Hr).
  rewrite Forall_forall in Hf. destruct (Hf x Hx Hu) as [k Hk]. congruence.
Qed.

End dedupe.

(** ** Claims about the deduplicator *)

Section dedupe_claims.

Lemma remove_duplicates_loop_spec l seen earlier ys :
  (∀ k, k ∈ seen ↔ ∃ y, y ∈ earlier ∧ has_url y ∧ Py.hash (url y) = Ok k) →
  remove_duplicates_loop l seen [] = Ok ys →
  ys = first_occurrences_from earlier l.
Proof.
  revert seen earlier ys.
  induction l as [|x l IH]; intros seen earlier ys Hseen H.
  { by injection H as <-. }
  assert (Hsame : ∀ k, Py.hash (url x) = Ok k → has_url x →
            (forallb (fun y => negb (same_url y x)) earlier = true ↔ k ∉ seen)).
  { intros k Hk Hu. rewrite forallb_forall, Hseen. split.
    - intros Hall (y & Hy & _ & Hyk). apply list_elem_of_In, Hall in Hy.
      unfold same_url in Hy. rewrite Hk, Hyk in Hy.
      by rewrite bool_decide_eq_true_2 in Hy.
    - intros Hno y Hy. apply negb_true_iff, bool_decide_eq_false.
      intros Heq. apply Hno. exists y. apply list_elem_of_In in Hy.
      split; [done|]. rewrite Hk in Heq. split; [|done].
      unfold has_url in *. apply truthy_hash in Heq, Hk. congruence. }
  apply remove_duplicates_loop_cons in H
    as [[Hf H]|[(k & Ht & Hk & Hs & H)|(k & ys' & Ht & Hk & Hs & H & ->)]];
    simpl.
  - rewrite bool_decide_eq_false_2 by (unfold has_url; congruence). simpl.
    apply (IH seen); [|done]. intros k. rewrite Hseen.
    setoid_rewrite elem_of_app. setoid_rewrite list_elem_of_singleton.
    split; [naive_solver|].
    intros (y & [Hy| ->] & Hu & Hh); [by eauto|].
    unfold has_url in Hu. congruence.
  - rewrite bool_decide_eq_true_2 by done. simpl.
    pose proof (Hsame k Hk Ht) as Hiff.
    destruct (forallb _ earlier); [destruct (proj1 Hiff eq_refl Hs)|].
    apply (IH seen); [|done]. intros k'. rewrite Hseen.
    setoid_rewrite elem_of_app. setoid_rewrite list_elem_of_singleton.
    split; [naive_solver|].
    intros (y & [Hy| ->] & Hu & Hh); [by eauto|].
    apply Hseen. rewrite Hk in Hh. injection Hh as <-. done.
  - rewrite bool_decide_eq_true_2 by done. simpl.
    rewrite (proj2 (Hsame k Hk Ht) Hs). f_equal.
    apply (IH ({[k]} ∪ seen)); [|done]. intros k'.
    rewrite elem_of_union, elem_of_singleton, Hseen.
    setoid_rewrite elem_of_app. setoid_rewrite list_elem_of_singleton.
    split.
    + intros [->|(y & ? & ? & ?)]; [exists x|exists y]; naive_solver.
    + intros (y & [Hy| ->] & Hu & Hh); [right; by eauto|].
      left. congruence.
Qed.

(** C2, as the code has it: an item whose url is missing or empty is
    dropped, and an item with a url is kept exactly when no earlier item of
    the input carries the same url.  (The urls must be hashable, as strings
    and numbers are; otherwise the set lookup raises.) *)
Theorem remove_duplicates_keeps_first_occurrences (xs : list media_data) :
  Forall (fun x => has_url x → hashable_url x) xs →
  _remove_duplicates xs = Ok (first_occurrences xs)
  ∧ Forall has_url (first_occurrences xs).
Proof.
  intros Hh. destruct (remove_duplicates_returns xs Hh) as [ys Hys].
  assert (ys = first_occurrences xs) as <-.
  { eapply remove_duplicates_loop_spec; [|exact Hys]. set_solver. }
  split; [done|].
  apply remove_duplicates_loop_kept in Hys as [_ Hf].
  eapply Forall_impl; [exact Hf|]. by intros y [? _].
Qed.

Lemma remove_duplicates_keeps_first_occurrences_witness :
  _remove_duplicates
    [Sample.item_a; Sample.item_without_url; Sample.item_b;
     Sample.item_a_again]
  = Ok [Sample.item_a; Sample.item_b].
Proof.
  refine (proj1 (remove_duplicates_keeps_first_occurrences
    [Sample.item_a; Sample.item_without_url; Sample.item_b;
     Sample.item_a_again] _)).
  repeat constructor; intros _; eexists; reflexivity.
Defined.

(** C2 as stated fails: an item without a url is not kept. *)
Lemma remove_duplicates_drops_item_without_url :
  url Sample.item_without_url = JNull
  ∧ Sample.item_without_url ∈ [Sample.item_a; Sample.item_without_url]
  ∧ _remove_duplicates [Sample.item_a; Sample.item_without_url]
    = Ok [Sample.item_a]
  ∧ Sample.item_without_url ∉ [Sample.item_a].
Proof.
  split; [reflexivity|]. split; [set_solver|]. split; [reflexivity|].
  intros H. apply list_elem_of_singleton in H. discriminate H.
Qed.

(** C9: a second pass of the deduplicator changes nothing, and the result
    lists each url of the input once, in the order in which the urls first
    occur in the input. *)
Theorem remove_duplicates_idempotent_order_preserving (xs : list media_data) :
  (_remove_duplicates xs ≫= _remove_duplicates) = _remove_duplicates xs
  ∧ ∀ ys, _remove_duplicates xs = Ok ys →
      sublist ys xs
      ∧ NoDup (url_keys ys)
      ∧ (∀ x, x ∈ xs → has_url x → Py.hash (url x) ∈ url_keys ys)
      ∧ (∀ (i j : nat) y1 y2,
           (i < j)%nat → ys !! i = Some y1 → ys !! j = Some y2 →
           ∃ (i' : nat) x1, xs !! i' = Some x1
             ∧ Py.hash (url x1) = Py.hash (url y1)
             ∧ ∀ (j' : nat) x2, xs !! j' = Some x2 →
                 Py.hash (url x2) = Py.hash (url y2) → (i' < j')%nat).
Proof.
  split.
  - destruct (_remove_duplicates xs) as [ys|e] eqn:E; [|done].
    change (_remove_duplicates ys = Ok ys).
    pose proof (remove_duplicates_loop_kept _ _ _ E) as [_ Hf].
    by apply remove_duplicates_loop_fixed;
      [|eapply remove_duplicates_loop_nodup].
  - intros ys E.
    pose proof (remove_duplicates_loop_kept _ _ _ E) as [Hs Hf].
    split; [done|]. split; [by eapply remove_duplicates_loop_nodup|].
    split; [|by eapply remove_duplicates_loop_order].
    intros x Hx Hu.
    destruct (Py.hash (url x)) as [k|e] eqn:Hk.
    + eapply remove_duplicates_loop_covers; [exact E|exact Hx|done|done|].
      set_solver.
    + exfalso. clear Hs Hf. revert E. unfold _remove_duplicates.
      generalize (∅ : gset Py.key). generalize (@nil media_data) as acc.
      induction xs as [|z xs IH]; intros acc seen; [by apply elem_of_nil in Hx|].
      apply elem_of_cons in Hx as [<-|Hx]; simpl.
      * unfold has_url in Hu. rewrite Hu, Hk. done.
      * destruct (Py.truthy (url z)); [|by eauto].
        destruct (Py.hash (url z)); simpl; [|done].
        case_decide; by eauto.
Qed.

Lemma remove_duplicates_idempotent_order_preserving_witness :
  sublist [Sample.item_a; Sample.item_b]
    [Sample.item_a; Sample.item_without_url; Sample.item_b;
     Sample.item_a_again]
  ∧ NoDup (url_keys [Sample.item_a; Sample.item_b]).
Proof.
  pose proof (proj2 (remove_duplicates_idempotent_order_preserving
    [Sample.item_a; Sample.item_without_url; Sample.item_b;
     Sample.item_a_again]) [Sample.item_a; Sample.item_b] eq_refl)
    as (Hs & Hn & _).
  exact (conj Hs Hn).
Defined.

End dedupe_claims.

(** ** The quality selector *)

Section selector.

Implicit Types (renditions : list rendition) (type_id : Z).

Lemma next_of_type_find type_id renditions :
  next_of_type type_id (map JObj renditions)
  = Ok (default JNull (find (has_type_code type_id) (map JObj renditions))).
Proof.
  induction renditions as [|r rs IH]; [done|].
  simpl. unfold has_type_code. simpl.
  by destruct (Py.eq_int _ type_id).
Qed.

Lemma find_has_type_truthy type_id renditions v :
  find (has_type_code type_id) (map JObj renditions) = Some v →
  Py.truthy v = true.
Proof.
  intros H. apply find_some in H as [Hin Ht].
  apply in_map_iff in Hin as ([|kv r] & <- & _); [|done].
  unfold has_type_code in Ht. simpl in Ht. by destruct type_id.
Qed.

Lemma find_existsb {A : Type} (p : A → bool) (l : list A) :
  existsb p l = bool_decide (is_Some (find p l)).
Proof.
  induction l as [|a l IH]; simpl; [done|].
  by destruct (p a).
Qed.

Lemma scan_priority_find type_ids renditions :
  scan_priority type_ids (map JObj renditions)
  = Ok (match earliest_present type_ids (map JObj renditions) with
        | Some type_id =>
            default JNull (find (has_type_code type_id) (map JObj renditions))
        | None => JNull
        end).
Proof.
  unfold earliest_present.
  induction type_ids as [|t ts IH]; [done|].
  simpl. rewrite next_of_type_find. simpl. rewrite find_existsb.
  destruct (find (has_type_code t) _) as [v|] eqn:Hf; simpl.
  - by rewrite (find_has_type_truthy _ _ _ Hf), Hf.
  - exact IH.
Qed.

(** C4: on a sequence of rendition records the selector fails on no
    input; it returns the first rendition carrying the earliest type code
    of the preference's priority list that is present, else the first
    rendition, else [None]; and a preference other than the three named
    ones selects as ['highest'] does, by the order 103, 102, 101. *)
Theorem select_best_video_quality_preferred renditions (preference : string) :
  select_best_video_quality (renditions_value renditions) preference
  = Ok (preferred_rendition (priority preference) (map JObj renditions))
  ∧ select_best_video_quality (renditions_value []) preference = Ok JNull
  ∧ priority "highest" = [103; 102; 101]
  ∧ (preference ≠ "highest" → preference ≠ "medium" →
     preference ≠ "lowest" →
     priority preference = [103; 102; 101]
     ∧ select_best_video_quality (renditions_value renditions) preference
       = select_best_video_quality (renditions_value renditions) "highest").
Proof.
  assert (Hsel : ∀ pref,
    select_best_video_quality (renditions_value renditions) pref
    = Ok (preferred_rendition (priority pref) (map JObj renditions))).
  { clear preference. intros pref. unfold select_best_video_quality, renditions_value.
    simpl. rewrite scan_priority_find. simpl. unfold preferred_rendition.
    destruct (earliest_present _ _) as [t|] eqn:He.
    - apply find_some in He as [_ He]. rewrite find_existsb in He.
      apply bool_decide_eq_true in He as [v Hv]. rewrite Hv. simpl.
      by rewrite (find_has_type_truthy _ _ _ Hv).
    - simpl. by destruct renditions. }
  split; [apply Hsel|]. split.
  { unfold select_best_video_quality, priority. simpl.
    by repeat destruct (String.eqb preference _). }
  split; [done|]. intros H1 H2 H3.
  assert (Hp : priority preference = [103; 102; 101]).
  { unfold priority.
    rewrite (proj2 (String.eqb_neq _ _) H1), (proj2 (String.eqb_neq _ _) H2),
      (proj2 (String.eqb_neq _ _) H3). done. }
  split; [done|]. rewrite !Hsel, Hp. done.
Qed.

End selector.

(** A preference that is not in the table selects as ['highest'] does. *)
Lemma select_best_video_quality_preferred_witness :
  select_best_video_quality
    (renditions_value [[("type", JNum 101); ("url", JStr "lo")];
                       [("type", JNum 102); ("url", JStr "mid")]]) "best"
  = select_best_video_quality
      (renditions_value [[("type", JNum 101); ("url", JStr "lo")];
                         [("type", JNum 102); ("url", JStr "mid")]]) "highest".
Proof.
  refine (proj2 (proj2 (proj2 (proj2 (select_best_video_quality_preferred
    [[("type", JNum 101); ("url", JStr "lo")];
     [("type", JNum 102); ("url", JStr "mid")]] "best"))) _ _ _));
    discriminate.
Defined.

Example select_medium :
  select_best_video_quality
    (renditions_value [[("type", JNum 101); ("url", JStr "lo")];
                       [("type", JNum 103); ("url", JStr "hi")];
                       [("type", JNum 103); ("url", JStr "hi2")]]) "medium"
  = Ok (JObj [("type", JNum 103); ("url", JStr "hi")]).
Proof. reflexivity. Qed.

(** ** The paginator *)

Section paginator.

Variable remote : script.
Variable max_pages : Z.

Implicit Types (st : fetch_state) (pages : list (list json * json)).

Lemma page_body_good o st edges has_next_page end_cursor :
  good_page o edges has_next_page end_cursor → edges ≠ [] →
  page_body o st
  = ({| all_posts := all_posts st ++ edges;
        after_cursor := end_cursor;
        page := page st;
        requests := requests st |},
     Ok (if negb (Py.truthy has_next_page) || negb (Py.truthy end_cursor)
         then Break else Next)).
Proof.
  intros (data & tl & -> & Ht & He & Hp) Hne.
  unfold page_body. simpl. rewrite Ht. simpl. rewrite He. simpl.
  destruct edges as [|e edges]; [done|]. rewrite Hp. simpl.
  by destruct (negb (Py.truthy has_next_page) || negb (Py.truthy end_cursor)).
Qed.

Lemma page_body_no_edges o st has_next_page end_cursor :
  good_page o [] has_next_page end_cursor → page_body o st = (st, Ok Break).
Proof.
  intros (data & tl & -> & Ht & He & Hp).
  unfold page_body. simpl. rewrite Ht. simpl. rewrite He. done.
Qed.

(** The flow of an iteration and the posts it adds do not depend on the
    state it starts in. *)
Lemma page_body_state o st :
  (page_body o st).2 = (page_body o fetch_start).2
  ∧ all_posts (page_body o st).1 = all_posts st ++ appended_by o
  ∧ requests (page_body o st).1 = requests st
  ∧ page (page_body o st).1 = page st.
Proof.
  unfold appended_by, page_body. destruct o as [|s [data|]]; simpl;
    [by rewrite app_nil_r| |destruct (s =? 200); simpl; by rewrite app_nil_r].
  destruct (s =? 200); simpl; [|by rewrite app_nil_r].
  destruct (timeline_of data) as [tl|]; simpl; [|by rewrite app_nil_r].
  destruct (Py.get tl "edges" (JList [])) as [edges|]; simpl;
    [|by rewrite app_nil_r].
  destruct (Py.truthy edges); [|by rewrite app_nil_r].
  destruct (Py.iter edges) as [new_posts|]; simpl; [|by rewrite app_nil_r].
  destruct (page_info_of tl) as [[h c]|]; simpl; [|done].
  by destruct (negb (Py.truthy h) || negb (Py.truthy c)).
Qed.

(** One iteration that goes on to the next page. *)
Lemma fetch_loop_more fuel st edges end_cursor :
  more_page (remote (length (requests st))) edges end_cursor →
  page st ≤ max_pages →
  fetch_loop (S fuel) remote max_pages st
  = fetch_loop fuel remote max_pages (advance st (edges, end_cursor)).
Proof.
  intros (h & Hg & Hne & Hh & Hc) Hp. simpl.
  rewrite (proj2 (Z.leb_le _ _) Hp).
  rewrite (page_body_good _ _ _ _ _ Hg Hne). by rewrite Hh, Hc.
Qed.

(** An iteration that ends the loop: it leaves with the request logged and
    with whatever the body appended. *)
Lemma fetch_loop_last fuel st :
  page st ≤ max_pages →
  (page_body (remote (length (requests st))) fetch_start).2 ≠ Ok Next →
  ∃ st', fetch_loop (S fuel) remote max_pages st = Some st'
    ∧ all_posts st' = all_posts st
                      ++ appended_by (remote (length (requests st)))
    ∧ requests st' = requests st ++ [after_cursor st].
Proof.
  intros Hp Hflow. simpl. rewrite (proj2 (Z.leb_le _ _) Hp).
  set (sent := {| all_posts := all_posts st; after_cursor := after_cursor st;
                  page := page st;
                  requests := requests st ++ [after_cursor st] |}).
  destruct (page_body_state (remote (length (requests st))) sent)
    as (Hf & Ha & Hr & _).
  destruct (page_body _ sent) as [st' r]. simpl in *.
  rewrite <- Hf in Hflow.
  exists st'. split; [|done].
  destruct r as [[]|]; done.
Qed.

(** Several pages in a row that each let the loop go on. *)
Lemma fetch_loop_pages pages fuel st :
  (∀ (i : nat) p, pages !! i = Some p →
     more_page (remote (length (requests st) + i)%nat) p.1 p.2) →
  page st + Z.of_nat (length pages) - 1 ≤ max_pages →
  fetch_loop (length pages + fuel)%nat remote max_pages st
  = fetch_loop fuel remote max_pages (foldl advance st pages).
Proof.
  revert st. induction pages as [|[e c] pages IH]; intros st Hpages Hp; [done|].
  simpl length in *. rewrite Nat.add_succ_l.
  rewrite (fetch_loop_more _ _ e c); [|..].
  - simpl. apply IH.
    + intros i p Hi. simpl. rewrite length_app. simpl.
      replace (length (requests st) + 1 + i)%nat
        with (length (requests st) + S i)%nat by lia.
      by apply Hpages.
    + simpl. lia.
  - specialize (Hpages 0%nat (e, c) eq_refl).
    by rewrite Nat.add_0_r in Hpages.
  - lia.
Qed.

Lemma foldl_advance pages st :
  all_posts (foldl advance st pages)
    = all_posts st ++ concat (map fst pages)
  ∧ requests (foldl advance st pages)
    = requests st ++ cursors_sent (after_cursor st) pages
  ∧ page (foldl advance st pages) = page st + Z.of_nat (length pages).
Proof.
  revert st. induction pages as [|p pages IH]; intros st.
  - simpl. rewrite !app_nil_r. repeat split; lia.
  - simpl foldl. destruct (IH (advance st p)) as (Ha & Hr & Hp).
    rewrite Ha, Hr, Hp. simpl. rewrite <- !app_assoc. simpl.
    repeat split; lia.
Qed.

Lemma length_cursors_sent c pages :
  length (cursors_sent c pages) = length pages.
Proof. revert c. induction pages; intros c; simpl; by f_equal. Qed.

End paginator.

Section paginator_claims.

Variable remote : script.
Variable max_pages : Z.

(** The loop always ends: the fuel [fetch_user_posts_run] hands to it is
    never used up, so [fetch_user_posts] returns on every input. *)
Lemma fetch_loop_returns fuel st :
  (Z.to_nat (max_pages - page st + 1) < fuel)%nat →
  ∃ st', fetch_loop fuel remote max_pages st = Some st'.
Proof.
  revert st. induction fuel as [|fuel IH]; intros st Hfuel; [lia|].
  simpl. destruct (page st <=? max_pages) eqn:Hp; [|by eauto].
  apply Z.leb_le in Hp.
  match goal with |- context [page_body ?o ?s] =>
    pose proof (page_body_state o s) as (_ & _ & _ & Hpage);
    destruct (page_body o s) as [st' r] end.
  simpl in Hpage. destruct r as [[]|]; [by eauto| |by eauto].
  apply IH. simpl. lia.
Qed.

Lemma fetch_user_posts_returns :
  ∃ posts, fetch_user_posts remote max_pages = Some posts.
Proof.
  unfold fetch_user_posts, fetch_user_posts_run.
  destruct (fetch_loop_returns (Z.to_nat max_pages + 1) fetch_start)
    as [st ->]; [simpl; lia|].
  by eauto.
Qed.

(** C5: when the first page lets the loop go on and the second page reports
    no next page (or no end cursor), the posts returned are the edges of
    pages 1 and 2 in order and exactly two requests were sent, the second
    with the first page's cursor.  And whenever an iteration goes on to the
    next page, the response had status 200, edges, a true [has_next_page]
    and an [end_cursor] that is not [None]. *)
Theorem fetch_user_posts_halts_on_last_page
    (edges1 edges2 : list json) (cursor1 has_next2 cursor2 : json) :
  2 ≤ max_pages →
  more_page (remote 0%nat) edges1 cursor1 →
  good_page (remote 1%nat) edges2 has_next2 cursor2 →
  Py.truthy has_next2 = false ∨ Py.truthy cursor2 = false →
  fetch_user_posts remote max_pages = Some (edges1 ++ edges2)
  ∧ (∃ st, fetch_user_posts_run remote max_pages = Some st
           ∧ requests st = [JNull; cursor1])
  ∧ (∀ o st st', page_body o st = (st', Ok Next) →
       ∃ data timeline_data edges has_next_page end_cursor,
         o = Response 200 (Some data)
         ∧ timeline_of data = Ok timeline_data
         ∧ Py.get timeline_data "edges" (JList []) = Ok edges
         ∧ Py.truthy edges = true
         ∧ page_info_of timeline_data = Ok (has_next_page, end_cursor)
         ∧ Py.truthy has_next_page = true
         ∧ Py.truthy end_cursor = true
         ∧ end_cursor ≠ JNull).
Proof.
  intros Hmax H1 H2 Hlast.
  assert (Hrun : ∃ st, fetch_user_posts_run remote max_pages = Some st
                  ∧ all_posts st = edges1 ++ edges2
                  ∧ requests st = [JNull; cursor1]).
  { unfold fetch_user_posts_run.
    replace (Z.to_nat max_pages + 1)%nat
      with (S (S (Z.to_nat max_pages - 1))) by lia.
    rewrite (fetch_loop_more _ _ _ _ edges1 cursor1); [|done|simpl; lia].
    cbn [fetch_loop advance fetch_start all_posts after_cursor page requests
         fst snd app length].
    rewrite (proj2 (Z.leb_le _ _)) by lia.
    destruct edges2 as [|e edges2].
    - rewrite (page_body_no_edges _ _ _ _ H2). eexists. split; [done|].
      simpl. by rewrite app_nil_r.
    - rewrite (page_body_good _ _ _ _ _ H2) by done.
      assert (negb (Py.truthy has_next2) || negb (Py.truthy cursor2) = true)
        as -> by (destruct Hlast as [-> | ->]; simpl; [done|apply orb_true_r]).
      eexists. split; [done|]. done. }
  destruct Hrun as (st & Hst & Ha & Hr).
  split; [unfold fetch_user_posts; by rewrite Hst, <- Ha|].
  split; [by eauto|].
  intros o st0 st' Hbody. unfold page_body in Hbody.
  destruct o as [|s [data|]]; [done| |by destruct (s =? 200)].
  destruct (s =? 200) eqn:Hs; [|done]. apply Z.eqb_eq in Hs as ->.
  destruct (timeline_of data) as [tl|] eqn:Ht; simpl in Hbody; [|done].
  destruct (Py.get tl "edges" (JList [])) as [edges|] eqn:He;
    simpl in Hbody; [|done].
  destruct (Py.truthy edges) eqn:Hte; [|done].
  destruct (Py.iter edges) as [new_posts|]; [|done].
  destruct (page_info_of tl) as [[h c]|] eqn:Hpi; [|done].
  destruct (Py.truthy h) eqn:Hh; [|done].
  destruct (Py.truthy c) eqn:Hc; [|done].
  exists data, tl, edges, h, c. repeat split; try done.
  by intros ->.
Qed.

(** C6: when every page has edges, reports a next page and carries an end
    cursor, a run with [max_pages = n], [n >= 1], sends exactly [n] requests
    and then stops at the page limit, returning the edges of the [n]
    pages. *)
Theorem fetch_user_posts_respects_max_pages
    (edges_of : nat → list json) (cursor_of : nat → json) :
  1 ≤ max_pages →
  (∀ i : nat, more_page (remote i) (edges_of i) (cursor_of i)) →
  ∃ st, fetch_user_posts_run remote max_pages = Some st
    ∧ length (requests st) = Z.to_nat max_pages
    ∧ page st = max_pages + 1
    ∧ all_posts st = concat (map edges_of (seq 0 (Z.to_nat max_pages)))
    ∧ fetch_user_posts remote max_pages = Some (all_posts st).
Proof.
  intros Hn Hmore.
  set (n := Z.to_nat max_pages).
  set (pages := map (fun i => (edges_of i, cursor_of i)) (seq 0 n)).
  assert (Hlen : length pages = n).
  { unfold pages. by rewrite length_map, length_seq. }
  assert (Hrun : fetch_user_posts_run remote max_pages
                 = Some (foldl advance fetch_start pages)).
  { unfold fetch_user_posts_run. fold n. rewrite <- Hlen.
    rewrite fetch_loop_pages.
    - simpl. destruct (foldl_advance pages fetch_start) as (_ & _ & Hp).
      rewrite Hp, Hlen. simpl.
      by rewrite (proj2 (Z.leb_gt _ _)) by lia.
    - intros i p Hi. unfold pages in Hi.
      rewrite list_lookup_fmap in Hi.
      destruct (seq 0 n !! i) as [j|] eqn:Hj; [|done].
      apply lookup_seq in Hj as [-> _]. injection Hi as <-. apply Hmore.
    - simpl. lia. }
  exists (foldl advance fetch_start pages). split; [done|].
  destruct (foldl_advance pages fetch_start) as (Ha & Hr & Hp).
  rewrite Hr, Hp, Ha. simpl. rewrite length_cursors_sent, Hlen.
  split; [done|]. split; [lia|]. split.
  - unfold pages. by rewrite map_map.
  - unfold fetch_user_posts. rewrite Hrun. simpl. by rewrite Ha.
Qed.






End paginator_claims.

Lemma sample_page_more (edges : list json) (cursor : string) :
  edges ≠ [] → cursor ≠ "" →
  more_page
    (Response 200
       (Some (SamplePage.envelope (JList edges)
                (SamplePage.page_info (JBool true) (JStr cursor)))))
    edges (JStr cursor).
Proof.
  intros He Hc. exists (JBool true). split; [|split; [done|split; [done|]]].
  - eexists _, _. repeat split; reflexivity.
  - simpl. by rewrite (proj2 (String.eqb_neq _ _) Hc).
Qed.

Lemma fetch_user_posts_halts_on_last_page_witness :
  fetch_user_posts SamplePage.two_pages 5
  = Some [SamplePage.edge "p1"; SamplePage.edge "p2"; SamplePage.edge "p3"].
Proof.
  refine (proj1 (fetch_user_posts_halts_on_last_page SamplePage.two_pages 5
    [SamplePage.edge "p1"; SamplePage.edge "p2"] [SamplePage.edge "p3"]
    (JStr "cursor-1") (JBool false) JNull _ _ _ _)).
  - lia.
  - by apply sample_page_more.
  - eexists _, _. repeat split; reflexivity.
  - by left.
Defined.

(** [fetchAll(maxPages=3)] sends exactly three requests. *)
Lemma fetch_user_posts_respects_max_pages_witness :
  ∃ st, fetch_user_posts_run SamplePage.endless 3 = Some st
    ∧ length (requests st) = 3%nat.
Proof.
  destruct (fetch_user_posts_respects_max_pages SamplePage.endless 3
    (fun i => [SamplePage.edge (Py.str i)]) (fun _ => JStr "next"))
    as (st & Hst & Hlen & _).
  - lia.
  - intros i. by apply sample_page_more.
  - exists st. split; [exact Hst|exact Hlen].
Defined.



(** ** The classifier and the orchestrator *)

Section orchestrator.

Implicit Types (st : media_lists) (settings : video_settings).

Ltac unfold_binds H :=
  unfold mbind, result_bind in H; simpl in H.

Ltac split_binds H :=
  unfold_binds H;
  repeat (case_match; try discriminate H; simpl in H).

Lemma extract_image_data_fields node p m d :
  _extract_image_data node p m = Ok (Some d) →
  type d = Image ∧ post_index d = p ∧ media_index d = m.
Proof.
  unfold _extract_image_data, image_candidates. intros H. split_binds H;
    by injection H as <-.
Qed.

Lemma extract_video_data_fields node p settings m d :
  _extract_video_data node p settings m = Ok (Some d) →
  type d = Video ∧ post_index d = p ∧ media_index d = m.
Proof.
  unfold _extract_video_data, image_candidates. intros H. split_binds H;
    by injection H as <-.
Qed.

(** The two branches of [collect], spelled out. *)
Lemma collect_image node p m settings st :
  collect Image node p m settings st
  = match _extract_image_data node p m with
    | Ok (Some d) =>
        ({| images := images st ++ [d]; videos := videos st |}, Ok ())
    | Ok None => (st, Ok ())
    | Raise e => (st, Raise e)
    end.
Proof.
  unfold collect, mbind, try_bind, lift.
  by destruct (_extract_image_data node p m) as [[d|]|].
Qed.

Lemma collect_video node p m settings st :
  collect Video node p m settings st
  = if download_videos settings then
      match _extract_video_data node p settings m with
      | Ok (Some d) =>
          ({| images := images st; videos := videos st ++ [d] |}, Ok ())
      | Ok None => (st, Ok ())
      | Raise e => (st, Raise e)
      end
    else (st, Ok ()).
Proof.
  unfold collect, mbind, try_bind, lift.
  destruct (download_videos settings); [|done].
  by destruct (_extract_video_data node p settings m) as [[d|]|].
Qed.

(** What one [collect] appends: at most one descriptor, of the kind asked
    for, carrying the indices it was given; nothing when it raises. *)
Lemma appended_refl st : appended st st [] [].
Proof. unfold appended. by rewrite !app_nil_r. Qed.

(** What one [collect] appends: at most one descriptor, carrying the
    indices it was given; nothing when it raises. *)
Lemma collect_appended kind node p m settings st :
  ∃ new_images new_videos,
    appended st (collect kind node p m settings st).1 new_images new_videos
    ∧ Forall (fun d => post_index d = p ∧ media_index d = m)
        (new_images ++ new_videos)
    ∧ (length new_images + length new_videos ≤ 1)%nat
    ∧ (∀ e, (collect kind node p m settings st).2 = Raise e →
         new_images = [] ∧ new_videos = []).
Proof.
  assert (Hnone : ∀ r : result unit,
    ∃ new_images new_videos,
      appended st (st, r).1 new_images new_videos
      ∧ Forall (fun d => post_index d = p ∧ media_index d = m)
          (new_images ++ new_videos)
      ∧ (length new_images + length new_videos ≤ 1)%nat
      ∧ (∀ e, (st, r).2 = Raise e → new_images = [] ∧ new_videos = [])).
  { intros r. exists [], []. split; [apply appended_refl|].
    split; [constructor|]. split; [simpl; lia|done]. }
  destruct kind; [| |apply Hnone..].
  - rewrite collect_image.
    destruct (_extract_image_data node p m) as [[d|]|] eqn:E;
      [|apply Hnone..].
    exists [d], []. apply extract_image_data_fields in E as (_ & ? & ?).
    split; [split; simpl; by rewrite ?app_nil_r|].
    split; [by repeat constructor|]. split; [simpl; lia|done].
  - rewrite collect_video. destruct (download_videos settings);
      [|apply Hnone].
    destruct (_extract_video_data node p settings m) as [[d|]|] eqn:E;
      [|apply Hnone..].
    exists [], [d]. apply extract_video_data_fields in E as (_ & ? & ?).
    split; [split; simpl; by rewrite ?app_nil_r|].
    split; [by repeat constructor|]. split; [simpl; lia|done].
Qed.

Lemma appended_trans st1 st2 st3 i1 v1 i2 v2 :
  appended st1 st2 i1 v1 → appended st2 st3 i2 v2 →
  appended st1 st3 (i1 ++ i2) (v1 ++ v2).
Proof.
  intros [Hi1 Hv1] [Hi2 Hv2]. unfold appended.
  by rewrite Hi2, Hv2, Hi1, Hv1, <- !app_assoc.
Qed.

(** What the carousel loop appends: at most one descriptor per child, each
    with the post's index. *)
Lemma carousel_loop_appended children m p settings st :
  ∃ new_images new_videos,
    appended st (carousel_loop children m p settings st).1
      new_images new_videos
    ∧ Forall (fun d => post_index d = p) (new_images ++ new_videos)
    ∧ (length new_images + length new_videos ≤ length children)%nat.
Proof.
  revert m st. induction children as [|c cs IH]; intros m st.
  { exists [], []. split; [apply appended_refl|]. split; [constructor|done]. }
  simpl. unfold mbind at 1, try_bind at 1, lift at 1.
  destruct (detect_media_type c) as [kind|e].
  2:{ exists [], []. split; [apply appended_refl|].
      split; [constructor|simpl; lia]. }
  unfold mbind, try_bind.
  destruct (collect_appended kind c p m settings st)
    as (i1 & v1 & Ha & Hf & Hl & _).
  destruct (collect kind c p m settings st) as [st1 [[]|e]]; simpl in *.
  - destruct (IH (m + 1)%nat st1) as (i2 & v2 & Ha2 & Hf2 & Hl2).
    exists (i1 ++ i2), (v1 ++ v2).
    split; [by eapply appended_trans|]. split.
    + apply Forall_app in Hf as [Hfi Hfv]. apply Forall_app in Hf2 as [? ?].
      repeat (apply Forall_app; split); try done;
        (eapply Forall_impl; [eassumption|]); by intros ? [? _].
    + rewrite !length_app. lia.
  - exists i1, v1. split; [done|]. split; [|lia].
    eapply Forall_impl; [exact Hf|]. by intros ? [? _].
Qed.

(** The body of the [try] block by the kind of the post. *)
Lemma process_post_classified post p settings st :
  process_post post p settings st
  = match classified post with
    | Raise e => (st, Raise e)
    | Ok (node, Carousel) =>
        match Py.get node "carousel_media" (JList []) ≫= Py.iter with
        | Ok children => carousel_loop children 1 p settings st
        | Raise e => (st, Raise e)
        end
    | Ok (node, kind) => collect kind node p 1 settings st
    end.
Proof.
  unfold process_post, classified, mbind, try_bind, result_bind, lift.
  destruct (Py.get post "node" (JObj [])) as [node|]; [|done].
  destruct (detect_media_type node) as [[]|]; try done.
  destruct (Py.get node "carousel_media" (JList [])) as [cm|]; [|done].
  by destruct (Py.iter cm).
Qed.

Lemma process_post_appended post p settings st :
  ∃ new_images new_videos,
    appended st (process_post post p settings st).1 new_images new_videos
    ∧ Forall (fun d => post_index d = p) (new_images ++ new_videos)
    ∧ (length new_images + length new_videos ≤ media_count post)%nat.
Proof.
  rewrite process_post_classified. unfold media_count, carousel_children.
  assert (Hnone : ∀ (r : result unit) (n : nat),
    ∃ new_images new_videos,
      appended st (st, r).1 new_images new_videos
      ∧ Forall (fun d => post_index d = p) (new_images ++ new_videos)
      ∧ (length new_images + length new_videos ≤ n)%nat).
  { intros r n. exists [], []. split; [apply appended_refl|].
    split; [constructor|simpl; lia]. }
  assert (Hone : ∀ kind node,
    ∃ new_images new_videos,
      appended st (collect kind node p 1 settings st).1 new_images new_videos
      ∧ Forall (fun d => post_index d = p) (new_images ++ new_videos)
      ∧ (length new_images + length new_videos ≤ 1)%nat).
  { intros kind node.
    destruct (collect_appended kind node p 1%nat settings st)
      as (ni & nv & Ha & Hf & Hl & _).
    exists ni, nv. split; [done|]. split; [|done].
    eapply Forall_impl; [exact Hf|]. by intros ? [? _]. }
  destruct (classified post) as [[node []]|]; [apply Hone..| |apply Hone|
                                                apply Hnone].
  destruct (Py.get node "carousel_media" (JList []) ≫= Py.iter)
    as [children|]; [|apply Hnone].
  apply carousel_loop_appended.
Qed.

(** The loop over the posts goes on after every post, with the next
    index. *)
Lemma posts_loop_cons post rest p settings st :
  posts_loop (post :: rest) p settings st
  = posts_loop rest (p + 1) settings (process_post post p settings st).1.
Proof. simpl. by destruct (process_post post p settings st) as [st' []]. Qed.

Lemma posts_loop_app pre rest p settings st :
  posts_loop (pre ++ rest) p settings st
  = posts_loop rest (posts_loop pre p settings st).2 settings
      (posts_loop pre p settings st).1.
Proof.
  revert p st. induction pre as [|post pre IH]; intros p st; [done|].
  rewrite <- app_comm_cons, !posts_loop_cons. apply IH.
Qed.

Lemma posts_loop_index posts p settings st :
  (posts_loop posts p settings st).2 = (p + length posts)%nat.
Proof.
  revert p st. induction posts as [|post posts IH]; intros p st.
  - simpl. lia.
  - rewrite posts_loop_cons, IH. simpl. lia.
Qed.

Lemma posts_loop_appended posts p settings st :
  ∃ new_images new_videos,
    appended st (posts_loop posts p settings st).1 new_images new_videos
    ∧ Forall (fun d => (p ≤ post_index d < p + length posts)%nat)
        (new_images ++ new_videos)
    ∧ (length new_images + length new_videos
       ≤ expanded_media_count posts)%nat.
Proof.
  revert p st. induction posts as [|post posts IH]; intros p st.
  { exists [], []. split; [apply appended_refl|]. split; [constructor|done]. }
  rewrite posts_loop_cons.
  destruct (process_post_appended post p settings st)
    as (i1 & v1 & Ha1 & Hf1 & Hl1).
  destruct (IH (p + 1)%nat (process_post post p settings st).1)
    as (i2 & v2 & Ha2 & Hf2 & Hl2).
  exists (i1 ++ i2), (v1 ++ v2). split; [by eapply appended_trans|]. split.
  - apply Forall_app in Hf1 as [? ?]. apply Forall_app in Hf2 as [? ?].
    repeat (apply Forall_app; split);
      (eapply Forall_impl; [eassumption|]); simpl; intros; lia.
  - unfold expanded_media_count in *. simpl. rewrite !length_app. lia.
Qed.

(** C10: a node without a [media_type] field is classified as an image,
    not as unknown, and the orchestrator runs the image extraction on it:
    the post's body is the image branch, which appends the descriptor
    [_extract_image_data] returns, if any. *)
Theorem detect_media_type_defaults_to_image (fields : list (string * json)) :
  Py.assoc "media_type" fields = None →
  detect_media_type (JObj fields) = Ok Image
  ∧ detect_media_type (JObj fields) ≠ Ok Unknown
  ∧ ∀ post p settings st,
      Py.get post "node" (JObj []) = Ok (JObj fields) →
      process_post post p settings st
      = match _extract_image_data (JObj fields) p 1 with
        | Ok (Some d) =>
            ({| images := images st ++ [d]; videos := videos st |}, Ok ())
        | Ok None => (st, Ok ())
        | Raise e => (st, Raise e)
        end.
Proof.
  intros Hnone.
  assert (Hd : detect_media_type (JObj fields) = Ok Image).
  { unfold detect_media_type. simpl. by rewrite Hnone. }
  split; [done|]. split; [by rewrite Hd|].
  intros post p settings st Hnode.
  rewrite process_post_classified. unfold classified.
  rewrite Hnode. simpl. rewrite Hd. simpl.
  exact (collect_image _ _ _ settings _).
Qed.

(** C3: every descriptor of a returned manifest has a non-empty url, and
    neither list (nor both together) is longer than the carousel-expanded
    media count of the posts. *)
Theorem extract_media_urls_and_lengths (posts : list json) settings m :
  extract_media_from_posts posts settings = Ok m →
  Forall has_url (images m)
  ∧ Forall has_url (videos m)
  ∧ (length (images m) ≤ expanded_media_count posts)%nat
  ∧ (length (videos m) ≤ expanded_media_count posts)%nat
  ∧ (length (images m) + length (videos m)
     ≤ expanded_media_count posts)%nat.
Proof.
  unfold extract_media_from_posts.
  destruct (posts_loop_appended posts 1%nat settings no_media)
    as (ni & nv & [Hi Hv] & _ & Hl).
  change {| images := []; videos := [] |} with no_media.
  rewrite Hi, Hv. simpl.
  destruct (_remove_duplicates ni) as [ui|] eqn:Ei; simpl; [|done].
  destruct (_remove_duplicates nv) as [uv|] eqn:Ev; simpl; [|done].
  intros [= <-]. simpl.
  apply remove_duplicates_loop_kept in Ei as [Hsi Hfi].
  apply remove_duplicates_loop_kept in Ev as [Hsv Hfv].
  apply sublist_length in Hsi, Hsv.
  split; [eapply Forall_impl; [exact Hfi|]; by intros ? [? _]|].
  split; [eapply Forall_impl; [exact Hfv|]; by intros ? [? _]|].
  lia.
Qed.

(** The orchestrator raises only out of the deduplicator, on a url that
    cannot be hashed. *)
Lemma extract_media_from_posts_raises (posts : list json) settings e :
  extract_media_from_posts posts settings = Raise e →
  e = TypeError
  ∧ ∃ d, (d ∈ images (posts_loop posts 1 settings no_media).1
          ∨ d ∈ videos (posts_loop posts 1 settings no_media).1)
      ∧ has_url d ∧ Py.hash (url d) = Raise TypeError.
Proof.
  unfold extract_media_from_posts.
  change {| images := []; videos := [] |} with no_media.
  destruct (_remove_duplicates (images _)) as [ui|e1] eqn:Ei; simpl.
  - destruct (_remove_duplicates (videos _)) as [uv|e2] eqn:Ev; simpl;
      [done|].
    intros [= ->].
    apply remove_duplicates_loop_raises in Ev as (-> & d & ? & ? & ?).
    split; [done|]. exists d. eauto.
  - intros [= ->].
    apply remove_duplicates_loop_raises in Ei as (-> & d & ? & ? & ?).
    split; [done|]. exists d. eauto.
Qed.

Lemma carousel_loop_yields children descs m p settings st :
  download_videos settings = true →
  children_yield settings p m children descs →
  carousel_loop children m p settings st
  = ({| images := images st ++ filter (fun d => type d = Image) descs;
        videos := videos st ++ filter (fun d => type d = Video) descs |},
     Ok ()).
Proof.
  intros Hdl. revert descs m st.
  induction children as [|c cs IH]; intros [|d ds] m st; simpl; try done.
  { intros _. rewrite !app_nil_r. by destruct st. }
  intros [Hc Hcs]. unfold mbind at 1, try_bind at 1, lift at 1.
  destruct Hc as [[-> He]|[-> He]]; unfold mbind, try_bind.
  - rewrite collect_image, He, (IH ds) by done. simpl.
    apply extract_image_data_fields in He as (Ht & _).
    rewrite filter_cons_True, filter_cons_False by (by rewrite ?Ht).
    by rewrite <- app_assoc.
  - rewrite collect_video, Hdl, He, (IH ds) by done. simpl.
    apply extract_video_data_fields in He as (Ht & _).
    rewrite filter_cons_False, filter_cons_True by (by rewrite ?Ht).
    by rewrite <- app_assoc.
Qed.

Lemma children_yield_fields children descs m p settings :
  children_yield settings p m children descs →
  (∀ (i : nat) d, descs !! i = Some d →
     post_index d = p ∧ media_index d = (m + i)%nat)
  ∧ length (filter (fun d => type d = Image) descs)
    = length (filter (fun c => detect_media_type c = Ok Image) children)
  ∧ length (filter (fun d => type d = Video) descs)
    = length (filter (fun c => detect_media_type c = Ok Video) children).
Proof.
  revert descs m.
  induction children as [|c cs IH]; intros [|d ds] m; simpl; try done.
  intros [Hc Hcs]. destruct (IH _ _ Hcs) as (Hidx & Hni & Hnv).
  assert (Hd : post_index d = p ∧ media_index d = m
               ∧ (type d = Image ↔ detect_media_type c = Ok Image)
               ∧ (type d = Video ↔ detect_media_type c = Ok Video)).
  { destruct Hc as [[Hk He]|[Hk He]].
    - apply extract_image_data_fields in He as (Ht & ? & ?).
      rewrite Ht, Hk. by repeat split.
    - apply extract_video_data_fields in He as (Ht & ? & ?).
      rewrite Ht, Hk. by repeat split. }
  destruct Hd as (Hp & Hm & Himg & Hvid).
  split; [|split].
  - intros [|i] d'; simpl.
    + intros [= <-]. split; [done|lia].
    + intros Hi. destruct (Hidx i d' Hi) as [? ?]. split; [done|lia].
  - destruct (decide (type d = Image)) as [Ht|Ht].
    + rewrite !filter_cons_True by tauto. simpl. by rewrite Hni.
    + rewrite !filter_cons_False by tauto. done.
  - destruct (decide (type d = Video)) as [Ht|Ht].
    + rewrite !filter_cons_True by tauto. simpl. by rewrite Hnv.
    + rewrite !filter_cons_False by tauto. done.
Qed.

(** A [collect] that raises appended nothing, and raises out of the
    extraction of its kind. *)
Lemma collect_raises kind node p m settings st st' e :
  collect kind node p m settings st = (st', Raise e) →
  st' = st
  ∧ ((kind = Image ∧ _extract_image_data node p m = Raise e)
     ∨ (kind = Video ∧ download_videos settings = true
        ∧ _extract_video_data node p settings m = Raise e)).
Proof.
  destruct kind; [| |done..].
  - rewrite collect_image.
    destruct (_extract_image_data node p m) as [[d|]|e'] eqn:E; try done.
    intros [= <- <-]. split; [done|]. by left.
  - rewrite collect_video.
    destruct (download_videos settings) eqn:Hdl; [|done].
    destruct (_extract_video_data node p settings m) as [[d|]|e'] eqn:E;
      try done.
    intros [= <- <-]. split; [done|]. by right.
Qed.

(** A carousel loop that raises stopped at its first failing child: the
    children before it were handled without an exception, and what they
    appended stays. *)
Lemma carousel_loop_raises_at children m p settings st st' e :
  carousel_loop children m p settings st = (st', Raise e) →
  ∃ (k : nat) child,
    children !! k = Some child
    ∧ child_raises settings p (m + k) child e
    ∧ carousel_loop (take k children) m p settings st = (st', Ok ()).
Proof.
  revert m st. induction children as [|c cs IH]; intros m st; [done|].
  simpl. unfold mbind at 1, try_bind at 1, lift at 1.
  destruct (detect_media_type c) as [kind|e'] eqn:Hd.
  2:{ intros [= <- <-]. exists 0%nat, c. rewrite Nat.add_0_r.
      split; [done|]. split; [by left|done]. }
  unfold mbind, try_bind.
  destruct (collect kind c p m settings st) as [st1 [[]|e']] eqn:Hc.
  - intros H. apply IH in H as (k & child & Hk & Hraise & Hloop).
    exists (S k), child. split; [done|].
    split; [by replace (m + S k)%nat with (m + 1 + k)%nat by lia|].
    simpl. unfold mbind at 1, try_bind at 1, lift at 1. rewrite Hd.
    unfold mbind, try_bind. by rewrite Hc.
  - intros [= <- <-]. apply collect_raises in Hc as [-> Hc].
    exists 0%nat, c. rewrite Nat.add_0_r. split; [done|]. split; [|done].
    destruct Hc as [[-> He]|[-> [Hdl He]]]; [right; by left|right; by right].
Qed.

(** The carousel loop on children of which the first [k] yield the
    descriptors [descs] and the next one raises: the descriptors stay
    appended. *)
Lemma carousel_loop_fails_at children (k : nat) child descs m p settings
    st e :
  download_videos settings = true →
  children !! k = Some child →
  children_yield settings p m (take k children) descs →
  child_raises settings p (m + k) child e →
  carousel_loop children m p settings st
  = ({| images := images st ++ filter (fun d => type d = Image) descs;
        videos := videos st ++ filter (fun d => type d = Video) descs |},
     Raise e).
Proof.
  intros Hdl. revert k descs m st.
  induction children as [|c cs IH]; intros k descs m st; [done|].
  destruct k as [|k].
  - intros [= ->]. destruct descs as [|d ds]; [|done]. intros _.
    rewrite Nat.add_0_r. simpl. rewrite !app_nil_r.
    unfold mbind at 1, try_bind at 1, lift at 1.
    intros [Hd|[[Hd He]|[Hd [_ He]]]]; rewrite Hd;
      [by destruct st| |]; unfold mbind, try_bind.
    + rewrite collect_image, He. by destruct st.
    + rewrite collect_video, Hdl, He. by destruct st.
  - simpl. intros Hk. destruct descs as [|d ds]; [done|].
    intros [Hc Hcs] Hraise.
    replace (m + S k)%nat with (m + 1 + k)%nat in Hraise by lia.
    unfold mbind at 1, try_bind at 1, lift at 1.
    destruct Hc as [[-> He]|[-> He]]; unfold mbind, try_bind.
    + rewrite collect_image, He, (IH k ds) by done. simpl.
      apply extract_image_data_fields in He as (Ht & _).
      rewrite filter_cons_True, filter_cons_False by (by rewrite ?Ht).
      by rewrite <- app_assoc.
    + rewrite collect_video, Hdl, He, (IH k ds) by done. simpl.
      apply extract_video_data_fields in He as (Ht & _).
      rewrite filter_cons_False, filter_cons_True by (by rewrite ?Ht).
      by rewrite <- app_assoc.
Qed.

(** C8, as the code has it: the loop goes on after every post with the
    next index, whatever the post did.  A post of an unknown kind appends
    nothing; so does a post other than a carousel whose processing raises.
    A carousel whose processing raises stopped at its first failing child
    and keeps what the children before it appended: their descriptors,
    when each of them yields one.  Whatever a post appends carries the
    post's own index.  No exception of a post leaves the orchestrator: it
    raises only out of the deduplicator, on a url that cannot be hashed,
    and that url is not one of a post that appended nothing. *)
Theorem posts_loop_skips_failed_post
    (pre rest : list json) (post : json) (p : nat) settings st :
  let before := (posts_loop pre p settings st).1 in
  let index := (p + length pre)%nat in
  let body := process_post post index settings before in
  posts_loop (pre ++ post :: rest) p settings st
  = posts_loop rest (index + 1) settings body.1
  ∧ ((∃ node, classified post = Ok (node, Unknown)) →
       body = (before, Ok ()))
  ∧ (∀ e, body.2 = Raise e →
       (∀ node, classified post ≠ Ok (node, Carousel)) →
       body.1 = before)
  ∧ (∀ e node, body.2 = Raise e →
       classified post = Ok (node, Carousel) →
       (Py.get node "carousel_media" (JList []) ≫= Py.iter = Raise e
        ∧ body.1 = before)
       ∨ ∃ children (k : nat) child,
           Py.get node "carousel_media" (JList []) ≫= Py.iter = Ok children
           ∧ children !! k = Some child
           ∧ child_raises settings index (1 + k) child e
           ∧ carousel_loop (take k children) 1 index settings before
             = (body.1, Ok ()))
  ∧ (∀ node children (k : nat) child descs e,
       classified post = Ok (node, Carousel) →
       Py.get node "carousel_media" (JList []) ≫= Py.iter = Ok children →
       download_videos settings = true →
       children !! k = Some child →
       children_yield settings index 1 (take k children) descs →
       child_raises settings index (1 + k) child e →
       body
       = ({| images := images before
                       ++ filter (fun d => type d = Image) descs;
             videos := videos before
                       ++ filter (fun d => type d = Video) descs |},
          Raise e))
  ∧ (∃ new_images new_videos,
       appended before body.1 new_images new_videos
       ∧ Forall (fun d => post_index d = index) (new_images ++ new_videos))
  ∧ (∀ e, extract_media_from_posts (pre ++ post :: rest) settings = Raise e →
       e = TypeError
       ∧ ∃ d, (d ∈ images (posts_loop (pre ++ post :: rest) 1 settings
                             no_media).1
               ∨ d ∈ videos (posts_loop (pre ++ post :: rest) 1 settings
                               no_media).1)
           ∧ has_url d ∧ Py.hash (url d) = Raise TypeError
           ∧ ((process_post post (1 + length pre) settings
                 (posts_loop pre 1 settings no_media).1).1
              = (posts_loop pre 1 settings no_media).1 →
              post_index d ≠ (1 + length pre)%nat)).
Proof.
  intros before index body. split.
  { rewrite posts_loop_app, posts_loop_cons, posts_loop_index. done. }
  split.
  { subst body. rewrite process_post_classified. intros [node ->]. done. }
  split.
  { subst body. rewrite process_post_classified. intros e Hr Hnc.
    destruct (classified post) as [[node kind]|e'] eqn:Hc; [|done].
    destruct kind; [| |by destruct (Hnc node)|done].
    - destruct (collect Image node index 1 settings before) as [st1 r] eqn:E.
      simpl in Hr. subst r. by apply collect_raises in E as [-> _].
    - destruct (collect Video node index 1 settings before) as [st1 r] eqn:E.
      simpl in Hr. subst r. by apply collect_raises in E as [-> _]. }
  split.
  { subst body. rewrite process_post_classified.
    intros e node Hr Hc. rewrite Hc in Hr |- *.
    destruct (Py.get node "carousel_media" (JList []) ≫= Py.iter)
      as [children|e'].
    - destruct (carousel_loop children 1 index settings before)
        as [st' r] eqn:Hl. simpl in Hr. subst r.
      apply carousel_loop_raises_at in Hl as (k & child & Hk & Hraise & Hl).
      right. exists children, k, child. done.
    - left. simpl in Hr. by injection Hr as ->. }
  split.
  { subst body. rewrite process_post_classified.
    intros node children k child descs e Hc Hi Hdl Hk Hy Hraise.
    rewrite Hc, Hi. by apply (carousel_loop_fails_at children k child). }
  split.
  { destruct (process_post_appended post index settings before)
      as (ni & nv & Ha & Hf & _).
    by exists ni, nv. }
  intros e He.
  destruct (extract_media_from_posts_raises _ _ _ He)
    as (-> & d & Hin & Hurl & Hhash).
  split; [done|]. exists d. split; [done|]. split; [done|].
  split; [done|]. intros Hskip Hidx.
  rewrite posts_loop_app, posts_loop_cons, posts_loop_index, Hskip in Hin.
  destruct (posts_loop_appended pre 1%nat settings no_media)
    as (i1 & v1 & [Hi1 Hv1] & Hf1 & _).
  destruct (posts_loop_appended rest (1 + length pre + 1)%nat settings
              (posts_loop pre 1 settings no_media).1)
    as (i2 & v2 & [Hi2 Hv2] & Hf2 & _).
  rewrite Hi2, Hv2, Hi1, Hv1 in Hin. simpl in Hin.
  rewrite Forall_app, !Forall_forall in Hf1, Hf2.
  destruct Hf1 as [Hfi1 Hfv1], Hf2 as [Hfi2 Hfv2].
  rewrite !elem_of_app in Hin.
  destruct Hin as [[Hd|Hd]|[Hd|Hd]];
    [apply Hfi1 in Hd|apply Hfi2 in Hd|apply Hfv1 in Hd|apply Hfv2 in Hd];
    lia.
Qed.

(** C1, as the code has it: a single carousel post whose children are
    image and video children, each yielding a descriptor with a url, the
    urls of the images being pairwise distinct and so those of the videos,
    gives with [download_videos] on one image descriptor per image child
    and one video descriptor per video child, in child order; each has post
    index 1, and as media index the 1-based position of its child among
    all the children of the carousel. *)
Theorem carousel_expansion (post node : json) (children : list json)
    (descs : list media_data) settings :
  classified post = Ok (node, Carousel) →
  Py.get node "carousel_media" (JList []) = Ok (JList children) →
  download_videos settings = true →
  children_yield settings 1 1 children descs →
  Forall (fun d => has_url d ∧ hashable_url d) descs →
  NoDup (url_keys (filter (fun d => type d = Image) descs)) →
  NoDup (url_keys (filter (fun d => type d = Video) descs)) →
  extract_media_from_posts [post] settings
  = Ok {| images := filter (fun d => type d = Image) descs;
          videos := filter (fun d => type d = Video) descs |}
  ∧ length (filter (fun d => type d = Image) descs)
    = length (filter (fun c => detect_media_type c = Ok Image) children)
  ∧ length (filter (fun d => type d = Video) descs)
    = length (filter (fun c => detect_media_type c = Ok Video) children)
  ∧ ∀ (i : nat) d, descs !! i = Some d →
      post_index d = 1%nat ∧ media_index d = S i.
Proof.
  intros Hc Hcm Hdl Hy Hurl Hni Hnv.
  destruct (children_yield_fields _ _ _ _ _ Hy) as (Hidx & Hci & Hcv).
  split; [|split; [done|split; [done|]]].
  - unfold extract_media_from_posts. simpl posts_loop.
    rewrite process_post_classified, Hc, Hcm. simpl.
    rewrite (carousel_loop_yields _ descs) by done. simpl.
    assert (Hfix : ∀ P `{∀ d, Decision (P d)},
      NoDup (url_keys (filter P descs)) →
      _remove_duplicates (filter P descs) = Ok (filter P descs)).
    { intros P HP Hn. apply remove_duplicates_loop_fixed; [|done].
      apply Forall_forall. intros d Hd.
      apply list_elem_of_filter in Hd as [_ Hd].
      rewrite Forall_forall in Hurl. destruct (Hurl d Hd) as [Hu [k Hk]].
      split; [done|]. exists k. split; [done|set_solver]. }
    by rewrite !Hfix.
  - intros i d Hi. destruct (Hidx i d Hi) as [? ?]. split; [done|lia].
Qed.

End orchestrator.

(** ** The claims on sample posts *)

Lemma detect_media_type_defaults_to_image_witness :
  detect_media_type (JObj SamplePost.untyped_fields) = Ok Image.
Proof.
  exact (proj1 (detect_media_type_defaults_to_image
                  SamplePost.untyped_fields eq_refl)).
Defined.

(** The untyped node is extracted as an image. *)
Example extract_untyped_post :
  extract_media_from_posts
    [SamplePost.post (JObj SamplePost.untyped_fields)] SamplePost.settings
  = Ok {| images := [SamplePost.image_of "u" "https://cdn/u.jpg" 1 1];
          videos := [] |}.
Proof. reflexivity. Qed.

(** The story post between two image posts appends nothing. *)
Lemma posts_loop_skips_failed_post_witness :
  process_post (SamplePost.post SamplePost.story_node) 2 SamplePost.settings
    {| images := [SamplePost.image_of "1" "https://cdn/a.jpg" 1 1];
       videos := [] |}
  = ({| images := [SamplePost.image_of "1" "https://cdn/a.jpg" 1 1];
        videos := [] |}, Ok ()).
Proof.
  exact (proj1 (proj2 (posts_loop_skips_failed_post
    [SamplePost.post (SamplePost.image_node "1" "https://cdn/a.jpg")]
    [SamplePost.post (SamplePost.image_node "3" "https://cdn/b.jpg")]
    (SamplePost.post SamplePost.story_node) 1 SamplePost.settings no_media))
    (ex_intro _ SamplePost.story_node eq_refl)).
Defined.

(** Posts 1 and 3 of the three sample posts yield descriptors with the
    post indices 1 and 3. *)
Example extract_three_posts :
  extract_media_from_posts SamplePost.three_posts SamplePost.settings
  = Ok {| images := [SamplePost.image_of "1" "https://cdn/a.jpg" 1 1;
                     SamplePost.image_of "3" "https://cdn/b.jpg" 3 1];
          videos := [] |}.
Proof. reflexivity. Qed.

(** So do posts 1 and 3 when post 2 has a [null] node, whose processing
    raises. *)
Example extract_three_posts_null_node :
  (process_post SamplePost.null_node_post 2 SamplePost.settings no_media).2
  = Raise AttributeError
  ∧ extract_media_from_posts
      [SamplePost.post (SamplePost.image_node "1" "https://cdn/a.jpg");
       SamplePost.null_node_post;
       SamplePost.post (SamplePost.image_node "3" "https://cdn/b.jpg")]
      SamplePost.settings
    = Ok {| images := [SamplePost.image_of "1" "https://cdn/a.jpg" 1 1;
                       SamplePost.image_of "3" "https://cdn/b.jpg" 3 1];
            videos := [] |}.
Proof. split; reflexivity. Qed.

(** C8 as stated fails: the carousel raises at its second child, and the
    descriptor of its first child is in the manifest all the same. *)
Lemma process_post_keeps_children_before_failure :
  (process_post SamplePost.broken_carousel 1 SamplePost.settings no_media).2
  = Raise AttributeError
  ∧ images
      (process_post SamplePost.broken_carousel 1 SamplePost.settings
         no_media).1
    = [SamplePost.image_of "c1" "https://cdn/a.jpg" 1 1]
  ∧ extract_media_from_posts [SamplePost.broken_carousel] SamplePost.settings
    = Ok {| images := [SamplePost.image_of "c1" "https://cdn/a.jpg" 1 1];
            videos := [] |}.
Proof. repeat split. Qed.

Lemma extract_media_urls_and_lengths_witness :
  Forall has_url [SamplePost.image_of "1" "https://cdn/a.jpg" 1 1;
                  SamplePost.image_of "3" "https://cdn/b.jpg" 3 1].
Proof.
  exact (proj1 (extract_media_urls_and_lengths SamplePost.three_posts
    SamplePost.settings
    {| images := [SamplePost.image_of "1" "https://cdn/a.jpg" 1 1;
                  SamplePost.image_of "3" "https://cdn/b.jpg" 3 1];
       videos := [] |} eq_refl)).
Defined.

Lemma carousel_expansion_witness :
  extract_media_from_posts
    [SamplePost.post
       (SamplePost.carousel_node
          [SamplePost.image_node "c1" "https://cdn/a.jpg";
           SamplePost.video_node "c2" "https://cdn/v.mp4";
           SamplePost.image_node "c3" "https://cdn/b.jpg"])]
    SamplePost.settings
  = Ok {| images := [SamplePost.image_of "c1" "https://cdn/a.jpg" 1 1;
                     SamplePost.image_of "c3" "https://cdn/b.jpg" 1 3];
          videos := [SamplePost.video_of "c2" "https://cdn/v.mp4" 1 2] |}.
Proof.
  refine (proj1 (carousel_expansion
    (SamplePost.post
       (SamplePost.carousel_node
          [SamplePost.image_node "c1" "https://cdn/a.jpg";
           SamplePost.video_node "c2" "https://cdn/v.mp4";
           SamplePost.image_node "c3" "https://cdn/b.jpg"]))
    (SamplePost.carousel_node
       [SamplePost.image_node "c1" "https://cdn/a.jpg";
        SamplePost.video_node "c2" "https://cdn/v.mp4";
        SamplePost.image_node "c3" "https://cdn/b.jpg"])
    [SamplePost.image_node "c1" "https://cdn/a.jpg";
     SamplePost.video_node "c2" "https://cdn/v.mp4";
     SamplePost.image_node "c3" "https://cdn/b.jpg"]
    [SamplePost.image_of "c1" "https://cdn/a.jpg" 1 1;
     SamplePost.video_of "c2" "https://cdn/v.mp4" 1 2;
     SamplePost.image_of "c3" "https://cdn/b.jpg" 1 3]
    SamplePost.settings eq_refl eq_refl eq_refl _ _ _ _)).
  - simpl. repeat split; (by left) || (by right).
  - repeat constructor; by eexists.
  - apply (bool_decide_unpack _). vm_compute. exact I.
  - apply (bool_decide_unpack _). vm_compute. exact I.
Defined.

(** C1 as stated fails: in a carousel of one video child followed by one
    image child, the only image descriptor has media index 2, not 1. *)
Lemma carousel_media_index_counts_all_children :
  map detect_media_type
    [SamplePost.video_node "c1" "https://cdn/v.mp4";
     SamplePost.image_node "c2" "https://cdn/a.jpg"]
  = [Ok Video; Ok Image]
  ∧ ∃ m, extract_media_from_posts [SamplePost.mixed_carousel]
           SamplePost.settings = Ok m
      ∧ length (images m) = 1%nat
      ∧ length (videos m) = 1%nat
      ∧ map media_index (images m) = [2%nat]
      ∧ map media_index (images m) ≠ seq 1 (length (images m)).
Proof.
  split; [reflexivity|].
  eexists. split; [reflexivity|]. simpl. repeat split. discriminate.
Qed.

(** * Further properties of the extractor *)

Section orchestrator_more.

Implicit Types (st : media_lists) (settings : video_settings).

(** With [download_videos] off, [collect] never reads the video settings
    and never touches the video list. *)
Lemma collect_videos_off kind node p m settings settings' st :
  download_videos settings = false → download_videos settings' = false →
  collect kind node p m settings st = collect kind node p m settings' st
  ∧ videos (collect kind node p m settings st).1 = videos st.
Proof.
  intros Hs Hs'. destruct kind; try done.
  - rewrite !collect_image.
    by destruct (_extract_image_data node p m) as [[d|]|].
  - by rewrite !collect_video, Hs, Hs'.
Qed.

Lemma carousel_loop_videos_off children m p settings settings' st :
  download_videos settings = false → download_videos settings' = false →
  carousel_loop children m p settings st
  = carousel_loop children m p settings' st
  ∧ videos (carousel_loop children m p settings st).1 = videos st.
Proof.
  intros Hs Hs'. revert m st. induction children as [|c cs IH]; intros m st;
    [done|].
  simpl. unfold mbind at 1 3 5, try_bind at 1 3 5, lift at 1 2 3.
  destruct (detect_media_type c) as [kind|e]; [|done].
  unfold mbind, try_bind.
  destruct (collect_videos_off kind c p m settings settings' st Hs Hs')
    as [<- Hv].
  destruct (collect kind c p m settings st) as [st1 [[]|e]]; simpl in *;
    [|done].
  destruct (IH (m + 1)%nat st1) as [<- Hv']. by rewrite Hv', Hv.
Qed.

Lemma process_post_videos_off post p settings settings' st :
  download_videos settings = false → download_videos settings' = false →
  process_post post p settings st = process_post post p settings' st
  ∧ videos (process_post post p settings st).1 = videos st.
Proof.
  intros Hs Hs'. rewrite !process_post_classified.
  destruct (classified post) as [[node kind]|e]; [|done].
  destruct kind; try (by apply collect_videos_off).
  destruct (Py.get node "carousel_media" (JList []) ≫= Py.iter); [|done].
  by apply carousel_loop_videos_off.
Qed.

Lemma posts_loop_videos_off posts p settings settings' st :
  download_videos settings = false → download_videos settings' = false →
  posts_loop posts p settings st = posts_loop posts p settings' st
  ∧ videos (posts_loop posts p settings st).1 = videos st.
Proof.
  intros Hs Hs'. revert p st. induction posts as [|post posts IH];
    intros p st; [done|].
  rewrite !posts_loop_cons.
  destruct (process_post_videos_off post p settings settings' st Hs Hs')
    as [<- Hv].
  destruct (IH (p + 1)%nat (process_post post p settings st).1) as [<- Hv'].
  by rewrite Hv', Hv.
Qed.

(** X1: with [download_videos] off the manifest holds no video descriptor,
    whatever the posts are, and the manifest does not depend on the
    [video_quality] setting. *)
Theorem extract_media_videos_off (posts : list json) settings :
  download_videos settings = false →
  (∀ m, extract_media_from_posts posts settings = Ok m → videos m = [])
  ∧ (∀ quality,
       extract_media_from_posts posts
         {| download_videos := false; video_quality := quality |}
       = extract_media_from_posts posts settings).
Proof.
  intros Hoff. split.
  - intros m. unfold extract_media_from_posts.
    destruct (posts_loop_videos_off posts 1%nat settings settings
                {| images := []; videos := [] |} Hoff Hoff) as [_ ->].
    simpl. destruct (_remove_duplicates _) as [ui|]; simpl; [|done].
    by intros [= <-].
  - intros quality. unfold extract_media_from_posts.
    by destruct (posts_loop_videos_off posts 1%nat
                   {| download_videos := false; video_quality := quality |}
                   settings {| images := []; videos := [] |} eq_refl Hoff)
      as [-> _].
Qed.

End orchestrator_more.

Lemma extract_media_videos_off_witness :
  videos {| images := [SamplePost.image_of "c2" "https://cdn/a.jpg" 2 2];
            videos := [] |} = [].
Proof.
  exact (proj1 (extract_media_videos_off
    [SamplePost.post (SamplePost.video_node "1" "https://cdn/v.mp4");
     SamplePost.mixed_carousel]
    {| download_videos := false; video_quality := "lowest" |} eq_refl)
    _ eq_refl).
Defined.

Section manifest_order.

Implicit Types (st : media_lists) (settings : video_settings)
  (l : list media_data).

Lemma in_post_nil kind p mlo mhi : in_post kind p mlo mhi [].
Proof. split; constructor. Qed.

Lemma in_post_one kind p m d :
  type d = kind → post_index d = p → media_index d = m →
  in_post kind p m (m + 1) [d].
Proof.
  intros Ht Hp Hm. split; repeat constructor; try done; lia.
Qed.

Lemma in_post_app kind p a b c l1 l2 :
  (a ≤ b)%nat → (b ≤ c)%nat →
  in_post kind p a b l1 → in_post kind p b c l2 →
  in_post kind p a c (l1 ++ l2).
Proof.
  intros Hab Hbc [Hf1 Hs1] [Hf2 Hs2]. split.
  - apply Forall_app. split; (eapply Forall_impl; [eassumption|]);
      simpl; intros d (? & ? & ?); repeat split; try done; lia.
  - apply StronglySorted_app. split; [|done].
    intros x y Hx Hy. rewrite Forall_forall in Hf1, Hf2.
    destruct (Hf1 x Hx) as (_ & ? & ?), (Hf2 y Hy) as (_ & ? & ?).
    right. split; [congruence|lia].
Qed.

Lemma in_post_weaken kind p a b a' b' l :
  (a' ≤ a)%nat → (b ≤ b')%nat →
  in_post kind p a b l → in_post kind p a' b' l.
Proof.
  intros ? ? [Hf Hs]. split; [|done].
  eapply Forall_impl; [exact Hf|].
  simpl; intros d (? & ? & ?); repeat split; try done; lia.
Qed.

Lemma in_posts_of_post kind p a b l :
  (1 ≤ a)%nat → in_post kind p a b l → in_posts kind p (p + 1) l.
Proof.
  intros ? [Hf Hs]. split; [|done].
  eapply Forall_impl; [exact Hf|].
  simpl; intros d (? & ? & ?); repeat split; try done; lia.
Qed.

Lemma in_posts_app kind a b c l1 l2 :
  (a ≤ b)%nat → (b ≤ c)%nat →
  in_posts kind a b l1 → in_posts kind b c l2 →
  in_posts kind a c (l1 ++ l2).
Proof.
  intros Hab Hbc [Hf1 Hs1] [Hf2 Hs2]. split.
  - apply Forall_app. split; (eapply Forall_impl; [eassumption|]);
      simpl; intros d (? & ? & ?); repeat split; try done; lia.
  - apply StronglySorted_app. split; [|done].
    intros x y Hx Hy. rewrite Forall_forall in Hf1, Hf2.
    destruct (Hf1 x Hx) as (_ & ? & ?), (Hf2 y Hy) as (_ & ? & ?).
    left. lia.
Qed.

Lemma sublist_Forall {A : Type} (P : A → Prop) (l' l : list A) :
  sublist l' l → Forall P l → Forall P l'.
Proof.
  rewrite !Forall_forall. intros Hsub Hl x Hx.
  by eapply Hl, elem_of_sublist.
Qed.

Lemma in_posts_sublist kind lo hi l l' :
  sublist l' l → in_posts kind lo hi l → in_posts kind lo hi l'.
Proof.
  intros Hsub [Hf Hs]. split; [by eapply sublist_Forall|].
  clear Hf. induction Hsub as [|x l1 l2 Hsub IH|x l1 l2 Hsub IH]; [done|..].
  - apply StronglySorted_cons in Hs as [Hx Hs].
    apply StronglySorted_cons. split; [|by apply IH].
    by eapply sublist_Forall.
  - apply StronglySorted_cons in Hs as [_ Hs]. by apply IH.
Qed.

(** What [collect] appends, by kind and index. *)
Lemma collect_in_post kind node p m settings st :
  ∃ new_images new_videos,
    appended st (collect kind node p m settings st).1 new_images new_videos
    ∧ in_post Image p m (m + 1) new_images
    ∧ in_post Video p m (m + 1) new_videos.
Proof.
  assert (Hnone : ∀ r : result unit, ∃ new_images new_videos,
    appended st (st, r).1 new_images new_videos
    ∧ in_post Image p m (m + 1) new_images
    ∧ in_post Video p m (m + 1) new_videos).
  { intros r. exists [], []. split; [apply appended_refl|].
    split; apply in_post_nil. }
  destruct kind; [| |apply Hnone..].
  - rewrite collect_image.
    destruct (_extract_image_data node p m) as [[d|]|] eqn:E;
      [|apply Hnone..].
    apply extract_image_data_fields in E as (? & ? & ?).
    exists [d], []. split; [split; simpl; by rewrite ?app_nil_r|].
    split; [by apply in_post_one|apply in_post_nil].
  - rewrite collect_video. destruct (download_videos settings);
      [|apply Hnone].
    destruct (_extract_video_data node p settings m) as [[d|]|] eqn:E;
      [|apply Hnone..].
    apply extract_video_data_fields in E as (? & ? & ?).
    exists [], [d]. split; [split; simpl; by rewrite ?app_nil_r|].
    split; [apply in_post_nil|by apply in_post_one].
Qed.

Lemma carousel_loop_in_post children m p settings st :
  ∃ new_images new_videos,
    appended st (carousel_loop children m p settings st).1
      new_images new_videos
    ∧ in_post Image p m (m + length children) new_images
    ∧ in_post Video p m (m + length children) new_videos.
Proof.
  revert m st. induction children as [|c cs IH]; intros m st.
  { exists [], []. split; [apply appended_refl|]. split; apply in_post_nil. }
  simpl. unfold mbind at 1, try_bind at 1, lift at 1.
  destruct (detect_media_type c) as [kind|e].
  2:{ exists [], []. split; [apply appended_refl|]. split; apply in_post_nil. }
  unfold mbind, try_bind.
  destruct (collect_in_post kind c p m settings st)
    as (i1 & v1 & Ha & Hi1 & Hv1).
  destruct (collect kind c p m settings st) as [st1 [[]|e]]; simpl in *.
  - destruct (IH (m + 1)%nat st1) as (i2 & v2 & Ha2 & Hi2 & Hv2).
    exists (i1 ++ i2), (v1 ++ v2).
    split; [by eapply appended_trans|].
    replace (m + S (length cs))%nat with (m + 1 + length cs)%nat by lia.
    split; (eapply (in_post_app _ _ _ (m + 1)%nat); [lia|lia|done|done]).
  - exists i1, v1. split; [done|].
    split; (eapply in_post_weaken; [| |eassumption]; lia).
Qed.

Lemma process_post_in_posts post p settings st :
  ∃ new_images new_videos,
    appended st (process_post post p settings st).1 new_images new_videos
    ∧ in_posts Image p (p + 1) new_images
    ∧ in_posts Video p (p + 1) new_videos.
Proof.
  rewrite process_post_classified.
  assert (Hnone : ∀ r : result unit, ∃ new_images new_videos,
    appended st (st, r).1 new_images new_videos
    ∧ in_posts Image p (p + 1) new_images
    ∧ in_posts Video p (p + 1) new_videos).
  { intros r. exists [], []. split; [apply appended_refl|].
    split; split; constructor. }
  assert (Hone : ∀ kind node, ∃ new_images new_videos,
    appended st (collect kind node p 1 settings st).1 new_images new_videos
    ∧ in_posts Image p (p + 1) new_images
    ∧ in_posts Video p (p + 1) new_videos).
  { intros kind node.
    destruct (collect_in_post kind node p 1%nat settings st)
      as (ni & nv & Ha & Hi & Hv).
    exists ni, nv. split; [done|].
    split; (eapply in_posts_of_post; [|eassumption]; lia). }
  destruct (classified post) as [[node []]|]; [apply Hone..| |apply Hone|
                                                apply Hnone].
  destruct (Py.get node "carousel_media" (JList []) ≫= Py.iter)
    as [children|]; [|apply Hnone].
  destruct (carousel_loop_in_post children 1%nat p settings st)
    as (ni & nv & Ha & Hi & Hv).
  exists ni, nv. split; [done|].
  split; (eapply in_posts_of_post; [|eassumption]; lia).
Qed.

Lemma posts_loop_in_posts posts p settings st :
  ∃ new_images new_videos,
    appended st (posts_loop posts p settings st).1 new_images new_videos
    ∧ in_posts Image p (p + length posts) new_images
    ∧ in_posts Video p (p + length posts) new_videos.
Proof.
  revert p st. induction posts as [|post posts IH]; intros p st.
  { exists [], []. split; [apply appended_refl|]. split; split; constructor. }
  rewrite posts_loop_cons.
  destruct (process_post_in_posts post p settings st)
    as (i1 & v1 & Ha1 & Hi1 & Hv1).
  destruct (IH (p + 1)%nat (process_post post p settings st).1)
    as (i2 & v2 & Ha2 & Hi2 & Hv2).
  exists (i1 ++ i2), (v1 ++ v2). split; [by eapply appended_trans|].
  simpl length. replace (p + S (length posts))%nat
    with (p + 1 + length posts)%nat by lia.
  split; (eapply (in_posts_app _ _ (p + 1)%nat); [lia|lia|done|done]).
Qed.

(** The two lists of a returned manifest by kind, index and order. *)
Lemma extract_media_in_posts (posts : list json) settings m :
  extract_media_from_posts posts settings = Ok m →
  in_posts Image 1 (1 + length posts) (images m)
  ∧ in_posts Video 1 (1 + length posts) (videos m).
Proof.
  unfold extract_media_from_posts.
  destruct (posts_loop_in_posts posts 1%nat settings no_media)
    as (ni & nv & [Hi Hv] & Hini & Hinv).
  change {| images := []; videos := [] |} with no_media.
  rewrite Hi, Hv. simpl.
  destruct (_remove_duplicates ni) as [ui|] eqn:Ei; simpl; [|done].
  destruct (_remove_duplicates nv) as [uv|] eqn:Ev; simpl; [|done].
  intros [= <-]. simpl.
  apply remove_duplicates_loop_kept in Ei as [Hsi _].
  apply remove_duplicates_loop_kept in Ev as [Hsv _].
  split; by eapply in_posts_sublist.
Qed.

(** X2: in a returned manifest every descriptor of [images] is an image and
    every descriptor of [videos] a video; its post index is a position in
    the posts, from 1 to their number, and its media index is at least 1. *)
Theorem extract_media_kinds_and_indices (posts : list json) settings m :
  extract_media_from_posts posts settings = Ok m →
  Forall (fun d => type d = Image
                   ∧ (1 ≤ post_index d ≤ length posts)%nat
                   ∧ (1 ≤ media_index d)%nat) (images m)
  ∧ Forall (fun d => type d = Video
                     ∧ (1 ≤ post_index d ≤ length posts)%nat
                     ∧ (1 ≤ media_index d)%nat) (videos m).
Proof.
  intros H. apply extract_media_in_posts in H as ([Hi _] & [Hv _]).
  split; (eapply Forall_impl; [eassumption|]);
    simpl; intros d (? & ? & ?); repeat split; try done; lia.
Qed.

(** X3: each list of a returned manifest lists its descriptors in strictly
    increasing order of (post index, media index): the order of the posts,
    and inside a carousel the order of its children.  No two descriptors of
    a list share both indices. *)
Theorem extract_media_ordered (posts : list json) settings m :
  extract_media_from_posts posts settings = Ok m →
  StronglySorted index_lt (images m)
  ∧ StronglySorted index_lt (videos m)
  ∧ NoDup (map (fun d => (post_index d, media_index d)) (images m))
  ∧ NoDup (map (fun d => (post_index d, media_index d)) (videos m)).
Proof.
  intros H. apply extract_media_in_posts in H as ([_ Hi] & [_ Hv]).
  assert (Hnd : ∀ l, StronglySorted index_lt l →
            NoDup (map (fun d => (post_index d, media_index d)) l)).
  { induction l as [|x l IH]; intros Hs; [constructor|].
    apply StronglySorted_cons in Hs as [Hx Hs]. simpl.
    constructor; [|by apply IH].
    intros Hin. apply list_elem_of_fmap in Hin as (y & [= Hp Hm] & Hy).
    rewrite Forall_forall in Hx. destruct (Hx y Hy) as [?|[? ?]]; lia. }
  auto.
Qed.

(** X4: a returned manifest is free of duplicates: no two descriptors of a
    list carry the same url, and the deduplicator returns each list as it
    is. *)
Theorem extract_media_deduplicated (posts : list json) settings m :
  extract_media_from_posts posts settings = Ok m →
  NoDup (url_keys (images m)) ∧ NoDup (url_keys (videos m))
  ∧ _remove_duplicates (images m) = Ok (images m)
  ∧ _remove_duplicates (videos m) = Ok (videos m).
Proof.
  unfold extract_media_from_posts.
  destruct (_remove_duplicates (images _)) as [ui|] eqn:Ei; simpl; [|done].
  destruct (_remove_duplicates (videos _)) as [uv|] eqn:Ev; simpl; [|done].
  intros [= <-]. simpl.
  pose proof (remove_duplicates_loop_kept _ _ _ Ei) as [_ Hfi].
  pose proof (remove_duplicates_loop_kept _ _ _ Ev) as [_ Hfv].
  pose proof (remove_duplicates_loop_nodup _ _ _ Ei) as Hni.
  pose proof (remove_duplicates_loop_nodup _ _ _ Ev) as Hnv.
  split; [done|]. split; [done|].
  split; by apply remove_duplicates_loop_fixed.
Qed.

End manifest_order.

Lemma extract_media_kinds_and_indices_witness :
  Forall (fun d => type d = Image ∧ (1 ≤ post_index d ≤ 3)%nat
                   ∧ (1 ≤ media_index d)%nat)
    [SamplePost.image_of "1" "https://cdn/a.jpg" 1 1;
     SamplePost.image_of "3" "https://cdn/b.jpg" 3 1].
Proof.
  exact (proj1 (extract_media_kinds_and_indices SamplePost.three_posts
    SamplePost.settings
    {| images := [SamplePost.image_of "1" "https://cdn/a.jpg" 1 1;
                  SamplePost.image_of "3" "https://cdn/b.jpg" 3 1];
       videos := [] |} eq_refl)).
Defined.

Lemma extract_media_ordered_witness :
  StronglySorted index_lt
    [SamplePost.image_of "1" "https://cdn/a.jpg" 1 1;
     SamplePost.image_of "3" "https://cdn/b.jpg" 3 1].
Proof.
  exact (proj1 (extract_media_ordered SamplePost.three_posts
    SamplePost.settings
    {| images := [SamplePost.image_of "1" "https://cdn/a.jpg" 1 1;
                  SamplePost.image_of "3" "https://cdn/b.jpg" 3 1];
       videos := [] |} eq_refl)).
Defined.

Lemma extract_media_deduplicated_witness :
  NoDup (url_keys [SamplePost.image_of "1" "https://cdn/a.jpg" 1 1;
                   SamplePost.image_of "3" "https://cdn/b.jpg" 3 1]).
Proof.
  exact (proj1 (extract_media_deduplicated SamplePost.three_posts
    SamplePost.settings
    {| images := [SamplePost.image_of "1" "https://cdn/a.jpg" 1 1;
                  SamplePost.image_of "3" "https://cdn/b.jpg" 3 1];
       videos := [] |} eq_refl)).
Defined.

(** * Further properties of the paginator *)

Section paginator_more.

Variable remote : script.
Variable max_pages : Z.

Implicit Types (st : fetch_state).

(** An iteration that goes on read its cursor from the response. *)
Lemma page_body_next o st st' :
  page_body o st = (st', Ok Next) →
  cursor_from o (after_cursor st') ∧ requests st' = requests st.
Proof.
  unfold page_body. intros H.
  destruct o as [|s [data|]]; [done| |by destruct (s =? 200)].
  destruct (s =? 200) eqn:Hs; [|done]. apply Z.eqb_eq in Hs as ->.
  destruct (timeline_of data) as [tl|] eqn:Ht; simpl in H; [|done].
  destruct (Py.get tl "edges" (JList [])) as [edges|]; simpl in H; [|done].
  destruct (Py.truthy edges); [|done].
  destruct (Py.iter edges) as [new_posts|]; [|done].
  destruct (page_info_of tl) as [[h c]|] eqn:Hpi; [|done].
  destruct (Py.truthy h) eqn:Hh; [|done].
  destruct (Py.truthy c) eqn:Hc; [|done].
  simpl in H. injection H as <-. simpl. split; [|done].
  by exists data, tl, h.
Qed.

Lemma fetch_loop_requests fuel st st' :
  fetch_loop fuel remote max_pages st = Some st' →
  (length (requests st')
   ≤ length (requests st) + Z.to_nat (max_pages - page st + 1))%nat
  ∧ all_posts st'
    = all_posts st
      ++ concat (map (fun i => appended_by (remote i))
                   (seq (length (requests st))
                      (length (requests st') - length (requests st))))
  ∧ (length (requests st) ≤ length (requests st'))%nat.
Proof.
  revert st. induction fuel as [|fuel IH]; intros st; [done|].
  simpl. destruct (page st <=? max_pages) eqn:Hp.
  2:{ intros [= <-]. rewrite Nat.sub_diag. simpl.
      rewrite app_nil_r. repeat split; lia. }
  apply Z.leb_le in Hp.
  set (sent := {| all_posts := all_posts st; after_cursor := after_cursor st;
                  page := page st;
                  requests := requests st ++ [after_cursor st] |}).
  destruct (page_body_state (remote (length (requests st))) sent)
    as (_ & Ha & Hr & Hpg).
  destruct (page_body _ sent) as [st1 r]. simpl in Ha, Hr, Hpg.
  assert (Hlen : length (requests st1) = S (length (requests st))).
  { rewrite Hr, length_app. simpl. lia. }
  assert (Hone : ∀ st2, requests st2 = requests st1 → all_posts st2 = all_posts st1 →
    (length (requests st2)
     ≤ length (requests st) + Z.to_nat (max_pages - page st + 1))%nat
    ∧ all_posts st2
      = all_posts st
        ++ concat (map (fun i => appended_by (remote i))
                     (seq (length (requests st))
                        (length (requests st2) - length (requests st))))
    ∧ (length (requests st) ≤ length (requests st2))%nat).
  { intros st2 Hr2 Ha2. rewrite Hr2, Ha2, Hlen, Ha.
    replace (S (length (requests st)) - length (requests st))%nat
      with 1%nat by lia.
    simpl. rewrite app_nil_r. repeat split; lia. }
  destruct r as [[]|e]; [by intros [= <-]; apply Hone| |
                         by intros [= <-]; apply Hone].
  intros H. apply IH in H as (Hb & Hall & Hle). simpl in Hb, Hall, Hle.
  rewrite Hlen in Hb, Hle, Hall. rewrite Hpg in Hb.
  split; [lia|]. split; [|lia].
  rewrite Hall, Ha, <- app_assoc. f_equal.
  replace (length (requests st') - length (requests st))%nat
    with (S (length (requests st') - S (length (requests st)))) by lia.
  done.
Qed.

(** X5: for every remote behaviour and every page limit the loop ends,
    after at most [max_pages] requests (none at all when the limit is zero
    or negative); and the posts returned are exactly what the responses to
    the requests sent contributed, in the order of the requests. *)
Theorem fetch_user_posts_bounded :
  ∃ st, fetch_user_posts_run remote max_pages = Some st
    ∧ fetch_user_posts remote max_pages = Some (all_posts st)
    ∧ (length (requests st) ≤ Z.to_nat max_pages)%nat
    ∧ all_posts st
      = concat (map (fun i => appended_by (remote i))
                  (seq 0 (length (requests st))))
    ∧ (max_pages ≤ 0 → all_posts st = [] ∧ requests st = []).
Proof.
  unfold fetch_user_posts, fetch_user_posts_run.
  destruct (fetch_loop_returns remote max_pages (Z.to_nat max_pages + 1)
              fetch_start) as [st Hst]; [simpl; lia|].
  exists st. rewrite Hst. split; [done|]. split; [done|].
  apply fetch_loop_requests in Hst as (Hb & Hall & _). simpl in Hb, Hall.
  rewrite Nat.sub_0_r in Hall.
  replace (max_pages - 1 + 1) with max_pages in Hb by lia.
  split; [done|]. split; [done|].
  intros Hneg. assert (Hz : length (requests st) = 0%nat) by lia.
  rewrite Hz in Hall. split; [done|]. by apply nil_length_inv.
Qed.

(** X6: when the pages before page [k] let the loop go on and page [k]
    comes back with status 200 and no edges (the list is empty, or the
    field or the whole envelope is missing), the run ends there, having
    sent [k] requests, and returns the edges of the earlier pages. *)
Theorem fetch_user_posts_stops_on_empty_page
    (pages : list (list json * json)) :
  (∀ (i : nat) p, pages !! i = Some p → more_page (remote i) p.1 p.2) →
  empty_page (remote (length pages)) →
  Z.of_nat (length pages) + 1 ≤ max_pages →
  fetch_user_posts remote max_pages = Some (concat (map fst pages))
  ∧ ∃ st, fetch_user_posts_run remote max_pages = Some st
      ∧ length (requests st) = S (length pages).
Proof.
  intros Hpages (data & tl & edges & Ho & Ht & He & Hf) Hk.
  assert (Hbody : ∀ st, page_body (remote (length pages)) st = (st, Ok Break)).
  { intros st. rewrite Ho. unfold page_body. simpl. rewrite Ht. simpl.
    rewrite He. simpl. by rewrite Hf. }
  assert (Hrun : ∃ st, fetch_user_posts_run remote max_pages = Some st
     ∧ length (requests st) = S (length pages)
     ∧ all_posts st = concat (map fst pages)).
  { unfold fetch_user_posts_run.
    replace (Z.to_nat max_pages + 1)%nat
      with (length pages + S (Z.to_nat max_pages - length pages))%nat by lia.
    rewrite fetch_loop_pages; [|done|simpl; lia].
    destruct (foldl_advance pages fetch_start) as (Ha & Hr & Hp).
    assert (Hreq : length (requests (foldl advance fetch_start pages))
                   = length pages).
    { rewrite Hr. simpl. apply length_cursors_sent. }
    destruct (fetch_loop_last remote max_pages
                (Z.to_nat max_pages - length pages)
                (foldl advance fetch_start pages)) as (st & Hst & Hall & Hrq).
    - rewrite Hp. simpl. lia.
    - by rewrite Hreq, Hbody.
    - exists st. split; [done|]. rewrite Hrq, Hall, Ha, Hreq, length_app.
      unfold appended_by. rewrite Hbody. simpl. rewrite app_nil_r.
      split; [lia|done]. }
  destruct Hrun as (st & Hst & Hlen & Hall).
  split; [|by eauto].
  unfold fetch_user_posts. rewrite Hst. simpl. by rewrite Hall.
Qed.

Lemma fetch_loop_cursors fuel st st' :
  fetch_loop fuel remote max_pages st = Some st' →
  (requests st = [] → after_cursor st = JNull) →
  (∀ c, requests st !! 0%nat = Some c → c = JNull) →
  (∀ (i : nat) c, requests st !! S i = Some c → cursor_from (remote i) c) →
  (∀ n : nat, length (requests st) = S n →
     cursor_from (remote n) (after_cursor st)) →
  (∀ c, requests st' !! 0%nat = Some c → c = JNull)
  ∧ (∀ (i : nat) c, requests st' !! S i = Some c →
       cursor_from (remote i) c).
Proof.
  revert st. induction fuel as [|fuel IH]; intros st; [done|].
  simpl. destruct (page st <=? max_pages); [|by intros [= <-]].
  set (sent := {| all_posts := all_posts st; after_cursor := after_cursor st;
                  page := page st;
                  requests := requests st ++ [after_cursor st] |}).
  intros H Hnil H0 HS Hlast.
  assert (Hsent0 : ∀ c, requests sent !! 0%nat = Some c → c = JNull).
  { simpl. intros c. destruct (requests st) as [|c0 rs] eqn:Hr.
    - simpl. intros [= <-]. by apply Hnil.
    - simpl. intros [= <-]. by apply H0. }
  assert (HsentS : ∀ (i : nat) c, requests sent !! S i = Some c →
            cursor_from (remote i) c).
  { simpl. intros i c Hi.
    destruct (decide (S i < length (requests st))%nat) as [Hlt|Hge].
    - rewrite lookup_app_l in Hi by done. by apply HS.
    - rewrite lookup_app_r in Hi by lia.
      destruct (S i - length (requests st))%nat as [|k] eqn:Hk;
        [|by destruct k].
      simpl in Hi. injection Hi as <-. apply Hlast. lia. }
  destruct (page_body_state (remote (length (requests st))) sent)
    as (_ & _ & Hr & _).
  destruct (page_body _ sent) as [st1 r] eqn:Hbody. simpl in Hr.
  destruct r as [[]|e].
  - injection H as <-. rewrite Hr. done.
  - apply page_body_next in Hbody as [Hc _].
    apply IH in H; simpl; [done|..].
    + rewrite Hr. simpl. by destruct (requests st).
    + by rewrite Hr.
    + by rewrite Hr.
    + rewrite Hr. simpl. rewrite length_app. simpl.
      intros n Hn. replace n with (length (requests st)) by lia. done.
  - injection H as <-. rewrite Hr. done.
Qed.

(** X7: in every run the first request is sent without a cursor, and every
    later request carries the end cursor read from the response to the
    request before it, a response that reported a next page. *)
Theorem fetch_user_posts_threads_cursor st :
  fetch_user_posts_run remote max_pages = Some st →
  (∀ c, requests st !! 0%nat = Some c → c = JNull)
  ∧ (∀ (i : nat) c, requests st !! S i = Some c →
       cursor_from (remote i) c).
Proof.
  intros H. eapply fetch_loop_cursors; [exact H|done..].
Qed.

End paginator_more.

Lemma fetch_user_posts_stops_on_empty_page_witness :
  fetch_user_posts
    (fun i => match i with
              | O => SamplePage.two_pages 0%nat
              | _ => Response 200 (Some (JObj [("data", JObj [])]))
              end) 4
  = Some [SamplePage.edge "p1"; SamplePage.edge "p2"].
Proof.
  refine (proj1 (fetch_user_posts_stops_on_empty_page _ 4
    [([SamplePage.edge "p1"; SamplePage.edge "p2"], JStr "cursor-1")]
    _ _ _)).
  - intros [|[|i]] p; simpl; intros [= <-]. by apply sample_page_more.
  - eexists _, _, _. repeat split; reflexivity.
  - simpl. lia.
Defined.

Lemma fetch_user_posts_threads_cursor_witness :
  cursor_from (SamplePage.two_pages 0%nat) (JStr "cursor-1").
Proof.
  refine (proj2 (fetch_user_posts_threads_cursor SamplePage.two_pages 5
    {| all_posts := [SamplePage.edge "p1"; SamplePage.edge "p2";
                     SamplePage.edge "p3"];
       after_cursor := JNull; page := 2;
       requests := [JNull; JStr "cursor-1"] |} eq_refl)
    0%nat (JStr "cursor-1") eq_refl).
Defined.

(** * The downloader *)

(** ** Decimal strings *)

Section decimal.

Lemma string_app_cons (x : ascii) (a b : string) :
  String x a +:+ b = String x (a +:+ b).
Proof. reflexivity. Qed.

Lemma string_app_nil_l (b : string) : "" +:+ b = b.
Proof. reflexivity. Qed.

Lemma string_app_assoc (a b c : string) : (a +:+ b) +:+ c = a +:+ b +:+ c.
Proof.
  induction a as [|x a IH]; [done|].
  by rewrite !string_app_cons, IH.
Qed.

Lemma string_app_nil_r (a : string) : a +:+ "" = a.
Proof.
  induction a as [|x a IH]; [done|]. by rewrite string_app_cons, IH.
Qed.

Lemma string_app_length (a b : string) :
  String.length (a +:+ b) = (String.length a + String.length b)%nat.
Proof.
  induction a as [|x a IH]; [done|]. rewrite string_app_cons. simpl.
  by rewrite IH.
Qed.

Lemma all_digits_app (a b : string) :
  all_digits (a +:+ b) = all_digits a && all_digits b.
Proof.
  induction a as [|x a IH]; [done|]. rewrite string_app_cons. simpl.
  by rewrite IH, andb_assoc.
Qed.

Lemma all_digits_zeros n : all_digits (Fmt.zeros n) = true.
Proof. induction n; simpl; done. Qed.

Lemma all_digits_uint (u : Decimal.uint) :
  all_digits (NilEmpty.string_of_uint u) = true.
Proof. induction u; simpl; done. Qed.

Lemma all_digits_format width n : all_digits (Fmt.d width n) = true.
Proof.
  unfold Fmt.d, Py.str.
  by rewrite all_digits_app, all_digits_zeros, all_digits_uint.
Qed.

(** Where a run of digits ends is read off the string. *)
Lemma digits_split (p1 p2 r1 r2 : string) :
  all_digits p1 = true → all_digits p2 = true →
  no_digit_first r1 = true → no_digit_first r2 = true →
  p1 +:+ r1 = p2 +:+ r2 → p1 = p2 ∧ r1 = r2.
Proof.
  revert p2. induction p1 as [|c p1 IH]; intros [|c' p2];
    rewrite ?string_app_cons, ?string_app_nil_l; simpl.
  - done.
  - intros _ Hd Hr _ ->. simpl in Hr.
    apply andb_true_iff in Hd as [Hc _]. by rewrite Hc in Hr.
  - intros Hd _ _ Hr <-. simpl in Hr.
    apply andb_true_iff in Hd as [Hc _]. by rewrite Hc in Hr.
  - intros Hd1 Hd2 Hr1 Hr2 [= <- H].
    apply andb_true_iff in Hd1 as [_ Hd1].
    apply andb_true_iff in Hd2 as [_ Hd2].
    destruct (IH p2 Hd1 Hd2 Hr1 Hr2 H) as [-> ->]. done.
Qed.

Lemma str_inj (n n' : nat) : Py.str n = Py.str n' → n = n'.
Proof.
  unfold Py.str. intros H. apply Unsigned.to_uint_inj.
  apply (inj Some). by rewrite <- !NilEmpty.usu, H.
Qed.

Lemma to_uint_normal (n : nat) :
  Decimal.unorm (Nat.to_uint n) = Nat.to_uint n.
Proof. by rewrite <- Unsigned.to_of, Unsigned.of_to. Qed.

(** The decimal writing of a number is not empty, and starts with a zero
    only when it is the single digit 0. *)
Lemma str_canonical (n : nat) :
  Py.str n ≠ "" ∧ ∀ r, Py.str n = String "0"%char r → r = "".
Proof.
  unfold Py.str. pose proof (to_uint_normal n) as Hn.
  destruct (Nat.to_uint n) as [|u|u|u|u|u|u|u|u|u|u] eqn:E; simpl;
    try (split; [done|discriminate]).
  split; [done|]. intros r [= <-].
  destruct u as [|u'|u'|u'|u'|u'|u'|u'|u'|u'|u'] eqn:Eu; [done|..];
    exfalso; rewrite unorm_D0 in Hn;
    match goal with
    | H : Decimal.unorm ?v = Decimal.D0 ?v |- _ =>
        assert (Hv : v ≠ Decimal.Nil) by done;
        pose proof (nb_digits_unorm v Hv) as Hle;
        rewrite H in Hle; simpl in Hle; lia
    end.
Qed.

Lemma zeros_canonical (k1 k2 : nat) (s1 s2 : string) :
  (s1 ≠ "" ∧ ∀ r, s1 = String "0"%char r → r = "") →
  (s2 ≠ "" ∧ ∀ r, s2 = String "0"%char r → r = "") →
  Fmt.zeros k1 +:+ s1 = Fmt.zeros k2 +:+ s2 → s1 = s2.
Proof.
  intros [Hne1 Hz1] [Hne2 Hz2].
  assert (Hzero : ∀ k s, Fmt.zeros k +:+ s = "" → s = "").
  { intros [|k] s; simpl; [done|discriminate]. }
  revert k2. induction k1 as [|k1 IH]; intros [|k2]; simpl;
    rewrite ?string_app_cons, ?string_app_nil_l.
  - done.
  - intros H. pose proof (Hz1 _ H) as Hr. apply Hzero in Hr. done.
  - intros H. symmetry in H. pose proof (Hz2 _ H) as Hr.
    apply Hzero in Hr. done.
  - intros [= H]. by apply IH in H.
Qed.

Lemma format_inj (width n n' : nat) : Fmt.d width n = Fmt.d width n' → n = n'.
Proof.
  unfold Fmt.d. intros H. apply str_inj.
  eapply zeros_canonical; [apply str_canonical..|exact H].
Qed.

End decimal.

(** ** File names *)

Section filenames.

Implicit Types (a b : media_data).

(** The file name of a descriptor, cut after the post number. *)
Lemma generate_filename_parts a :
  ∃ rest, generate_filename a
          = "post_" +:+ Fmt.d 3 (post_index a) +:+ rest
    ∧ no_digit_first rest = true
    ∧ rest = match type a with
             | Image => (if (1 <? media_index a)%nat
                         then "_img_" +:+ Fmt.d 2 (media_index a)
                         else "_img") +:+ ".jpg"
             | Video => (if (1 <? media_index a)%nat
                         then "_video_" +:+ Fmt.d 2 (media_index a)
                         else "_video") +:+ ".mp4"
             | _ => "_unknown.bin"
             end.
Proof.
  unfold generate_filename.
  destruct (type a); eexists; (split; [|split; [|reflexivity]]);
    rewrite ?string_app_assoc; try reflexivity;
    by destruct (1 <? media_index a)%nat.
Qed.

Lemma generate_filename_inj_indices a b :
  (1 ≤ media_index a)%nat → (1 ≤ media_index b)%nat →
  generate_filename a = generate_filename b →
  item_indices a = item_indices b.
Proof.
  intros Ha Hb H.
  destruct (generate_filename_parts a) as (ra & Hfa & Hda & Hra).
  destruct (generate_filename_parts b) as (rb & Hfb & Hdb & Hrb).
  rewrite Hfa, Hfb in H. rewrite !string_app_cons, !string_app_nil_l in H.
  injection H as H.
  apply digits_split in H as [Hp Hr];
    [|apply all_digits_format..|done|done].
  apply format_inj in Hp. unfold item_indices. rewrite Hp.
  assert (Hidx : ∀ (pre ext : string) m m',
    no_digit_first ext = true →
    pre +:+ Fmt.d 2 m +:+ ext = pre +:+ Fmt.d 2 m' +:+ ext → m = m').
  { intros pre ext m m' Hext Heq. apply (inj (String.app pre)) in Heq.
    apply digits_split in Heq as [Heq _];
      [by apply format_inj in Heq|apply all_digits_format..|done|done]. }
  rewrite Hra, Hrb in Hr. clear Hfa Hfb Hda Hdb Hra Hrb Hp.
  destruct a, b; simpl in *;
    destruct (1 <? _)%nat eqn:Ea in Hr;
    destruct (1 <? _)%nat eqn:Eb in Hr;
    rewrite ?string_app_assoc, ?string_app_cons, ?string_app_nil_l in Hr;
    try discriminate Hr;
    try (apply Nat.ltb_ge in Ea, Eb; repeat f_equal; lia);
    rewrite <- ?string_app_cons in Hr;
    (apply (Hidx "_img_" ".jpg") in Hr || apply (Hidx "_video_" ".mp4") in Hr);
    try done; by rewrite Hr.
Qed.

(** X9: descriptors with media indices from 1 on get the same file name
    only when they are of the same kind and have the same post index and
    the same media index. *)
Theorem generate_filename_injective a b :
  (1 ≤ media_index a)%nat → (1 ≤ media_index b)%nat →
  generate_filename a = generate_filename b →
  type a = type b ∧ post_index a = post_index b
  ∧ media_index a = media_index b.
Proof.
  intros Ha Hb H.
  pose proof (generate_filename_inj_indices a b Ha Hb H) as Hi.
  unfold item_indices in Hi. by injection Hi as -> -> ->.
Qed.

End filenames.

Lemma generate_filename_injective_witness :
  type (SamplePost.image_of "1" "https://cdn/a.jpg" 1 1)
  = type (SamplePost.image_of "3" "https://cdn/a.jpg" 1 1).
Proof.
  exact (proj1 (generate_filename_injective
    (SamplePost.image_of "1" "https://cdn/a.jpg" 1 1)
    (SamplePost.image_of "3" "https://cdn/a.jpg" 1 1)
    (le_n 1) (le_n 1) eq_refl)).
Defined.

Example generate_filename_samples :
  generate_filename (SamplePost.image_of "1" "u" 7 1) = "post_007_img.jpg"
  ∧ generate_filename (SamplePost.image_of "1" "u" 7 3)
    = "post_007_img_03.jpg"
  ∧ generate_filename (SamplePost.video_of "1" "u" 1234 12)
    = "post_1234_video_12.mp4".
Proof. repeat split. Qed.

Section manifest_filenames.

Implicit Types (l : list media_data).

Lemma sorted_indices_nodup l :
  StronglySorted index_lt l → NoDup (map item_indices l).
Proof.
  induction l as [|x l IH]; intros Hs; [constructor|].
  apply StronglySorted_cons in Hs as [Hx Hs]. simpl.
  constructor; [|by apply IH].
  intros Hin. apply list_elem_of_fmap in Hin as (y & [= _ Hp Hm] & Hy).
  rewrite Forall_forall in Hx. destruct (Hx y Hy) as [?|[? ?]]; lia.
Qed.

Lemma generate_filename_nodup l :
  Forall (fun d => (1 ≤ media_index d)%nat) l →
  NoDup (map item_indices l) → NoDup (map generate_filename l).
Proof.
  induction l as [|x l IH]; intros Hf Hn; [constructor|].
  apply Forall_cons in Hf as [Hx Hf]. simpl in Hn.
  apply NoDup_cons in Hn as [Hxl Hn]. simpl.
  constructor; [|by apply IH].
  intros Hin. apply list_elem_of_fmap in Hin as (y & Heq & Hy).
  apply Hxl. apply list_elem_of_fmap. exists y. split; [|done].
  rewrite Forall_forall in Hf.
  by apply generate_filename_inj_indices; [|apply Hf|].
Qed.

Lemma in_posts_filenames_nodup lo hi (imgs vids : list media_data) :
  in_posts Image lo hi imgs → in_posts Video lo hi vids →
  NoDup (map generate_filename (imgs ++ vids)).
Proof.
  intros [Hfi Hsi] [Hfv Hsv]. apply generate_filename_nodup.
  - apply Forall_app. split; (eapply Forall_impl; [eassumption|]);
      by intros d (_ & _ & ?).
  - rewrite map_app. apply NoDup_app.
    split; [by apply sorted_indices_nodup|].
    split; [|by apply sorted_indices_nodup].
    intros k Hi Hv.
    apply list_elem_of_fmap in Hi as (x & -> & Hx).
    apply list_elem_of_fmap in Hv as (y & [= Ht _ _] & Hy).
    rewrite Forall_forall in Hfi, Hfv.
    destruct (Hfi x Hx) as (Htx & _), (Hfv y Hy) as (Hty & _).
    congruence.
Qed.

(** X10: the file names generated for the descriptors of a returned
    manifest, images and videos together, are pairwise distinct. *)
Theorem extract_media_filenames_distinct (posts : list json) settings m :
  extract_media_from_posts posts settings = Ok m →
  NoDup (map generate_filename (images m ++ videos m)).
Proof.
  intros H. apply extract_media_in_posts in H as [Hi Hv].
  by eapply in_posts_filenames_nodup.
Qed.

End manifest_filenames.

Lemma extract_media_filenames_distinct_witness :
  NoDup ["post_001_img_02.jpg"; "post_001_video.mp4"].
Proof.
  exact (extract_media_filenames_distinct [SamplePost.mixed_carousel]
    SamplePost.settings
    {| images := [SamplePost.image_of "c2" "https://cdn/a.jpg" 1 2];
       videos := [SamplePost.video_of "c1" "https://cdn/v.mp4" 1 1] |}
    eq_refl).
Defined.

(** ** Free names *)

Section free_names.

Implicit Types (files : folder) (name stem suffix : string).

Lemma split_last_dot_app name before from_dot :
  Path.split_last_dot name = Some (before, from_dot) →
  name = before +:+ from_dot ∧ ∃ r, from_dot = String "."%char r.
Proof.
  revert before from_dot. induction name as [|c name IH];
    intros before from_dot; simpl; [done|].
  destruct (Path.split_last_dot name) as [[b e]|].
  - intros [= <- <-]. destruct (IH b e eq_refl) as [-> Hr].
    by rewrite string_app_cons.
  - destruct (Ascii.eqb c ".") eqn:Hc; [|done].
    apply Ascii.eqb_eq in Hc as ->. intros [= <- <-]. eauto.
Qed.

(** A name is its stem followed by its suffix, and the suffix is empty or
    starts with a dot. *)
Lemma path_parts name :
  name = Path.stem name +:+ Path.suffix name
  ∧ no_digit_first (Path.suffix name) = true.
Proof.
  unfold Path.stem, Path.suffix, Path.parts.
  destruct (Path.split_last_dot name) as [[b e]|] eqn:E; simpl;
    [|by rewrite string_app_nil_r].
  apply split_last_dot_app in E as [-> [r ->]].
  destruct (negb (String.eqb b "") && negb (String.eqb (String "." r) "."));
    simpl; [done|by rewrite string_app_nil_r].
Qed.

Lemma split_last_dot_no_dot s :
  Path.no_dot s = true → Path.split_last_dot s = None.
Proof.
  induction s as [|c s IH]; simpl; [done|].
  intros [Hc Hs]%andb_true_iff. rewrite IH by done.
  by destruct (Ascii.eqb c ".").
Qed.

Lemma split_last_dot_ext a ext :
  Path.no_dot ext = true →
  Path.split_last_dot (a +:+ String "."%char ext)
  = Some (a, String "."%char ext).
Proof.
  intros Hext. induction a as [|c a IH].
  - rewrite string_app_nil_l. simpl.
    by rewrite split_last_dot_no_dot.
  - rewrite string_app_cons. simpl. by rewrite IH.
Qed.

(** A name that ends with an extension: its stem is what is before the
    extension. *)
Lemma path_parts_ext a ext :
  a ≠ "" → ext ≠ "" → Path.no_dot ext = true →
  Path.parts (a +:+ String "."%char ext) = (a, String "."%char ext).
Proof.
  intros Ha Hext Hnd. unfold Path.parts.
  rewrite split_last_dot_ext by done.
  apply String.eqb_neq in Ha. rewrite Ha.
  destruct ext as [|c ext]; [done|]. reflexivity.
Qed.

Lemma no_separator_app a b :
  Path.no_separator (a +:+ b) = Path.no_separator a && Path.no_separator b.
Proof.
  induction a as [|x a IH]; [done|]. rewrite string_app_cons. simpl.
  by rewrite IH, andb_assoc.
Qed.

Lemma no_separator_digits s :
  all_digits s = true → Path.no_separator s = true.
Proof.
  induction s as [|c s IH]; simpl; [done|].
  intros [Hc Hs]%andb_true_iff. rewrite IH by done.
  destruct (Ascii.eqb c "/") eqn:E; [|done].
  apply Ascii.eqb_eq in E as ->. discriminate Hc.
Qed.

Lemma is_name_post rest :
  Path.no_separator rest = true → Path.is_name ("post_" +:+ rest) = true.
Proof.
  intros H. unfold Path.is_name.
  rewrite no_separator_app, H. reflexivity.
Qed.

(** The file name of a descriptor, cut before its extension. *)
Lemma generate_filename_ext item :
  ∃ rest, generate_filename item
          = ("post_" +:+ rest) +:+ extension (type item)
    ∧ Path.no_separator rest = true.
Proof.
  pose proof (no_separator_digits _ (all_digits_format 3 (post_index item)))
    as H3.
  pose proof (no_separator_digits _ (all_digits_format 2 (media_index item)))
    as H2.
  unfold generate_filename.
  destruct (type item); cbn [extension].
  - destruct (1 <? media_index item)%nat.
    + exists (Fmt.d 3 (post_index item) +:+ "_img_"
              +:+ Fmt.d 2 (media_index item)).
      split; [by rewrite !string_app_assoc|].
      by rewrite !no_separator_app, H3, H2.
    + exists (Fmt.d 3 (post_index item) +:+ "_img").
      split; [by rewrite !string_app_assoc|].
      by rewrite !no_separator_app, H3.
  - destruct (1 <? media_index item)%nat.
    + exists (Fmt.d 3 (post_index item) +:+ "_video_"
              +:+ Fmt.d 2 (media_index item)).
      split; [by rewrite !string_app_assoc|].
      by rewrite !no_separator_app, H3, H2.
    + exists (Fmt.d 3 (post_index item) +:+ "_video").
      split; [by rewrite !string_app_assoc|].
      by rewrite !no_separator_app, H3.
  - exists (Fmt.d 3 (post_index item) +:+ "_unknown").
    split; [by rewrite !string_app_assoc|].
    by rewrite !no_separator_app, H3.
  - exists (Fmt.d 3 (post_index item) +:+ "_unknown").
    split; [by rewrite !string_app_assoc|].
    by rewrite !no_separator_app, H3.
Qed.

Lemma extension_cases kind :
  ∃ ext, extension kind = String "."%char ext ∧ ext ≠ ""
    ∧ Path.no_dot ext = true ∧ Path.no_separator (extension kind) = true.
Proof. destruct kind; eexists; repeat split; done. Qed.

Lemma numbered_inj stem suffix (i j : nat) :
  no_digit_first suffix = true →
  numbered stem suffix i = numbered stem suffix j → i = j.
Proof.
  unfold numbered. intros Hs H. apply (inj (String.app stem)) in H.
  rewrite !string_app_cons, !string_app_nil_l in H. injection H as H.
  apply digits_split in H as [H _]; [by apply str_inj| | |done|done];
    apply all_digits_uint.
Qed.

Lemma file_exists_true files name :
  file_exists files name = true ↔ is_Some (files !! name).
Proof. unfold file_exists. apply bool_decide_eq_true. Qed.

Lemma file_exists_false files name :
  file_exists files name = false ↔ files !! name = None.
Proof.
  unfold file_exists. rewrite bool_decide_eq_false.
  symmetry. apply eq_None_not_Some.
Qed.

Lemma collision_loop_none fuel files stem suffix c :
  collision_loop fuel files stem suffix c = None →
  ∀ j : nat, (j < fuel)%nat →
    is_Some (files !! numbered stem suffix (c + j)).
Proof.
  revert c. induction fuel as [|fuel IH]; intros c; [intros _ j; lia|].
  simpl. destruct (file_exists files _) eqn:E; [|done].
  intros H [|j] Hj.
  - rewrite Nat.add_0_r. by apply file_exists_true.
  - replace (c + S j)%nat with (c + 1 + j)%nat by lia. apply IH; [done|lia].
Qed.

Lemma collision_loop_some fuel files stem suffix c r :
  collision_loop fuel files stem suffix c = Some r →
  ∃ k : nat, (c ≤ k)%nat ∧ r = numbered stem suffix k
    ∧ files !! r = None
    ∧ ∀ j : nat, (c ≤ j < k)%nat →
        is_Some (files !! numbered stem suffix j).
Proof.
  revert c. induction fuel as [|fuel IH]; intros c; [done|].
  simpl. destruct (file_exists files _) eqn:E.
  - intros H. apply IH in H as (k & Hk & -> & Hfree & Hbusy).
    exists k. split; [lia|]. split; [done|]. split; [done|].
    intros j Hj. destruct (decide (j = c)) as [->|Hne].
    + by apply file_exists_true.
    + apply Hbusy. lia.
  - intros [= <-]. exists c. split; [done|]. split; [done|].
    split; [by apply file_exists_false|]. intros j Hj. lia.
Qed.

(** More distinct names than the folder has files cannot all be taken. *)
Lemma names_not_all_taken files (names : list string) :
  NoDup names → (size files < length names)%nat →
  ∃ n, n ∈ names ∧ files !! n = None.
Proof.
  intros Hnd Hlen.
  destruct (decide (Forall (fun n => is_Some (files !! n)) names))
    as [Hall|Hnot].
  - exfalso.
    assert (Hsub : (list_to_set names : gset string) ⊆ dom files).
    { intros n Hn. apply elem_of_list_to_set in Hn. apply elem_of_dom.
      rewrite Forall_forall in Hall. by apply Hall. }
    apply subseteq_size in Hsub.
    rewrite size_list_to_set, size_dom in Hsub by done. lia.
  - apply not_Forall_Exists in Hnot; [|apply _].
    apply Exists_exists in Hnot as (n & Hn & Hnone).
    exists n. split; [done|]. by apply eq_None_not_Some.
Qed.

(** With one unit of fuel more than the folder has files, the loop finds
    a free name. *)
Lemma collision_loop_finds files stem suffix :
  no_digit_first suffix = true →
  ∃ r, collision_loop (S (size files)) files stem suffix 1 = Some r.
Proof.
  intros Hs.
  destruct (collision_loop (S (size files)) files stem suffix 1)
    as [r|] eqn:Hloop; [by eauto|].
  exfalso. pose proof (collision_loop_none _ _ _ _ _ Hloop) as Hall.
  destruct (names_not_all_taken files
    (map (numbered stem suffix) (seq 1 (S (size files)))))
    as (n & Hn & Hnone).
  - apply NoDup_fmap_2_strong; [|apply NoDup_seq].
    intros i j _ _. by apply numbered_inj.
  - rewrite length_map, length_seq. lia.
  - apply list_elem_of_fmap in Hn as (i & -> & Hi).
    apply elem_of_seq in Hi.
    specialize (Hall (i - 1)%nat ltac:(lia)).
    replace (1 + (i - 1))%nat with i in Hall by lia.
    rewrite Hnone in Hall. by destruct Hall.
Qed.

Lemma handle_filename_collision_fresh files name :
  ∃ r, _handle_filename_collision files name = Some r
    ∧ files !! r = None
    ∧ (files !! name = None → r = name).
Proof.
  unfold _handle_filename_collision.
  destruct (file_exists files name) eqn:E; cbn [negb].
  - destruct (collision_loop_finds files (Path.stem name) (Path.suffix name))
      as [r Hr]; [apply path_parts|].
    exists r. split; [done|].
    apply collision_loop_some in Hr as (k & _ & _ & Hfree & _).
    split; [done|]. apply file_exists_true in E.
    intros Hn. rewrite Hn in E. by destruct E.
  - apply file_exists_false in E. by exists name.
Qed.

(** X11: for every folder and every file name the search for a free name
    ends.  The name returned is not taken; it is the name asked for when
    that is free, and otherwise the numbered name with the least counter
    from 1 on that is free. *)
Theorem handle_filename_collision_free files name :
  Path.is_name name = true →
  ∃ r, _handle_filename_collision files name = Some r
    ∧ files !! r = None
    ∧ (files !! name = None → r = name)
    ∧ (is_Some (files !! name) →
       ∃ k : nat, (1 ≤ k)%nat
         ∧ r = numbered (Path.stem name) (Path.suffix name) k
         ∧ ∀ j : nat, (1 ≤ j < k)%nat →
             is_Some (files !! numbered (Path.stem name)
                                        (Path.suffix name) j)).
Proof.
  intros _. unfold _handle_filename_collision.
  destruct (file_exists files name) eqn:E; cbn [negb].
  2:{ apply file_exists_false in E. exists name.
      split; [done|]. split; [done|]. split; [done|].
      rewrite E. by intros [? ?]. }
  apply file_exists_true in E.
  destruct (collision_loop_finds files (Path.stem name) (Path.suffix name))
    as [r Hloop]; [apply path_parts|].
  rewrite Hloop.
  apply collision_loop_some in Hloop as (k & Hk & -> & Hfree & Hbusy).
  eexists. split; [done|]. split; [done|].
  split; [intros Hn; rewrite Hn in E; by destruct E|].
  intros _. by exists k.
Qed.

(** X22: the name generated for a descriptor is a file name whose
    extension is the one of its kind, and so is the free name chosen for
    it in any folder: a download never lands under another extension or
    outside the folder. *)
Theorem generate_filename_free_name files item :
  Path.is_name (generate_filename item) = true
  ∧ Path.suffix (generate_filename item) = extension (type item)
  ∧ ∃ r, _handle_filename_collision files (generate_filename item) = Some r
      ∧ files !! r = None
      ∧ Path.is_name r = true
      ∧ Path.suffix r = extension (type item).
Proof.
  destruct (generate_filename_ext item) as (rest & Hname & Hrest).
  destruct (extension_cases (type item)) as (ext & Hext & Hne & Hnd & Hsep).
  assert (Hparts : ∀ more, Path.no_separator more = true →
    Path.is_name (("post_" +:+ rest +:+ more) +:+ extension (type item))
    = true
    ∧ Path.parts (("post_" +:+ rest +:+ more) +:+ extension (type item))
      = ("post_" +:+ rest +:+ more, extension (type item))).
  { intros more Hmore. split.
    - rewrite !string_app_assoc. apply is_name_post.
      by rewrite !no_separator_app, Hrest, Hmore, Hsep.
    - rewrite Hext. by apply path_parts_ext. }
  destruct (Hparts "" eq_refl) as [Hn Hp].
  rewrite string_app_nil_r, <- Hname in Hn, Hp.
  split; [done|]. split; [unfold Path.suffix; by rewrite Hp|].
  destruct (handle_filename_collision_fresh files (generate_filename item))
    as (r & Hr & Hfree & Hsame).
  exists r. split; [done|]. split; [done|].
  revert Hr. unfold _handle_filename_collision.
  destruct (file_exists files (generate_filename item)); cbn [negb].
  2:{ intros [= <-]. split; [done|]. unfold Path.suffix. by rewrite Hp. }
  intros Hloop.
  apply collision_loop_some in Hloop as (k & _ & -> & _ & _).
  unfold Path.stem, Path.suffix. rewrite Hp. cbn [fst snd]. unfold numbered.
  destruct (Hparts ("_" +:+ Py.str k)) as [Hn' Hp'].
  { rewrite no_separator_app. apply andb_true_iff. split; [done|].
    apply no_separator_digits, all_digits_uint. }
  rewrite !string_app_assoc in Hn', Hp'. rewrite !string_app_assoc.
  split; [done|]. by rewrite Hp'.
Qed.

End free_names.

Lemma handle_filename_collision_free_witness :
  ∃ r, _handle_filename_collision
         (<["post_001_img.jpg" := "x"]> (<["post_001_img_1.jpg" := "y"]> ∅))
         "post_001_img.jpg" = Some r
    ∧ (<["post_001_img.jpg" := "x"]> (<["post_001_img_1.jpg" := "y"]> ∅)
       : folder) !! r = None.
Proof.
  destruct (handle_filename_collision_free
    (<["post_001_img.jpg" := "x"]> (<["post_001_img_1.jpg" := "y"]> ∅))
    "post_001_img.jpg" eq_refl) as (r & Hr & Hfree & _).
  exact (ex_intro _ r (conj Hr Hfree)).
Defined.

Example handle_filename_collision_sample :
  _handle_filename_collision
    (<["post_001_img.jpg" := "x"]> (<["post_001_img_1.jpg" := "y"]> ∅))
    "post_001_img.jpg"
  = Some "post_001_img_2.jpg".
Proof. reflexivity. Qed.

(** ** Downloads *)

Section downloads.

Variable max_video_size_mb : Z.

Implicit Types (files : folder) (st : download_state) (o : get_outcome)
  (item : media_data).

(** The statements from the collision handling on: a complete body adds
    one file under a free name, a broken one leaves the folder as it
    was. *)
Lemma save_body_cases files name chunks complete :
  ∃ new, files !! new = None
    ∧ (files !! name = None → new = name)
    ∧ save_body files name chunks complete
      = Some (if complete then (<[new := written chunks]> files, true)
              else (files, false)).
Proof.
  unfold save_body.
  destruct (handle_filename_collision_fresh files name)
    as (new & -> & Hfree & Hsame).
  exists new. split; [done|]. split; [done|]. simpl.
  rewrite insert_insert_eq. destruct complete; [done|].
  by rewrite delete_insert_id.
Qed.

(** The cases of [download_with_progress]. *)
Lemma download_with_progress_cases o files name kind :
  (download_with_progress max_video_size_mb o files name kind
   = Some (delete name files, false)
   ∧ delivers max_video_size_mb kind o = false
   ∧ (o = GetRaises
      ∨ (∃ chunks complete, o = GetResponse None chunks complete)
      ∨ (∃ total_size chunks complete,
           o = GetResponse (Some total_size) chunks complete
           ∧ size_check_raises max_video_size_mb kind total_size = true)))
  ∨ (download_with_progress max_video_size_mb o files name kind
     = Some (files, false)
     ∧ delivers max_video_size_mb kind o = false
     ∧ ∃ total_size chunks complete,
         o = GetResponse (Some total_size) chunks complete
         ∧ size_check_raises max_video_size_mb kind total_size = false)
  ∨ (∃ new total_size chunks,
       download_with_progress max_video_size_mb o files name kind
       = Some (<[new := written chunks]> files, true)
       ∧ delivers max_video_size_mb kind o = true
       ∧ o = GetResponse (Some total_size) chunks true
       ∧ files !! new = None
       ∧ (files !! name = None → new = name)
       ∧ (kind = Video → 0 < total_size →
          total_size ≤ max_video_size_mb * 1024 * 1024)).
Proof.
  destruct o as [|[total_size|] chunks complete];
    [left; by eauto| |left; split; [done|]; split; [done|]; by eauto].
  destruct (save_body_cases files name chunks complete)
    as (new & Hfree & Hsame & Hsave).
  assert (Hdel : delivers max_video_size_mb kind
                   (GetResponse (Some total_size) chunks complete)
                 = if complete
                   then negb (bool_decide (kind = Video) && (0 <? total_size)
                              && (max_video_size_mb * 1024 * 1024
                                  <? total_size))
                   else false) by (by destruct complete).
  assert (Hr : size_check_raises max_video_size_mb kind total_size
               = bool_decide (kind = Video) && (0 <? total_size)
                 && (max_video_size_mb * 1024 * 1024 <? total_size)
                 && (division_overflows total_size
                     || division_overflows
                          (max_video_size_mb * 1024 * 1024))) by done.
  unfold download_with_progress, _check_video_size_limit. rewrite Hsave.
  destruct (bool_decide (kind = Video)) eqn:Hk;
    destruct (0 <? total_size) eqn:Hpos;
    destruct (max_video_size_mb * 1024 * 1024 <? total_size) eqn:Hlim;
    destruct (division_overflows total_size);
    destruct (division_overflows (max_video_size_mb * 1024 * 1024));
    destruct complete; cbn [andb negb orb] in *;
    first
      [ left; split; [reflexivity|]; split; [exact Hdel|];
        do 2 right; eexists _, _, _; split; [reflexivity|exact Hr]
      | right; left; split; [reflexivity|]; split; [exact Hdel|];
        eexists _, _, _; split; [reflexivity|exact Hr]
      | right; right; exists new, total_size, chunks;
        split; [reflexivity|]; split; [exact Hdel|];
        split; [reflexivity|]; split; [exact Hfree|];
        split; [exact Hsame|]; intros Hv Hp;
        first [ by apply bool_decide_eq_false in Hk
              | apply Z.ltb_ge in Hpos; lia
              | apply Z.ltb_ge in Hlim; lia ] ].
Qed.

(** X12: a download that returns [True] added exactly one file, under a
    name that was free (the name asked for when that was free), holding the
    chunks of the body in order; every file that was there before is still
    there with its content. *)
Theorem download_with_progress_adds_one_file o files name kind files' :
  download_with_progress max_video_size_mb o files name kind
  = Some (files', true) →
  ∃ new total_size chunks,
    o = GetResponse (Some total_size) chunks true
    ∧ files !! new = None
    ∧ files' = <[new := written chunks]> files
    ∧ (files !! name = None → new = name)
    ∧ files ⊆ files'.
Proof.
  intros H.
  destruct (download_with_progress_cases o files name kind)
    as [[H' _]|[[H' _]
       |(new & size & chunks & H' & _ & Ho & Hfree & Hsame & _)]];
    rewrite H' in H; try discriminate H.
  injection H as <-. exists new, size, chunks.
  repeat split; try done. by apply insert_subseteq.
Qed.

(** X13: a download that returns [False] leaves no partial file behind and
    changes no file under another name.  When the body broke off or the
    video was over the size limit, the folder is as before.  When the
    request failed or the content length could not be read, the file under
    the name asked for is removed if there was one; and so it is when the
    size check itself raises, on a length or a limit too large for the
    message it prints. *)
Theorem download_with_progress_failure o files name kind files' :
  download_with_progress max_video_size_mb o files name kind
  = Some (files', false) →
  (∀ n, n ≠ name → files' !! n = files !! n)
  ∧ (∀ total_size chunks complete,
       o = GetResponse (Some total_size) chunks complete →
       files' = if size_check_raises max_video_size_mb kind total_size
                then delete name files else files)
  ∧ ((o = GetRaises ∨ ∃ chunks complete, o = GetResponse None chunks complete)
     → files' = delete name files)
  ∧ (∀ total_size,
       size_check_raises max_video_size_mb kind total_size = true ↔
       kind = Video ∧ 0 < total_size
       ∧ max_video_size_mb * 1024 * 1024 < total_size
       ∧ (2 ^ 1034 - 2 ^ 980 ≤ Z.abs total_size
          ∨ 2 ^ 1034 - 2 ^ 980 ≤ Z.abs (max_video_size_mb * 1024 * 1024))).
Proof.
  intros H.
  assert (Hraises : ∀ total_size,
    size_check_raises max_video_size_mb kind total_size = true ↔
    kind = Video ∧ 0 < total_size
    ∧ max_video_size_mb * 1024 * 1024 < total_size
    ∧ (2 ^ 1034 - 2 ^ 980 ≤ Z.abs total_size
       ∨ 2 ^ 1034 - 2 ^ 980 ≤ Z.abs (max_video_size_mb * 1024 * 1024))).
  { intros total_size. unfold size_check_raises, division_overflows.
    rewrite !andb_true_iff, orb_true_iff, bool_decide_eq_true,
      !Z.ltb_lt, !Z.leb_le. tauto. }
  destruct (download_with_progress_cases o files name kind)
    as [(H' & _ & Ho)|[(H' & _ & Ho)|(new & size & chunks & H' & _)]];
    rewrite H' in H; try discriminate H; injection H as <-.
  - split; [intros n Hn; by apply lookup_delete_ne|].
    split; [|by split].
    intros size chunks complete ->.
    destruct Ho as [?|[(? & ? & ?)|(? & ? & ? & [= <- _ _] & ->)]]; done.
  - destruct Ho as (size & chunks & complete & -> & Hr).
    split; [done|]. split; [|split; [|done]].
    + intros ? ? ? [= <- _ _]. by rewrite Hr.
    + intros [?|(? & ? & ?)]; done.
Qed.

(** X23: on a response whose content length reads as an integer the
    download returns, and it returns [True] exactly when the body arrived
    completely and the file is not a video whose declared length is
    positive and over the limit.  So the limit holds back no image, and no
    video whose response declares no length. *)
Theorem download_with_progress_size_limit files name kind
    (total_size : Z) chunks complete :
  ∃ files' ok,
    download_with_progress max_video_size_mb
      (GetResponse (Some total_size) chunks complete) files name kind
    = Some (files', ok)
    ∧ (ok = true ↔
       complete = true
       ∧ ¬ (kind = Video ∧ 0 < total_size
            ∧ max_video_size_mb * 1024 * 1024 < total_size)).
Proof.
  assert (Hd : delivers max_video_size_mb kind
                 (GetResponse (Some total_size) chunks complete) = true ↔
               complete = true
               ∧ ¬ (kind = Video ∧ 0 < total_size
                    ∧ max_video_size_mb * 1024 * 1024 < total_size)).
  { unfold delivers. destruct complete; [|by split; [|intros [? _]]].
    rewrite negb_true_iff, <- not_true_iff_false, !andb_true_iff,
      bool_decide_eq_true, !Z.ltb_lt. tauto. }
  destruct (download_with_progress_cases
              (GetResponse (Some total_size) chunks complete) files name kind)
    as [(H' & Hdel & _)|[(H' & Hdel & _)|(new & size & ch & H' & Hdel & _)]];
    rewrite H'; eexists _, _; (split; [reflexivity|]);
    rewrite <- Hd, Hdel; done.
Qed.

Lemma kept_except_refl names files : kept_except names files files.
Proof. by intros n c. Qed.

Lemma kept_except_trans names names' files1 files2 files3 :
  kept_except names files1 files2 → kept_except names' files2 files3 →
  kept_except (names ++ names') files1 files3.
Proof.
  intros H1 H2 n c Hn Hnot. apply not_elem_of_app in Hnot as [? ?].
  apply H2; [|done]. by apply H1.
Qed.

Lemma kept_except_weaken names names' files1 files2 :
  names ⊆ names' → kept_except names files1 files2 →
  kept_except names' files1 files2.
Proof. intros Hsub H n c Hn Hnot. apply H; [done|]. set_solver. Qed.

Lemma download_with_progress_kept o files name kind files' ok :
  download_with_progress max_video_size_mb o files name kind
  = Some (files', ok) →
  kept_except [name] files files'.
Proof.
  intros H n c Hn Hnot. apply not_elem_of_cons in Hnot as [Hne _].
  destruct (download_with_progress_cases o files name kind)
    as [[H' _]|[[H' _]|(new & size & chunks & H' & _ & _ & Hfree & _)]];
    rewrite H' in H; injection H as <- <-.
  - by rewrite lookup_delete_ne.
  - done.
  - rewrite lookup_insert_ne; [done|]. intros ->. congruence.
Qed.

(** [download_with_progress] returns, and it returns [True] exactly on a
    response that carries the file. *)
Lemma download_with_progress_delivers o files name kind :
  ∃ files',
    download_with_progress max_video_size_mb o files name kind
    = Some (files', delivers max_video_size_mb kind o).
Proof.
  destruct (download_with_progress_cases o files name kind)
    as [(H' & -> & _)|[(H' & -> & _)|(new & size & chunks & H' & -> & _)]];
    rewrite H'; by eauto.
Qed.

Variable remote : server.

(** One attempt: no request for an item without a url, one request
    otherwise, which succeeds exactly when the response carries the
    file. *)
Lemma download_media_item_cases st item :
  ∃ st' ok,
    download_media_item max_video_size_mb remote st item = Some (st', ok)
    ∧ kept_except [generate_filename item] (files st) (files st')
    ∧ (Py.truthy (url item) = false → st' = st ∧ ok = false)
    ∧ (Py.truthy (url item) = true →
       requested st' = requested st ++ [url item]
       ∧ ok = delivers max_video_size_mb (type item)
                (remote (length (requested st)))).
Proof.
  unfold download_media_item.
  destruct (Py.truthy (url item)); simpl.
  - destruct (download_with_progress_delivers
                (remote (length (requested st))) (files st)
                (generate_filename item) (type item)) as [files' E].
    rewrite E. simpl. eexists _, _. split; [done|]. simpl.
    split; [by eapply download_with_progress_kept|]. by split.
  - exists st, false. split; [done|].
    split; [apply kept_except_refl|]. by split.
Qed.

(** The loop of [download_with_retry]: the attempts before the last one
    failed, and the last one succeeded exactly when [True] is returned. *)
Lemma retry_loop_spec attempts st item :
  ∃ st' ok (n : nat),
    retry_loop attempts max_video_size_mb remote st item = Some (st', ok)
    ∧ kept_except [generate_filename item] (files st) (files st')
    ∧ (n ≤ attempts)%nat
    ∧ requested st' = requested st ++ replicate n (url item)
    ∧ (Py.truthy (url item) = false → n = 0%nat ∧ ok = false)
    ∧ (Py.truthy (url item) = true →
       (∀ i : nat, (i < n)%nat →
          delivers max_video_size_mb (type item)
            (remote (length (requested st) + i)%nat)
          = ok && bool_decide (i = n - 1)%nat)
       ∧ (ok = true → (1 ≤ n)%nat)
       ∧ (ok = false → n = attempts)).
Proof.
  revert st. induction attempts as [|attempts IH]; intros st.
  { exists st, false, 0%nat. simpl. rewrite app_nil_r.
    split; [done|]. split; [apply kept_except_refl|].
    split; [done|]. split; [done|]. split; [done|].
    intros _. split; [intros i; lia|]. by split. }
  simpl.
  destruct (download_media_item_cases st item)
    as (st1 & ok1 & -> & Hkept & Hno & Hyes). simpl.
  destruct ok1.
  - destruct (Py.truthy (url item)) eqn:Hu; [|by destruct (Hno eq_refl)].
    destruct (Hyes eq_refl) as [Hreq Hdl].
    exists st1, true, 1%nat. split; [done|]. split; [done|].
    split; [lia|]. split; [done|]. split; [done|].
    intros _. split; [|by split].
    intros i Hi. assert (i = 0%nat) as -> by lia.
    by rewrite Nat.add_0_r, <- Hdl.
  - destruct (IH st1) as (st' & ok & n & -> & Hkept' & Hn & Hreq & Hno' & Hyes').
    destruct (Py.truthy (url item)) eqn:Hu.
    + destruct (Hyes eq_refl) as [Hreq1 Hdl].
      destruct (Hyes' eq_refl) as (Hatt & Hok & Hfail).
      exists st', ok, (S n). split; [done|].
      split.
      { eapply kept_except_weaken; [|by eapply kept_except_trans].
        set_solver. }
      split; [lia|]. split; [by rewrite Hreq, Hreq1, <- app_assoc|].
      split; [done|]. intros _. split; [|split].
      * intros [|i] Hi.
        { rewrite Nat.add_0_r, <- Hdl. destruct ok; [|done].
          specialize (Hok eq_refl). symmetry. apply andb_false_intro2.
          apply bool_decide_eq_false. lia. }
        rewrite Hreq1, length_app in Hatt. simpl in Hatt.
        replace (length (requested st) + S i)%nat
          with (length (requested st) + 1 + i)%nat by lia.
        rewrite Hatt by lia. f_equal. apply bool_decide_ext. lia.
      * intros _. lia.
      * intros Hf. by rewrite Hfail.
    + destruct (Hno eq_refl) as [-> _]. destruct (Hno' eq_refl) as [-> ->].
      exists st', false, 0%nat. split; [done|]. split; [done|].
      split; [lia|]. split; [done|]. by split.
Qed.

(** X14: [download_with_retry] always returns, having sent at most
    [max_retries] requests, all for the item's url.  For an item without a
    url it sends no request and returns [False].  Otherwise it stops at
    the first attempt whose response carries the file: every attempt
    before the last one failed, [True] is returned exactly when the last
    one succeeded, and [False] only after [max_retries] failed attempts. *)
Theorem download_with_retry_attempts st item (max_retries : Z) :
  ∃ st' ok (n : nat),
    download_with_retry max_video_size_mb remote st item max_retries
    = Some (st', ok)
    ∧ (n ≤ Z.to_nat max_retries)%nat
    ∧ requested st' = requested st ++ replicate n (url item)
    ∧ (Py.truthy (url item) = false → st' = st ∧ ok = false)
    ∧ (Py.truthy (url item) = true →
       (∀ i : nat, (i + 1 < n)%nat →
          delivers max_video_size_mb (type item)
            (remote (length (requested st) + i)%nat) = false)
       ∧ (ok = true →
          (1 ≤ n)%nat
          ∧ delivers max_video_size_mb (type item)
              (remote (length (requested st) + (n - 1))%nat) = true
          ∧ ∃ total_size chunks,
              remote (length (requested st) + (n - 1))%nat
              = GetResponse (Some total_size) chunks true)
       ∧ (ok = false →
          n = Z.to_nat max_retries
          ∧ ∀ i : nat, (i < n)%nat →
              delivers max_video_size_mb (type item)
                (remote (length (requested st) + i)%nat) = false)).
Proof.
  unfold download_with_retry.
  destruct (retry_loop_spec (Z.to_nat max_retries) st item)
    as (st' & ok & n & Hrun & Hkept & Hn & Hreq & Hno & Hyes).
  exists st', ok, n. split; [done|]. split; [done|]. split; [done|].
  split.
  { intros Hu. destruct (Hno Hu) as [-> ->]. split; [|done].
    clear -Hrun Hu. revert Hrun. generalize (Z.to_nat max_retries) as k.
    induction k as [|k IH]; simpl; [by intros [= <-]|].
    unfold download_media_item. rewrite Hu. simpl. exact IH. }
  intros Hu. destruct (Hyes Hu) as (Hatt & Hok & Hfail).
  split; [|split].
  - intros i Hi. rewrite Hatt by lia. apply andb_false_intro2.
    apply bool_decide_eq_false. lia.
  - intros ->. specialize (Hok eq_refl). split; [done|].
    assert (Hd : delivers max_video_size_mb (type item)
                   (remote (length (requested st) + (n - 1))%nat) = true).
    { rewrite Hatt by lia. by rewrite bool_decide_eq_true_2. }
    split; [done|]. revert Hd. unfold delivers.
    destruct (remote _) as [|[size|] chunks []]; try done. by eauto.
  - intros ->. split; [by apply Hfail|]. intros i Hi. by rewrite Hatt.
Qed.

End downloads.

Section download_all.

Variable max_video_size_mb : Z.
Variable remote : server.

Implicit Types (st : download_state) (items : list media_data).

Lemma download_items_spec st items (successful failed0 : nat) :
  ∃ st' (successful' failed' : nat),
    download_items max_video_size_mb remote st items successful failed0
    = Some (st', successful', failed')
    ∧ (successful' + failed' = successful + failed0 + length items)%nat
    ∧ (successful ≤ successful')%nat ∧ (failed0 ≤ failed')%nat
    ∧ (length (requested st')
       ≤ length (requested st) + 3 * length items)%nat
    ∧ kept_except (map generate_filename items) (files st) (files st').
Proof.
  revert st successful failed0.
  induction items as [|item items IH]; intros st successful failed0.
  { exists st, successful, failed0. simpl.
    split; [done|]. split; [lia|]. split; [done|]. split; [done|].
    split; [lia|]. apply kept_except_refl. }
  simpl. unfold download_with_retry.
  destruct (retry_loop_spec max_video_size_mb remote (Z.to_nat 3) st item)
    as (st1 & ok & n & -> & Hkept & Hn & Hreq & _). simpl.
  assert (Hlen : (length (requested st1) ≤ length (requested st) + 3)%nat).
  { rewrite Hreq, length_app, length_replicate.
    change (Z.to_nat 3) with 3%nat in Hn. lia. }
  destruct ok.
  - destruct (IH st1 (successful + 1)%nat failed0)
      as (st' & s' & f' & -> & Hsum & Hs & Hf & Hr & Hk).
    exists st', s', f'. split; [done|]. split; [lia|]. split; [lia|].
    split; [done|]. split; [lia|].
    by eapply (kept_except_trans [generate_filename item]).
  - destruct (IH st1 successful (failed0 + 1)%nat)
      as (st' & s' & f' & -> & Hsum & Hs & Hf & Hr & Hk).
    exists st', s', f'. split; [done|]. split; [lia|]. split; [done|].
    split; [lia|]. split; [lia|].
    by eapply (kept_except_trans [generate_filename item]).
Qed.

(** X15: [download_all_media] always returns, and its three counts account
    for every item of the manifest once: images downloaded, videos
    downloaded and failures add up to the number of items, with no more
    images (videos) downloaded than there are image (video) items; at most
    three requests are sent per item. *)
Theorem download_all_media_counts st (media_data : media_lists) :
  ∃ st' r,
    download_all_media max_video_size_mb remote st media_data = Some (st', r)
    ∧ (images_done r + videos_done r + failed r
       = length (images media_data) + length (videos media_data))%nat
    ∧ (images_done r ≤ length (images media_data))%nat
    ∧ (videos_done r ≤ length (videos media_data))%nat
    ∧ (length (requested st')
       ≤ length (requested st)
         + 3 * (length (images media_data)
                + length (videos media_data)))%nat.
Proof.
  unfold download_all_media.
  destruct (length (images media_data) + length (videos media_data)
            =? 0)%nat eqn:Hz.
  { apply Nat.eqb_eq in Hz. exists st, {| images_done := 0; videos_done := 0;
                                          failed := 0 |}.
    simpl. split; [done|]. repeat split; lia. }
  destruct (download_items_spec st (images media_data) 0 0)
    as (st1 & si & f1 & -> & Hsum1 & _ & _ & Hr1 & _). simpl.
  destruct (download_items_spec st1 (videos media_data) 0 f1)
    as (st2 & sv & f2 & -> & Hsum2 & _ & Hf2 & Hr2 & _). simpl.
  eexists _, _. split; [done|]. simpl. repeat split; lia.
Qed.

(** X16: [download_all_media] leaves alone every file of the folder whose
    name is not the file name generated for an item of the manifest: it is
    still there afterwards, with the same content. *)
Theorem download_all_media_keeps_other_files st (media_data : media_lists)
    st' r :
  download_all_media max_video_size_mb remote st media_data = Some (st', r) →
  kept_except
    (map generate_filename (images media_data ++ videos media_data))
    (files st) (files st').
Proof.
  unfold download_all_media.
  destruct (length (images media_data) + length (videos media_data)
            =? 0)%nat.
  { intros [= <- _]. apply kept_except_refl. }
  destruct (download_items_spec st (images media_data) 0 0)
    as (st1 & si & f1 & -> & _ & _ & _ & _ & Hk1). simpl.
  destruct (download_items_spec st1 (videos media_data) 0 f1)
    as (st2 & sv & f2 & -> & _ & _ & _ & _ & Hk2). simpl.
  intros [= <- _]. rewrite map_app. by eapply kept_except_trans.
Qed.

End download_all.

(** The samples: a server that fails once, breaks off once and then
    delivers. *)
Example download_all_media_sample :
  download_all_media 50
    (fun n => match n with
              | O => GetRaises
              | S O => GetResponse (Some 3) ["ab"; ""; "c"] false
              | _ => GetResponse (Some 0) ["ab"; ""; "c"] true
              end)
    {| files := {["notes.txt" := "keep"]}; requested := [] |}
    {| images := [SamplePost.image_of "1" "u" 1 1];
       videos := [SamplePost.video_of "1" "v" 1 1] |}
  = Some ({| files := <["post_001_video.mp4" := "abc"]>
                        (<["post_001_img.jpg" := "abc"]>
                           {["notes.txt" := "keep"]});
             requested := [JStr "u"; JStr "u"; JStr "u"; JStr "v"] |},
          {| images_done := 1; videos_done := 1; failed := 0 |}).
Proof. vm_compute. reflexivity. Qed.

Lemma download_with_progress_adds_one_file_witness :
  ∃ new total_size chunks,
    GetResponse (Some 3) ["ab"; ""; "c"] true
    = GetResponse (Some total_size) chunks true
    ∧ ({["post_001_img.jpg" := "old"]} : folder) !! new = None
    ∧ (<["post_001_img_1.jpg" := "abc"]> {["post_001_img.jpg" := "old"]}
       : folder)
      = <[new := written chunks]> {["post_001_img.jpg" := "old"]}
    ∧ (({["post_001_img.jpg" := "old"]} : folder) !! "post_001_img.jpg" = None
       → new = "post_001_img.jpg")
    ∧ ({["post_001_img.jpg" := "old"]} : folder)
      ⊆ <["post_001_img_1.jpg" := "abc"]> {["post_001_img.jpg" := "old"]}.
Proof.
  exact (download_with_progress_adds_one_file 50
    (GetResponse (Some 3) ["ab"; ""; "c"] true)
    {["post_001_img.jpg" := "old"]} "post_001_img.jpg" Image
    (<["post_001_img_1.jpg" := "abc"]> {["post_001_img.jpg" := "old"]})
    eq_refl).
Defined.

(** A request that fails removes the file of the same name that an
    earlier run had left. *)
Lemma download_with_progress_failure_witness :
  (∅ : folder) = delete "post_001_img.jpg" {["post_001_img.jpg" := "old"]}.
Proof.
  refine (proj1 (proj2 (proj2 (download_with_progress_failure 50 GetRaises
    {["post_001_img.jpg" := "old"]} "post_001_img.jpg" Image ∅ eq_refl)))
    _).
  by left.
Defined.

Lemma download_all_media_keeps_other_files_witness :
  (<["post_001_video.mp4" := "abc"]>
     (<["post_001_img.jpg" := "abc"]> {["notes.txt" := "keep"]}) : folder)
    !! "notes.txt" = Some "keep".
Proof.
  refine (download_all_media_keeps_other_files 50
    (fun n => match n with
              | O => GetRaises
              | S O => GetResponse (Some 3) ["ab"; ""; "c"] false
              | _ => GetResponse (Some 0) ["ab"; ""; "c"] true
              end)
    {| files := {["notes.txt" := "keep"]}; requested := [] |}
    {| images := [SamplePost.image_of "1" "u" 1 1];
       videos := [SamplePost.video_of "1" "v" 1 1] |}
    _ _ download_all_media_sample "notes.txt" "keep" eq_refl _).
  change ("notes.txt" ∉ ["post_001_img.jpg"; "post_001_video.mp4"]).
  rewrite !not_elem_of_cons. repeat split; [done|done|apply not_elem_of_nil].
Defined.

(** * Further properties of the quality selector *)

Section selector_more.

(** X8: on a sequence of rendition records the selector returns one of
    the records it was given, and [None] only when it was given none. *)
Theorem select_best_video_quality_member
    (renditions : list rendition) (preference : string) :
  ∃ v, select_best_video_quality (renditions_value renditions) preference
       = Ok v
    ∧ (renditions = [] → v = JNull)
    ∧ (renditions ≠ [] → v ∈ map JObj renditions ∧ v ≠ JNull).
Proof.
  unfold select_best_video_quality, renditions_value. simpl.
  rewrite scan_priority_find. simpl.
  assert (Hmem : ∀ v, v ∈ map JObj renditions → v ≠ JNull).
  { intros v Hv ->. apply list_elem_of_fmap in Hv as (r & Hr & _). done. }
  destruct (earliest_present _ _) as [t|] eqn:He.
  - apply find_some in He as [_ He]. rewrite find_existsb in He.
    apply bool_decide_eq_true in He as [v Hv]. rewrite Hv. simpl.
    rewrite (find_has_type_truthy _ _ _ Hv). exists v. split; [done|].
    apply find_some in Hv as [Hin _]. apply list_elem_of_In in Hin.
    split; [|by auto].
    intros ->. by apply elem_of_nil in Hin.
  - simpl. destruct renditions as [|r rs]; simpl.
    + exists JNull. by repeat split.
    + exists (JObj r). split; [done|]. split; [done|].
      intros _. split; [apply elem_of_cons; by left|done].
Qed.

End selector_more.

(** * The configuration *)

Section cookies.

Implicit Types (data cookies : config_data) (key : string).

Lemma collect_cookie_usable data cookies key :
  collect_cookie data cookies key
  = match usable_value data key with
    | Some value => <[key := value]> cookies
    | None => cookies
    end.
Proof.
  unfold collect_cookie, usable_value.
  destruct (data !! key) as [value|]; [|done].
  by destruct (negb (String.eqb value "") && _).
Qed.

Lemma collect_cookies_lookup data keys cookies key :
  foldl (collect_cookie data) cookies keys !! key
  = match (if decide (key ∈ keys) then usable_value data key else None) with
    | Some value => Some value
    | None => cookies !! key
    end.
Proof.
  revert cookies. induction keys as [|k keys IH]; intros cookies.
  { destruct (decide (key ∈ [])) as [Hin|_]; [|done].
    by apply elem_of_nil in Hin. }
  cbn [foldl]. rewrite IH, collect_cookie_usable.
  assert (Hstep : match usable_value data k with
                  | Some value => <[k:=value]> cookies
                  | None => cookies
                  end !! key
                  = if decide (key = k)
                    then match usable_value data k with
                         | Some value => Some value
                         | None => cookies !! k
                         end
                    else cookies !! key).
  { destruct (decide (key = k)) as [->|Hne];
      destruct (usable_value data k); try done.
    - by rewrite lookup_insert_eq.
    - by rewrite lookup_insert_ne. }
  rewrite Hstep. clear Hstep.
  destruct (decide (key ∈ keys)) as [Hin|Hnot];
    destruct (decide (key ∈ k :: keys)) as [Hin'|Hnot'];
    destruct (decide (key = k)) as [->|Hne];
    try done;
    try (exfalso; apply Hnot'; apply elem_of_cons; tauto);
    try (by destruct (usable_value data k));
    try (by destruct (usable_value data key)).
  exfalso. apply elem_of_cons in Hin'. tauto.
Qed.

(** X17: when [cookies] returns, the dict holds exactly the usable values
    of the six cookie keys (configured, not empty, not the placeholder),
    and the three required keys are among them; it returns whenever the
    three required keys have usable values, and raises only when one of
    them has none. *)
Theorem cookies_validated data :
  (∀ c, cookies data = Returns c →
     (∀ key, c !! key = (if decide (key ∈ cookie_keys)
                         then usable_value data key else None))
     ∧ (∀ key, key ∈ required_cookies → is_Some (c !! key)))
  ∧ ((∀ key, key ∈ required_cookies → is_Some (usable_value data key)) →
     ∃ c, cookies data = Returns c)
  ∧ (∀ e, cookies data = Raises e →
     ∃ key, key ∈ required_cookies ∧ usable_value data key = None).
Proof.
  unfold cookies.
  set (c := foldl (collect_cookie data) ∅ cookie_keys).
  assert (Hc : ∀ key, c !! key = (if decide (key ∈ cookie_keys)
                                  then usable_value data key else None)).
  { intros key. unfold c. rewrite collect_cookies_lookup, lookup_empty.
    by destruct (if decide (key ∈ cookie_keys) then _ else _). }
  set (missing := List.filter _ required_cookies).
  assert (Hmissing : ∀ key, In key missing ↔
            key ∈ required_cookies ∧ usable_value data key = None).
  { intros key. unfold missing. rewrite filter_In, <- list_elem_of_In.
    rewrite negb_true_iff, bool_decide_eq_false, <- eq_None_not_Some, Hc.
    split; intros [Hr Hn]; (split; [done|]);
      assert (Hk : key ∈ cookie_keys)
        by (unfold required_cookies, cookie_keys in *; set_solver).
    - by rewrite decide_True in Hn.
    - by rewrite decide_True. }
  destruct missing as [|k ks] eqn:Hm.
  - split; [|split; [by eauto|done]].
    intros c' [= <-]. split; [done|].
    intros key Hkey.
    destruct (c !! key) as [v|] eqn:Hv; [by eauto|].
    exfalso. apply (proj2 (Hmissing key)).
    split; [done|]. rewrite Hc in Hv.
    rewrite decide_True in Hv
      by (unfold required_cookies, cookie_keys in *; set_solver). done.
  - split; [done|]. split.
    + intros Hall. exfalso.
      destruct (proj1 (Hmissing k) (or_introl eq_refl)) as [Hr Hn].
      destruct (Hall k Hr) as [v Hv]. congruence.
    + intros e _. exists k. apply Hmissing. by left.
Qed.

End cookies.

Example cookies_sample :
  cookies (list_to_map [("sessionid", "abc"); ("csrftoken", "tok");
                        ("ds_user_id", "42"); ("mid", "your_mid_value");
                        ("rur", "")])
  = Returns (list_to_map [("sessionid", "abc"); ("csrftoken", "tok");
                          ("ds_user_id", "42")])
  ∧ cookies (list_to_map [("sessionid", "abc");
                          ("csrftoken", "your_csrftoken_value")])
    = Raises (ValueError "Missing required cookies: csrftoken, ds_user_id").
Proof. split; vm_compute; reflexivity. Qed.

(** ** Stripping and splitting *)

Section strings.

Implicit Types (s k v : string) (c : ascii).

Lemma rstrip_cons_keep c s :
  Str.is_space c = false → Str.rstrip (String c s) = String c (Str.rstrip s).
Proof. intros Hc. simpl. rewrite Hc. by destruct (Str.rstrip s). Qed.

Lemma lstrip_app_keep k c s :
  Str.is_space c = false →
  Str.lstrip (k +:+ String c s) = Str.lstrip k +:+ String c s.
Proof.
  intros Hc. induction k as [|x k IH].
  - rewrite string_app_nil_l. simpl. by rewrite Hc.
  - rewrite string_app_cons. simpl. destruct (Str.is_space x); [done|].
    by rewrite string_app_cons.
Qed.

Lemma rstrip_app_keep k c s :
  Str.is_space c = false →
  Str.rstrip (k +:+ String c s) = k +:+ String c (Str.rstrip s).
Proof.
  intros Hc. induction k as [|x k IH].
  - rewrite !string_app_nil_l. by apply rstrip_cons_keep.
  - rewrite !string_app_cons. simpl. rewrite IH.
    by destruct k.
Qed.

Lemma lstrip_first s :
  Str.lstrip s = ""
  ∨ ∃ c r, Str.lstrip s = String c r ∧ Str.is_space c = false.
Proof.
  induction s as [|x s IH]; simpl; [by left|].
  destruct (Str.is_space x) eqn:Hx; [done|]. right. by eauto.
Qed.

Lemma lstrip_fixed c s :
  Str.is_space c = false → Str.lstrip (String c s) = String c s.
Proof. intros Hc. simpl. by rewrite Hc. Qed.

Lemma lstrip_rstrip s : Str.lstrip (Str.rstrip s) = Str.rstrip (Str.lstrip s).
Proof.
  induction s as [|x s IH]; [done|].
  destruct (Str.is_space x) eqn:Hx.
  - simpl Str.lstrip at 2. rewrite Hx, <- IH. simpl. rewrite Hx.
    destruct (Str.rstrip s) as [|y r] eqn:Hr; [done|].
    simpl. by rewrite Hx.
  - rewrite (lstrip_fixed _ _ Hx), (rstrip_cons_keep _ _ Hx).
    by apply lstrip_fixed.
Qed.

Lemma rstrip_rstrip s : Str.rstrip (Str.rstrip s) = Str.rstrip s.
Proof.
  induction s as [|x s IH]; [done|]. simpl.
  destruct (Str.rstrip s) as [|y r] eqn:Hr.
  - destruct (Str.is_space x) eqn:Hx; [done|]. simpl. by rewrite Hx.
  - simpl in IH |- *. by rewrite IH.
Qed.

Lemma lstrip_lstrip s : Str.lstrip (Str.lstrip s) = Str.lstrip s.
Proof.
  destruct (lstrip_first s) as [->|(c & r & -> & Hc)]; [done|].
  by apply lstrip_fixed.
Qed.

(** Stripping twice is stripping once. *)
Lemma strip_strip s : Str.strip (Str.strip s) = Str.strip s.
Proof.
  unfold Str.strip.
  by rewrite lstrip_rstrip, lstrip_lstrip, rstrip_rstrip.
Qed.

Lemma strip_lstrip s : Str.strip (Str.lstrip s) = Str.strip s.
Proof. unfold Str.strip. by rewrite lstrip_lstrip. Qed.

Lemma strip_rstrip s : Str.strip (Str.rstrip s) = Str.strip s.
Proof. unfold Str.strip. by rewrite lstrip_rstrip, rstrip_rstrip. Qed.

(** A stripped text is empty or starts with a character that is no
    whitespace. *)
Lemma strip_first s :
  Str.strip s = ""
  ∨ ∃ c r, Str.strip s = String c r ∧ Str.is_space c = false.
Proof.
  unfold Str.strip.
  destruct (lstrip_first s) as [->|(c & r & -> & Hc)]; [by left|].
  right. rewrite (rstrip_cons_keep _ _ Hc). by eauto.
Qed.

Lemma eq_not_space : Str.is_space "="%char = false.
Proof. reflexivity. Qed.

Lemma split_eq_app k v :
  no_eq k → Str.split_eq (k +:+ "=" +:+ v) = Some (k, v).
Proof.
  unfold no_eq. induction k as [|x k IH]; [done|].
  rewrite string_app_cons. simpl.
  destruct (Ascii.eqb x "="); [done|].
  destruct (Str.split_eq k) as [[? ?]|]; [done|]. intros _.
  by rewrite IH.
Qed.

Lemma split_eq_some s k v :
  Str.split_eq s = Some (k, v) → s = k +:+ "=" +:+ v ∧ no_eq k.
Proof.
  unfold no_eq. revert k. induction s as [|x s IH]; intros k; [done|].
  simpl. destruct (Ascii.eqb x "=") eqn:Hx.
  - apply Ascii.eqb_eq in Hx as ->. by intros [= <- <-].
  - destruct (Str.split_eq s) as [[k' v']|]; [|done].
    intros [= <- <-]. destruct (IH k' eq_refl) as [-> Hk].
    rewrite string_app_cons. simpl. by rewrite Hx, Hk.
Qed.

Lemma no_eq_lstrip k : no_eq k → no_eq (Str.lstrip k).
Proof.
  unfold no_eq. induction k as [|x k IH]; [done|].
  simpl. destruct (Str.is_space x).
  - destruct (Ascii.eqb x "="); [done|].
    destruct (Str.split_eq k) as [[? ?]|]; [done|]. auto.
  - done.
Qed.

Lemma no_eq_rstrip k : no_eq k → no_eq (Str.rstrip k).
Proof.
  unfold no_eq. induction k as [|x k IH]; [done|].
  simpl. destruct (Ascii.eqb x "=") eqn:Hx; [done|].
  destruct (Str.split_eq k) as [[? ?]|] eqn:Hk; [done|]. intros _.
  destruct (Str.rstrip k) as [|y r] eqn:Hr.
  - destruct (Str.is_space x); [done|]. simpl. by rewrite Hx.
  - simpl in IH |- *. rewrite Hx. by rewrite IH.
Qed.

Lemma no_eq_strip k : no_eq k → no_eq (Str.strip k).
Proof. intros. by apply no_eq_rstrip, no_eq_lstrip. Qed.

(** A line [key=value], stripped: the key loses its leading whitespace
    and the value its trailing whitespace. *)
Lemma strip_binding k v :
  Str.strip (k +:+ "=" +:+ v) = Str.lstrip k +:+ "=" +:+ Str.rstrip v.
Proof.
  unfold Str.strip.
  change ("=" +:+ v) with (String "="%char v).
  rewrite (lstrip_app_keep _ _ _ eq_not_space).
  by rewrite (rstrip_app_keep _ _ _ eq_not_space).
Qed.

End strings.

(** ** Loading the configuration *)

Section load_config.

Implicit Types (data : config_data) (lines : list string).

Lemma load_line_clean data line :
  (∀ k v, data !! k = Some v → clean_binding k v) →
  ∀ k v, load_line data line !! k = Some v → clean_binding k v.
Proof.
  intros Hdata k v. unfold load_line.
  destruct (String.eqb (Str.strip line) "" || _) eqn:Hskip; [by apply Hdata|].
  apply orb_false_iff in Hskip as [_ Hhash].
  destruct (Str.split_eq (Str.strip line)) as [[key value]|] eqn:Hsplit;
    [|by apply Hdata].
  destruct (decide (k = Str.strip key)) as [->|Hne].
  2:{ rewrite lookup_insert_ne by done. by apply Hdata. }
  rewrite lookup_insert_eq. intros [= <-].
  apply split_eq_some in Hsplit as [Hline Hkey].
  split; [apply strip_strip|]. split; [apply strip_strip|].
  split; [by apply no_eq_strip|].
  destruct key as [|c r]; [done|].
  rewrite Hline, string_app_cons in Hhash.
  destruct (strip_first line) as [Hl|(c' & r' & Hl & Hc)];
    rewrite Hline, string_app_cons in Hl; [done|].
  injection Hl as <- _.
  unfold Str.strip. rewrite (lstrip_fixed _ _ Hc), (rstrip_cons_keep _ _ Hc).
  done.
Qed.

(** X18: in a loaded configuration no key and no value has whitespace at
    either end, and no key holds an ['='] or starts with ['#']. *)
Theorem load_config_clean lines data :
  _load_config (Some lines) = Returns data →
  ∀ k v, data !! k = Some v →
    Str.strip k = k ∧ Str.strip v = v ∧ no_eq k
    ∧ Str.starts_with_hash k = false.
Proof.
  intros [= <-].
  assert (Hfold : ∀ acc,
    (∀ k v, acc !! k = Some v → clean_binding k v) →
    ∀ k v, foldl load_line acc lines !! k = Some v → clean_binding k v).
  { induction lines as [|line lines IH]; intros acc Hacc; [done|].
    simpl. apply IH. by apply load_line_clean. }
  apply Hfold. intros k v Hkv. by rewrite lookup_empty in Hkv.
Qed.

(** X19: a last line [key=value], with a key that has no ['='] and does
    not start with ['#'] once stripped, binds the stripped key to the
    stripped value (which may hold ['='] itself), whatever the lines before
    it bound the key to; the other keys keep what the earlier lines gave
    them. *)
Theorem load_config_binds lines (k v : string) :
  no_eq k → Str.starts_with_hash (Str.strip k) = false →
  ∃ data, _load_config (Some (lines ++ [k +:+ "=" +:+ v])) = Returns data
    ∧ data !! Str.strip k = Some (Str.strip v)
    ∧ ∀ k', k' ≠ Str.strip k →
        data !! k' = foldl load_line ∅ lines !! k'.
Proof.
  intros Hk Hhash. eexists. split; [reflexivity|].
  rewrite foldl_app. simpl. unfold load_line at 1 3.
  rewrite strip_binding.
  assert (Hline : String.eqb (Str.lstrip k +:+ "=" +:+ Str.rstrip v) ""
                  || Str.starts_with_hash
                       (Str.lstrip k +:+ "=" +:+ Str.rstrip v) = false).
  { destruct (lstrip_first k) as [Hl|(c & r & Hl & Hc)].
    - by rewrite Hl.
    - unfold Str.strip in Hhash. rewrite Hl in Hhash |- *.
      rewrite (rstrip_cons_keep _ _ Hc) in Hhash.
      by rewrite string_app_cons. }
  rewrite Hline, (split_eq_app _ _ (no_eq_lstrip _ Hk)).
  rewrite strip_lstrip, strip_rstrip.
  split; [by rewrite lookup_insert_eq|].
  intros k' Hne. by rewrite lookup_insert_ne.
Qed.

End load_config.

Lemma load_config_clean_witness :
  Str.strip "username" = "username" ∧ Str.strip "a=b" = "a=b"
  ∧ no_eq "username" ∧ Str.starts_with_hash "username" = false.
Proof.
  refine (load_config_clean
    ["# account"; ""; "  username =  a=b  "; "no binding here"]
    {["username" := "a=b"]} eq_refl "username" "a=b" _).
  reflexivity.
Defined.

Lemma load_config_binds_witness :
  ∃ data,
    _load_config (Some (["video_quality=lowest"]
                        ++ [" video_quality " +:+ "=" +:+ " medium  "]))
    = Returns data
    ∧ data !! Str.strip " video_quality " = Some (Str.strip " medium  ")
    ∧ ∀ k', k' ≠ Str.strip " video_quality " →
        data !! k' = foldl load_line ∅ ["video_quality=lowest"] !! k'.
Proof.
  exact (load_config_binds ["video_quality=lowest"] " video_quality "
           " medium  " eq_refl eq_refl).
Defined.

(** ** From the configuration to the extractor and the downloader *)

Section pipeline.

Variable int_of_str : string → outcome Z.

(** X20: a configuration whose [download_videos] value is anything that
    does not read ['true'] in lower case (['no'], ['0'], ['false'], ...)
    gives settings under which no manifest holds a video descriptor; a
    configuration without the key leaves the videos on. *)
Theorem config_download_videos data settings :
  config_video_settings int_of_str data = Returns settings →
  (∀ value, data !! "download_videos" = Some value →
     Str.lower value ≠ "true" →
     ∀ posts m,
       extract_media_from_posts posts (for_extractor settings) = Ok m →
       videos m = [])
  ∧ (data !! "download_videos" = None →
     download_videos (for_extractor settings) = true)
  ∧ (∀ value, data !! "download_videos" = Some value →
     Str.lower value = "true" →
     download_videos (for_extractor settings) = true).
Proof.
  intros Hs.
  assert (Hdv : download_videos (for_extractor settings)
                = String.eqb (Str.lower (default "true"
                                (data !! "download_videos"))) "true").
  { unfold config_video_settings in Hs.
    destruct (data !! "max_video_size_mb") as [size|].
    - destruct (int_of_str size); [|done]. by injection Hs as <-.
    - by injection Hs as <-. }
  split; [|split].
  - intros value Hv Hne posts m Hm.
    assert (Hoff : download_videos (for_extractor settings) = false).
    { rewrite Hdv, Hv. simpl. by apply String.eqb_neq. }
    revert Hm. unfold extract_media_from_posts.
    destruct (posts_loop_videos_off posts 1%nat (for_extractor settings)
                (for_extractor settings) {| images := []; videos := [] |}
                Hoff Hoff) as [_ ->].
    simpl. destruct (_remove_duplicates _) as [ui|]; simpl; [|done].
    by intros [= <-].
  - intros Hnone. by rewrite Hdv, Hnone.
  - intros value Hv Ht. rewrite Hdv, Hv. simpl. by apply String.eqb_eq.
Qed.

End pipeline.

Lemma config_download_videos_witness :
  videos {| images := [SamplePost.image_of "c2" "https://cdn/a.jpg" 2 2];
            videos := [] |} = [].
Proof.
  exact (proj1 (config_download_videos (fun _ => Returns 50)
    {["download_videos" := "No"]}
    {| for_extractor := {| download_videos := false;
                           video_quality := "highest" |};
       download_images := true; max_video_size_mb := 50 |} eq_refl)
    "No" eq_refl ltac:(discriminate)
    [SamplePost.post (SamplePost.video_node "1" "https://cdn/v.mp4");
     SamplePost.mixed_carousel]
    _ eq_refl).
Defined.

(** * The file manager *)

Section file_manager.

Implicit Types (files working : folder) (names : list string).

Lemma lookup_remove_all names files k :
  remove_all names files !! k
  = if decide (k ∈ names) then None else files !! k.
Proof.
  unfold remove_all. revert files.
  induction names as [|n names IH]; intros files; cbn [foldl].
  { destruct (decide (k ∈ [])) as [Hin|]; [|done].
    by apply elem_of_nil in Hin. }
  rewrite IH.
  destruct (decide (k ∈ names)) as [Hin|Hnot];
    destruct (decide (k ∈ n :: names)) as [Hin'|Hnot'].
  - done.
  - exfalso. apply Hnot'. by right.
  - apply elem_of_cons in Hin' as [->|?]; [|done]. apply lookup_delete_eq.
  - apply lookup_delete_ne. intros ->. apply Hnot'. by left.
Qed.

(** A pattern without wildcard removes the file of that name. *)
Lemma remove_exactly name files :
  remove_all (Glob.glob (Glob.Exactly name) files) files = delete name files.
Proof.
  unfold Glob.glob. destruct (file_exists files name) eqn:E; [done|].
  apply file_exists_false in E. simpl. symmetry. by apply delete_id.
Qed.

(** ['*.tmp'] removes the files that match it. *)
Lemma lookup_remove_tmp files k :
  remove_all (Glob.glob Glob.AnyTmp files) files !! k
  = if Glob.matches_tmp k then None else files !! k.
Proof.
  rewrite lookup_remove_all. unfold Glob.glob.
  destruct (decide _) as [Hin|Hnot].
  - apply list_elem_of_In, filter_In in Hin as [_ ->]. done.
  - destruct (Glob.matches_tmp k) eqn:Hm; [|done].
    destruct (files !! k) as [v|] eqn:Hk; [|done].
    exfalso. apply Hnot. apply list_elem_of_In, filter_In.
    split; [|done]. apply list_elem_of_In.
    apply (list_elem_of_fmap_2 fst _ (k, v)).
    by apply elem_of_map_to_list.
Qed.

Lemma clear_cache_files_lookup username working name :
  clear_cache_files username working !! name
  = if bool_decide (name ∈ cache_names username) || Glob.matches_tmp name
    then None else working !! name.
Proof.
  unfold clear_cache_files, cache_patterns. cbn [foldl].
  rewrite lookup_remove_tmp, !remove_exactly.
  change (delete _ (delete _ (delete _ (delete _ (delete _ working)))))
    with (remove_all (cache_names username) working).
  rewrite lookup_remove_all.
  destruct (decide (name ∈ cache_names username)) as [Hin|Hnot].
  - rewrite bool_decide_eq_true_2 by done. simpl.
    by destruct (Glob.matches_tmp name).
  - rewrite bool_decide_eq_false_2 by done. done.
Qed.

(** X24: for a plain user name, [clear_cache_files] removes from the
    working directory the five cache files named for the user and every
    file that is not hidden and whose name ends in ['.tmp'], and nothing
    else: every other file stays with its content.  Clearing a second
    time changes nothing. *)
Theorem clear_cache_files_removes username working :
  plain_username username = true →
  (∀ name,
     clear_cache_files username working !! name
     = if bool_decide (name ∈ cache_names username) || Glob.matches_tmp name
       then None else working !! name)
  ∧ clear_cache_files username working ⊆ working
  ∧ clear_cache_files username (clear_cache_files username working)
    = clear_cache_files username working.
Proof.
  intros _. split; [apply clear_cache_files_lookup|]. split.
  - apply map_subseteq_spec. intros name v.
    rewrite clear_cache_files_lookup.
    by destruct (bool_decide _ || Glob.matches_tmp name).
  - apply map_eq. intros name. rewrite !clear_cache_files_lookup.
    by destruct (bool_decide _ || Glob.matches_tmp name).
Qed.

End file_manager.

Lemma clear_cache_files_removes_witness :
  clear_cache_files "nasa"
    (<["a.tmp" := "t"]> (<["nasa_images.txt" := "c"]>
       (<[".keep.tmp" := "h"]> {["notes.txt" := "n"]})))
  ⊆ <["a.tmp" := "t"]> (<["nasa_images.txt" := "c"]>
      (<[".keep.tmp" := "h"]> {["notes.txt" := "n"]})).
Proof.
  exact (proj1 (proj2 (clear_cache_files_removes "nasa"
    (<["a.tmp" := "t"]> (<["nasa_images.txt" := "c"]>
       (<[".keep.tmp" := "h"]> {["notes.txt" := "n"]}))) eq_refl))).
Defined.

Example clear_cache_files_sample :
  clear_cache_files "nasa"
    (<["a.tmp" := "t"]> (<["nasa_images.txt" := "c"]>
       (<[".keep.tmp" := "h"]> {["notes.txt" := "n"]})))
  = <[".keep.tmp" := "h"]> {["notes.txt" := "n"]}.
Proof. vm_compute. reflexivity. Qed.

(** * The application *)

Section application.

Variable int_of_str : string → outcome Z.

(** X21: for a plain user name [run] always returns.  It returns [True]
    exactly when the user name, the settings and the cookies are valid,
    the first ten pages gave at least one post, the extraction at least
    one descriptor and the download folder could be made, whatever became
    of the downloads.  It has then sent at most three download requests
    per descriptor, under pairwise distinct file names, and has left alone
    every file of the folder that has none of these names.  When it
    returns [False] no download was requested and the download folder is
    as before.  The cache files of the working directory are cleared as
    soon as the user name and the settings are read, and not before. *)
Theorem run_outcome data (remote : script) (downloads : server)
    (folder_created : bool) (working : folder) st :
  (∀ user, username data = Returns user → plain_username user = true) →
  ∃ ok working' st',
    run int_of_str data remote downloads folder_created working st
    = Some (ok, working', st')
    ∧ (ok = false → st' = st)
    ∧ working'
      = match username data, config_video_settings int_of_str data with
        | Returns user, Returns _ => clear_cache_files user working
        | _, _ => working
        end
    ∧ (ok = true ↔
       ∃ user settings c posts media_data r,
         username data = Returns user
         ∧ config_video_settings int_of_str data = Returns settings
         ∧ cookies data = Returns c
         ∧ fetch_user_posts remote 10 = Some posts ∧ posts ≠ []
         ∧ extract_media_from_posts posts (for_extractor settings)
           = Ok media_data
         ∧ (0 < length (images media_data)
                + length (videos media_data))%nat
         ∧ folder_created = true
         ∧ download_all_media (max_video_size_mb settings) downloads st
             media_data = Some (st', r)
         ∧ (length (requested st')
            ≤ length (requested st)
              + 3 * (length (images media_data)
                     + length (videos media_data)))%nat
         ∧ NoDup (map generate_filename
                    (images media_data ++ videos media_data))
         ∧ kept_except
             (map generate_filename
                (images media_data ++ videos media_data))
             (files st) (files st')).
Proof.
  intros _. unfold run.
  assert (Hno : ∀ (w : folder) (P : download_state → Prop),
    (∀ st', ¬ P st') →
    ∃ ok working' st', Some (false, w, st) = Some (ok, working', st')
      ∧ (ok = false → st' = st) ∧ working' = w ∧ (ok = true ↔ P st')).
  { intros w P HP. exists false, w, st. split; [done|]. split; [done|].
    split; [done|]. split; [done|]. intros H. by destruct (HP _ H). }
  destruct (username data) as [user|] eqn:Hu.
  2:{ apply Hno. by intros st' (? & ? & ? & ? & ? & ? & ? & _). }
  destruct (config_video_settings int_of_str data) as [settings|] eqn:Hs.
  2:{ apply Hno. by intros st' (? & ? & ? & ? & ? & ? & _ & ? & _). }
  destruct (cookies data) as [c|] eqn:Hc.
  2:{ apply Hno. by intros st' (? & ? & ? & ? & ? & ? & _ & _ & ? & _). }
  destruct (fetch_user_posts_returns remote 10) as [posts Hp].
  rewrite Hp. simpl.
  destruct posts as [|post posts].
  { apply Hno.
    intros st' (? & ? & ? & ? & ? & ? & _ & _ & _ & [= <-] & ? & _).
    done. }
  destruct (extract_media_from_posts (post :: posts) (for_extractor settings))
    as [media_data|e] eqn:He.
  2:{ apply Hno.
      intros st' (? & s' & ? & ? & ? & ? & _ & [= <-] & _ & [= <-] & _ & ?
                  & _).
      congruence. }
  destruct ((length (images media_data) =? 0)%nat
            && (length (videos media_data) =? 0)%nat) eqn:Hz.
  { apply Hno.
    intros st' (? & s' & ? & ? & m' & ? & _ & [= <-] & _ & [= <-] & _ & Hm
                & Hpos & _).
    rewrite He in Hm. injection Hm as <-.
    apply andb_true_iff in Hz as [Hi Hv].
    apply Nat.eqb_eq in Hi, Hv. lia. }
  destruct folder_created; cbn [negb].
  2:{ apply Hno.
      by intros st' (? & ? & ? & ? & ? & ? & _ & _ & _ & _ & _ & _ & _ & ?
                     & _). }
  assert (Hpos : (0 < length (images media_data)
                      + length (videos media_data))%nat).
  { apply andb_false_iff in Hz as [Hz|Hz]; apply Nat.eqb_neq in Hz; lia. }
  assert (Hd : ∃ st2 r,
    download_all_media (max_video_size_mb settings) downloads st media_data
    = Some (st2, r)
    ∧ (length (requested st2)
       ≤ length (requested st)
         + 3 * (length (images media_data)
                + length (videos media_data)))%nat
    ∧ kept_except
        (map generate_filename (images media_data ++ videos media_data))
        (files st) (files st2)).
  { unfold download_all_media.
    rewrite (proj2 (Nat.eqb_neq _ _)) by lia.
    destruct (download_items_spec (max_video_size_mb settings) downloads st
                (images media_data) 0 0)
      as (st1 & si & f1 & -> & _ & _ & _ & Hr1 & Hk1). simpl.
    destruct (download_items_spec (max_video_size_mb settings) downloads st1
                (videos media_data) 0 f1)
      as (st2 & sv & f2 & -> & _ & _ & _ & Hr2 & Hk2). simpl.
    eexists _, _. split; [done|]. split; [lia|].
    rewrite map_app. by eapply kept_except_trans. }
  destruct Hd as (st2 & r & Hd & Hreq & Hkept). rewrite Hd. simpl.
  exists true, (clear_cache_files user working), st2.
  split; [done|]. split; [done|]. split; [done|].
  split; [|done]. intros _.
  exists user, settings, c, (post :: posts), media_data, r.
  repeat split; try done.
  apply extract_media_in_posts in He as [Hi Hv].
  by eapply in_posts_filenames_nodup.
Qed.

End application.

(** A configuration without cookies: the cache is cleared, and the run
    ends there. *)
Lemma run_outcome_witness :
  ∃ ok working' st',
    run (fun _ => Returns 50) {["username" := "nasa"]} (fun _ => PostRaises)
      (fun _ => GetRaises) true {["a.tmp" := "t"]}
      {| files := ∅; requested := [] |}
    = Some (ok, working', st')
    ∧ (ok = false → st' = {| files := ∅; requested := [] |}).
Proof.
  destruct (run_outcome (fun _ => Returns 50) {["username" := "nasa"]}
    (fun _ => PostRaises) (fun _ => GetRaises) true {["a.tmp" := "t"]}
    {| files := ∅; requested := [] |}) as (ok & w & st' & Hrun & Hst & _).
  - intros user Hu. vm_compute in Hu. injection Hu as <-. reflexivity.
  - exact (ex_intro _ ok (ex_intro _ w (ex_intro _ st' (conj Hrun Hst)))).
Defined.

Example run_sample :
  run (fun _ => Returns 50) {["username" := "nasa"]} (fun _ => PostRaises)
    (fun _ => GetRaises) true {["a.tmp" := "t"]}
    {| files := ∅; requested := [] |}
  = Some (false, ∅, {| files := ∅; requested := [] |}).
Proof. vm_compute. reflexivity. Qed.
